(** * Fraud-risk platform: ingest writer, featurizer and inference assembler

    A shallow embedding of the three services of the repository

    - [services/ingest/s3_writer.py]   (module [S3Writer]),
    - [services/ingest/app.py]         (module [Ingest]),
    - [services/featurizer/app.py]     (module [Featurizer]),
    - [services/infer/reasons.py], [feature_vector.py], [app.py]
                                       (modules [Reasons], [FeatureVector], [Infer]),

    followed by the properties of the specification that are stated about
    them.  Python [float] is IEEE binary64 and is embedded as Rocq's
    primitive [float]; [dict] is a [gmap]; code that can raise returns a
    [result]; code that mutates an object and can raise afterwards returns
    the mutated object together with the [result].  What the services ask
    of the outside world (the clock, the object store, the feature store,
    the model) is an argument of the function that asks.

    Part I ends with a concrete runtime ([Reference]), the wording of the
    specification where a property compares it with the code ([Spec]),
    and the concrete inputs on which the embedding is run ([Examples]). *)

From Stdlib Require Import ZArith List String Ascii Floats Uint63 Permutation Lia Bool.
From stdpp Require Import base option gmap strings list pretty.

#[local] Set Warnings "-inexact-float".
#[local] Open Scope Z_scope.

(* ===================================================================== *)
(** * Part I.  The embedding                                              *)
(* ===================================================================== *)

(** ** Python values, exceptions and builtins *)
Module Py.

(** The exceptions the modelled code can raise or observe. *)
Inductive exn : Type :=
| KeyError (key : string)      (* d[key] on a missing key *)
| ValueError                   (* float(s), datetime.fromisoformat(s) *)
| AttributeError               (* v.replace on a value that is not a str *)
| UnicodeDecodeError           (* b.decode('utf-8') *)
| OSError                      (* Path.mkdir *)
| ArrowError                   (* pa.Table.from_pylist / pq.write_table *)
| RedisError                   (* any failure of the redis client *)
| ModelError.                  (* any failure of the scoring model *)

Inductive result (A : Type) : Type :=
| Ok (a : A)
| Raise (e : exn).
Arguments Ok {A} a.
Arguments Raise {A} e.

Definition bind {A B} (r : result A) (k : A -> result B) : result B :=
  match r with
  | Ok a => k a
  | Raise e => Raise e
  end.

Definition is_ok {A} (r : result A) : bool :=
  match r with Ok _ => true | Raise _ => false end.

(** Values found in the dictionaries the services pass around
    ([Dict[str, Any]]): strings, floats and ints. *)
Inductive pyval : Type :=
| PStr (s : string)
| PFloat (f : float)
| PInt (z : Z).

(** [float(n)] for an int [n] with [|n| < 2^63]. *)
Definition float_of_Z (z : Z) : float :=
  if z <? 0 then PrimFloat.opp (PrimFloat.of_uint63 (Uint63.of_Z (- z)))
  else PrimFloat.of_uint63 (Uint63.of_Z z).

(** [x > y] on floats, as Python writes it. *)
Definition gt (x y : float) : bool := PrimFloat.ltb y x.
(** [x >= y] on floats. *)
Definition ge (x y : float) : bool := PrimFloat.leb y x.

(** [max(l)] on a non-empty list, [dflt] on the empty one: the first
    element is kept until a strictly greater one is met. *)
Definition py_max (dflt : float) (l : list float) : float :=
  match l with
  | [] => dflt
  | x :: rest => fold_left (fun m y => if gt y m then y else m) rest x
  end.

(** Rounding of a binary64 value to binary32 (round to nearest even), the
    conversion [torch.tensor(..., dtype=torch.float32)] applies to each
    entry.  The result is again held in a binary64, where every binary32
    value is exact. *)
Definition to_float32 (x : float) : float :=
  match Prim2SF x with
  | S754_finite s m e =>
      SF2Prim (binary_normalize 24 128 (cond_Zopp s (Z.pos m)) e s)
  | _ => x
  end.

(** The integer nearest to [n / d] for [d > 0], ties to even. *)
Definition round_half_even (n d : Z) : Z :=
  let q := n / d in
  let r := n mod d in
  match 2 * r ?= d with
  | Lt => q
  | Gt => q + 1
  | Eq => if Z.even q then q else q + 1
  end.

(** [round(x, ndigits)] for [ndigits >= 0]: the exact value of [x] is
    rounded, ties to even, to a multiple [k / 10^ndigits], and the
    result is the binary64 nearest to that decimal. *)
Definition py_round (x : float) (ndigits : Z) : float :=
  match Prim2SF x with
  | S754_finite s m e =>
      let p := 10 ^ ndigits in
      let k := if 0 <=? e then Z.pos m * 2 ^ e * p
               else round_half_even (Z.pos m * p) (2 ^ (- e)) in
      match k with
      | Z.pos k' =>
          SF2Prim (SFdiv prec emax (S754_finite s k' 0)
                                   (S754_finite false (Z.to_pos p) 0))
      | _ => if s then (-0)%float else 0%float
      end
  | _ => x
  end.

(** *** Naive and aware datetimes *)
Record datetime : Type := mk_datetime {
  year : Z; month : Z; day : Z;
  hour : Z; minute : Z; second : Z; microsecond : Z;
  tzinfo : option Z            (* UTC offset in seconds; [None] when naive *)
}.

(** [d.replace(tzinfo=None)]: the fields are kept, the zone is dropped. *)
Definition strip_tz (d : datetime) : datetime :=
  mk_datetime (year d) (month d) (day d) (hour d) (minute d) (second d)
              (microsecond d) None.

(** Days from 0000-03-01-based civil calendar to the epoch 1970-01-01
    (proleptic Gregorian), so that naive datetimes are ordered by
    [to_micros] as Python orders them by their fields. *)
Definition days_from_civil (y m d : Z) : Z :=
  let y' := if m <=? 2 then y - 1 else y in
  let era := y' / 400 in
  let yoe := y' - era * 400 in
  let doy := (153 * (m + (if 2 <? m then -3 else 9)) + 2) / 5 + d - 1 in
  let doe := yoe * 365 + yoe / 4 - yoe / 100 + doy in
  era * 146097 + doe - 719468.

Definition to_micros (d : datetime) : Z :=
  (((days_from_civil (year d) (month d) (day d) * 24 + hour d) * 60
    + minute d) * 60 + second d) * 1000000 + microsecond d.

(** [a >= now - timedelta(seconds=secs)] on naive datetimes. *)
Definition cutoff (now : datetime) (secs : Z) : Z := to_micros now - secs * 1000000.
Definition at_or_after (a : datetime) (cut : Z) : bool := cut <=? to_micros a.

(** Decimal rendering, zero-padded on the left to [width] digits. *)
Fixpoint zeros (n : nat) : string :=
  match n with O => EmptyString | S n => String "0" (zeros n) end.
Definition pad (width : nat) (z : Z) : string :=
  let s := pretty (Z.to_N z) in
  (zeros (width - String.length s) ++ s)%string.

(** [d.strftime("%Y-%m-%d")] and [d.strftime("%H")] (years 1000..9999). *)
Definition strftime_date (d : datetime) : string :=
  (pad 4 (year d) ++ "-" ++ pad 2 (month d) ++ "-" ++ pad 2 (day d))%string.
Definition strftime_hour (d : datetime) : string := pad 2 (hour d).

(** [d.isoformat()] of a naive datetime. *)
Definition isoformat (d : datetime) : string :=
  (strftime_date d ++ "T" ++ pad 2 (hour d) ++ ":" ++ pad 2 (minute d) ++ ":"
   ++ pad 2 (second d)
   ++ (if (microsecond d =? 0)%Z then EmptyString else "." ++ pad 6 (microsecond d)))%string.

(** [s.replace('Z', '+00:00')]. *)
Fixpoint replace_Z (s : string) : string :=
  match s with
  | EmptyString => EmptyString
  | String c rest =>
      if Ascii.eqb c "Z" then ("+00:00" ++ replace_Z rest)%string
      else String c (replace_Z rest)
  end.

(** *** Strict UTF-8

    A Python [str] is held as its UTF-8 encoding, so [b.decode('utf-8')]
    is the identity on well-formed input and raises otherwise. *)
Definition in_range (lo hi : N) (c : ascii) : bool :=
  let n := N_of_ascii c in (lo <=? n)%N && (n <=? hi)%N.
Definition cont (c : ascii) : bool := in_range 128 191 c.

Fixpoint utf8_valid (s : string) : bool :=
  match s with
  | EmptyString => true
  | String a r =>
      if in_range 0 127 a then utf8_valid r
      else match r with
      | String b r1 =>
          if in_range 194 223 a then cont b && utf8_valid r1
          else match r1 with
          | String c r2 =>
              if in_range 224 239 a then
                (if in_range 224 224 a then in_range 160 191 b
                 else if in_range 237 237 a then in_range 128 159 b
                 else cont b)
                && cont c && utf8_valid r2
              else match r2 with
              | String d r3 =>
                  in_range 240 244 a
                  && (if in_range 240 240 a then in_range 144 191 b
                      else if in_range 244 244 a then in_range 128 143 b
                      else cont b)
                  && cont c && cont d && utf8_valid r3
              | EmptyString => false
              end
          | EmptyString => false
          end
      | EmptyString => false
      end
  end.

Definition decode (b : string) : result string :=
  if utf8_valid b then Ok b else Raise UnicodeDecodeError.

(** *** The part of the runtime that is left abstract

    [float(s)] and [datetime.fromisoformat(s)] on strings ([None] stands
    for [ValueError]) and the builtin [sum] on a list of floats.  Every
    general statement below holds for any such functions. *)
Class Runtime : Type := {
  float_of_str : string -> option float;
  fromisoformat : string -> option datetime;
  py_sum : list float -> float
}.

Section WithRuntime.
Context {rt : Runtime}.

(** [float(v)]. *)
Definition py_float (v : pyval) : result float :=
  match v with
  | PStr s =>
      match float_of_str s with
      | Some f => Ok f
      | None => Raise ValueError
      end
  | PFloat f => Ok f
  | PInt z => Ok (float_of_Z z)
  end.

(** [datetime.fromisoformat(s.replace('Z', '+00:00'))]. *)
Definition parse_iso (s : string) : result datetime :=
  match fromisoformat (replace_Z s) with
  | Some d => Ok d
  | None => Raise ValueError
  end.

End WithRuntime.

End Py.

Import Py.

(** ** [services/ingest/s3_writer.py] *)
Module S3Writer.

(** An event as the ingest handler buffers it: [event.model_dump()]. *)
Abbreviation event := (gmap string pyval).

(** One Parquet file of the object store: its path and its rows. *)
Record blob : Type := mk_blob {
  blob_path : string;
  blob_rows : list event
}.

(** The writer object.  [buffer_lock] guards every access to [buffer]
    below; it is modelled by making each locked region one step. *)
Record ParquetWriter : Type := mk_writer {
  base_path : string;
  flush_interval : Z;
  batch_size : Z;
  buffer : list event
}.

Definition new_writer (base : string) (interval size : Z) : ParquetWriter :=
  mk_writer base interval size [].

Definition set_buffer (w : ParquetWriter) (b : list event) : ParquetWriter :=
  mk_writer (base_path w) (flush_interval w) (batch_size w) b.

(** What the outside world answers during one call of [flush]. *)
Record io : Type := mk_io {
  mkdir_ok : bool;       (* partition_path.mkdir(parents=True, exist_ok=True) *)
  write_ok : bool;       (* from_pylist and write_table both succeed *)
  uuid8 : string         (* uuid.uuid4().hex[:8] *)
}.

(** The writer together with the files of the object store, in the
    order in which they were last written. *)
Record state : Type := mk_state {
  writer : ParquetWriter;
  disk : list blob
}.

(** [pq.write_table(table, file_path)] when it succeeds: the file is
    created, and a file that is already at this path is replaced, its
    rows gone. *)
Definition write_table (path : string) (rows : list event) (d : list blob) : list blob :=
  List.filter (fun b => negb (String.eqb (blob_path b) path)) d ++ [mk_blob path rows].

(** The rows of the file at [path], if there is one. *)
Definition read_table (d : list blob) (path : string) : option (list event) :=
  blob_rows <$> List.find (fun b => String.eqb (blob_path b) path) d.

Definition init (base : string) (interval size : Z) : state :=
  mk_state (new_writer base interval size) [].

(** [ParquetWriter.add_event]. *)
Definition add_event (e : event) (w : ParquetWriter) : ParquetWriter :=
  set_buffer w (buffer w ++ [e]).

(** [ParquetWriter.get_buffer_size]. *)
Definition get_buffer_size (w : ParquetWriter) : Z := Z.of_nat (length (buffer w)).

Section WithRuntime.
Context {rt : Runtime}.

(** [first_event["ts"].replace("Z", "+00:00")] parsed by [fromisoformat]. *)
Definition first_event_ts (first_event : event) : result datetime :=
  match first_event !! "ts"%string with
  | None => Raise (KeyError "ts")
  | Some (PStr s) => parse_iso s
  | Some _ => Raise AttributeError
  end.

Definition file_path (base : string) (event_ts : datetime) (uuid : string) : string :=
  (base ++ "/events/dt=" ++ strftime_date event_ts ++ "/hour="
   ++ strftime_hour event_ts ++ "/events-" ++ uuid ++ ".parquet")%string.

(** The part of [flush] that runs after the first locked region, on the
    snapshot [events_to_flush] taken there: the partition path, the
    write inside [try], and in the [except] branch the second locked
    region that puts the snapshot back. *)
Definition complete (env : io) (events_to_flush : list event) (s : state)
  : state * result Z :=
  match events_to_flush with
  | [] => (s, Ok 0)
  | first_event :: _ =>
      match first_event_ts first_event with
      | Raise e => (s, Raise e)
      | Ok event_ts =>
          if negb (mkdir_ok env) then (s, Raise OSError)
          else
            let path := file_path (base_path (writer s)) event_ts (uuid8 env) in
            (* try: *)
            if write_ok env then
              (mk_state (writer s) (write_table path events_to_flush (disk s)),
               Ok (Z.of_nat (length events_to_flush)))
            else
              (* except: self.buffer = events_to_flush + self.buffer; raise e *)
              (mk_state (set_buffer (writer s) (events_to_flush ++ buffer (writer s)))
                        (disk s),
               Raise ArrowError)
      end
  end.

(** [ParquetWriter.flush], run without another task in between: the
    state after the call and what the call returns or raises. *)
Definition flush (env : io) (s : state) : state * result Z :=
  match buffer (writer s) with
  | [] => (s, Ok 0)
  | events_to_flush =>
      (* events_to_flush = self.buffer.copy(); self.buffer.clear() *)
      complete env events_to_flush (mk_state (set_buffer (writer s) []) (disk s))
  end.

(** One turn of [start_background_flusher] after its sleep, run without
    another task in between: the test [len(self.buffer) > 0] under the
    lock, then [flush] inside [try]; what [flush] raises is printed and
    dropped, and the loop goes on. *)
Definition flusher_turn (env : io) (s : state) : state :=
  let should_flush := 0 <? Z.of_nat (length (buffer (writer s))) in
  if should_flush then fst (flush env s) else s.

(** As many turns of the flusher as [envs] describes. *)
Definition start_background_flusher (envs : list io) (s : state) : state :=
  fold_left (fun s env => flusher_turn env s) envs s.

(** A history of calls on one writer, each run from start to end. *)
Inductive call : Type :=
| AddEvent (e : event)
| Flush (env : io).

Definition step (s : state) (c : call) : state :=
  match c with
  | AddEvent e => mk_state (add_event e (writer s)) (disk s)
  | Flush env => fst (flush env s)
  end.

Definition run (cs : list call) (s : state) : state := fold_left step cs s.

(** *** Interleavings

    Between the two locked regions of [flush] other tasks may run.  A
    pool is the shared state together with the snapshots of the [flush]
    calls that have left their first locked region and not yet
    finished. *)
Record pool : Type := mk_pool {
  shared : state;
  in_flight : list (list event)
}.

Inductive action : Type :=
| Enqueue (e : event)              (* a whole [add_event] *)
| Snapshot                         (* a [flush] up to the end of its first locked region *)
| Complete (i : nat) (env : io).   (* the rest of the [flush] whose snapshot is number [i] *)

Definition act (p : pool) (a : action) : pool :=
  match a with
  | Enqueue e =>
      mk_pool (mk_state (add_event e (writer (shared p))) (disk (shared p)))
              (in_flight p)
  | Snapshot =>
      match buffer (writer (shared p)) with
      | [] => p
      | events_to_flush =>
          mk_pool (mk_state (set_buffer (writer (shared p)) []) (disk (shared p)))
                  (in_flight p ++ [events_to_flush])
      end
  | Complete i env =>
      match in_flight p !! i with
      | None => p
      | Some events_to_flush =>
          mk_pool (fst (complete env events_to_flush (shared p)))
                  (delete i (in_flight p))
      end
  end.

Definition interleave (acts : list action) (p : pool) : pool := fold_left act acts p.

End WithRuntime.

(** The events handed to [add_event] in a history, in order. *)
Definition enqueued (cs : list call) : list event :=
  flat_map (fun c => match c with AddEvent e => [e] | Flush _ => [] end) cs.

Definition enqueued_by (acts : list action) : list event :=
  flat_map (fun a => match a with Enqueue e => [e] | _ => [] end) acts.

(** The events found in the files of the store. *)
Definition written (d : list blob) : list event := flat_map blob_rows d.

(** The file names drawn by the [flush] calls of a history, in order:
    one [uuid.uuid4().hex[:8]] per call. *)
Definition names (cs : list call) : list string :=
  flat_map (fun c => match c with AddEvent _ => [] | Flush env => [uuid8 env] end) cs.

Definition names_by (acts : list action) : list string :=
  flat_map (fun a => match a with Complete _ env => [uuid8 env] | _ => [] end) acts.

End S3Writer.

(** ** [services/ingest/schemas.py] and [services/ingest/app.py] *)
Module Ingest.

(** [class TransactionEvent], the validated body of a request; [V i] is
    the field [Vi], for [i] from 1 to 28. *)
Record TransactionEvent : Type := mk_event {
  event_id : string;
  ts : string;
  user_id : string;
  amount : float;
  currency : string;
  country : string;
  device_id : string;
  ip : string;
  merchant_id : string;
  V : nat -> float;
  Amount_normalized : float
}.

(** [event.model_dump()]. *)
Definition model_dump (e : TransactionEvent) : gmap string pyval :=
  list_to_map
    ([ ("event_id", PStr (event_id e)); ("ts", PStr (ts e));
       ("user_id", PStr (user_id e)); ("amount", PFloat (amount e));
       ("currency", PStr (currency e)); ("country", PStr (country e));
       ("device_id", PStr (device_id e)); ("ip", PStr (ip e));
       ("merchant_id", PStr (merchant_id e)) ]%string
     ++ ((fun i => (("V" ++ pretty (Z.of_nat i))%string, PFloat (V e i))) <$> seq 1 28)
     ++ [ ("Amount_normalized"%string, PFloat (Amount_normalized e)) ]).

(** The model features of an event, in the order [V1..V28],
    [Amount_normalized]. *)
Definition model_features (e : TransactionEvent) : list float :=
  (V e <$> seq 1 28) ++ [Amount_normalized e].

(** What the service works on: the writer with its files; the event
    log (the Redis stream), oldest record first; the handlers that wait
    in [await redis_client.xadd(...)], first those whose command the log
    has not run yet, then those whose reply has not reached them yet;
    and the tasks made by [asyncio.create_task(parquet_writer.flush())]
    that have not run yet. *)
Record service : Type := mk_service {
  parquet_writer : S3Writer.state;
  stream : list (gmap string string);
  sent : list TransactionEvent;
  replied : list (bool * TransactionEvent);
  flush_tasks : nat
}.

Definition new_service (base : string) (interval size : Z) : service :=
  mk_service (S3Writer.init base interval size) [] [] [] O.

(** What the handler answers: [{"status": "ok", "event_id": ...}], or
    [HTTPException(status_code=500, detail=str(e))]. *)
Inductive answer : Type :=
| Accepted (event_id : string)
| Http500 (detail : exn).

Section WithRuntime.
Context {rt : Runtime}.
(** [str(x)] on a float is left abstract. *)
Variable float_repr : float -> string.

(** [str(v)]. *)
Definition py_str (v : pyval) : string :=
  match v with
  | PStr s => s
  | PFloat f => float_repr f
  | PInt z => pretty z
  end.

(** The handler of [POST /events] up to [await redis_client.xadd], the
    one place where it waits for the outside: the dump of the event is
    put into the buffer of the writer and the command is sent. *)
Definition buffer_event (event : TransactionEvent) (sv : service) : service :=
  (* try: *)
  let event_dict := model_dump event in
  let w := S3Writer.add_event event_dict (S3Writer.writer (parquet_writer sv)) in
  mk_service (S3Writer.mk_state w (S3Writer.disk (parquet_writer sv)))
             (stream sv) (sent sv ++ [event]) (replied sv) (flush_tasks sv).

(** The event log runs the command of the waiting handler number [i],
    or fails to ([xadd_ok] is false: the record is not appended and the
    handler will see the error).  The record is [stream_data], every
    value of the dump stringified.  [maxlen=10000] is approximate
    ([approximate=True] is the default of [xadd]): the log may drop
    records from its old end, [trimmed] of them at most, and never
    leaves fewer than 10000. *)
Definition xadd (i : nat) (xadd_ok : bool) (trimmed : nat) (sv : service) : service :=
  match sent sv !! i with
  | None => sv
  | Some event =>
      let stream_data := py_str <$> model_dump event in
      let records :=
        if xadd_ok then
          let l := stream sv ++ [stream_data] in
          drop (Z.to_nat (Z.min (Z.of_nat trimmed) (Z.of_nat (length l) - 10000))) l
        else stream sv in
      mk_service (parquet_writer sv) records (delete i (sent sv))
                 (replied sv ++ [(xadd_ok, event)]) (flush_tasks sv)
  end.

(** The reply number [i] reaches its handler, which runs to its end:
    after a successful [xadd] it reads the buffer size, makes a flush
    task when the size has reached [batch_size], and answers ok; on an
    error it answers 500.  The answer is given with the event of the
    request. *)
Definition resume (i : nat) (sv : service)
  : service * list (TransactionEvent * answer) :=
  match replied sv !! i with
  | None => (sv, [])
  | Some reply =>
      let xadd_ok : bool := fst reply in
      let event : TransactionEvent := snd reply in
      if xadd_ok then
        let w := S3Writer.writer (parquet_writer sv) in
        let buffer_size := S3Writer.get_buffer_size w in
        let tasks :=
          if S3Writer.batch_size w <=? buffer_size then S (flush_tasks sv)
          else flush_tasks sv in
        (mk_service (parquet_writer sv) (stream sv) (sent sv)
                    (delete i (replied sv)) tasks,
         [(event, Accepted (event_id event))])
      else
        (* except Exception as e: raise HTTPException(status_code=500, ...) *)
        (mk_service (parquet_writer sv) (stream sv) (sent sv)
                    (delete i (replied sv)) (flush_tasks sv),
         [(event, Http500 RedisError)])
  end.

(** What happens at the service, one thing at a time.  While a handler
    waits for [xadd], other handlers, the event log and the flushes
    run. *)
Inductive step : Type :=
| Arrives (event : TransactionEvent)              (* a handler runs up to [xadd] *)
| Xadd (i : nat) (xadd_ok : bool) (trimmed : nat) (* the log runs a command *)
| Resumes (i : nat)                               (* a handler gets its reply and ends *)
| FlushTask (env : S3Writer.io)     (* a task made by [create_task] runs [flush] *)
| FlusherTurn (env : S3Writer.io).  (* the background flusher wakes up *)

(** One step, and the answer sent if a handler ends.  What [flush]
    raises inside a task made by [create_task] is kept by the task,
    which nobody awaits. *)
Definition take_step (st : step) (sv : service)
  : service * list (TransactionEvent * answer) :=
  match st with
  | Arrives event => (buffer_event event sv, [])
  | Xadd i xadd_ok trimmed => (xadd i xadd_ok trimmed sv, [])
  | Resumes i => resume i sv
  | FlushTask env =>
      match flush_tasks sv with
      | O => (sv, [])
      | S tasks =>
          (mk_service (fst (S3Writer.flush env (parquet_writer sv)))
                      (stream sv) (sent sv) (replied sv) tasks, [])
      end
  | FlusherTurn env =>
      (mk_service (S3Writer.flusher_turn env (parquet_writer sv))
                  (stream sv) (sent sv) (replied sv) (flush_tasks sv), [])
  end.

(** A history of the service, and the answers sent. *)
Fixpoint serve (steps : list step) (sv : service)
  : service * list (TransactionEvent * answer) :=
  match steps with
  | [] => (sv, [])
  | st :: rest =>
      let '(sv, sent_now) := take_step st sv in
      let '(sv, answers) := serve rest sv in
      (sv, sent_now ++ answers)
  end.

End WithRuntime.

(** The events of the requests that arrived in a history, in order. *)
Definition arrived (steps : list step) : list TransactionEvent :=
  flat_map (fun st => match st with Arrives event => [event] | _ => [] end) steps.

(** The file names drawn by the flushes of a history, in order. *)
Definition names (steps : list step) : list string :=
  flat_map (fun st => match st with
                      | FlushTask env | FlusherTurn env => [S3Writer.uuid8 env]
                      | _ => []
                      end) steps.

End Ingest.

(** ** [services/featurizer/app.py] *)
Module Featurizer.

(** A decoded log record: every field is a string. *)
Abbreviation event := (gmap string string).

(** Identifiers of the event log: [ms-seq], ordered lexicographically;
    the cursor starts at ["0"], that is [(0, 0)]. *)
Abbreviation stream_id := (N * N)%type.

(** A record of the log with its identifier. *)
Abbreviation message := (stream_id * gmap string string)%type.

(** [class EventWindow]. *)
Record EventWindow : Type := mk_window {
  events : list event;         (* the deque, oldest first *)
  total_amount : float;
  amount_count : Z
}.

Definition new_window : EventWindow := mk_window [] 0%float 0.

(** [e.get(key, '')]. *)
Definition get_str (key : string) (e : event) : string := default EmptyString (e !! key).

(** Number of positions [i >= 1] with [l[i] != l[i-1]]. *)
Fixpoint changes (l : list string) : Z :=
  match l with
  | a :: (b :: _) as rest => (if decide (b = a) then 0 else 1) + changes rest
  | _ => 0
  end.

(** [len(set(l))]. *)
Definition count_unique (l : list string) : Z :=
  Z.of_nat (size (list_to_set l : gset string)).

Section WithRuntime.
Context {rt : Runtime}.

(** [datetime.fromisoformat(e['ts'].replace('Z', '+00:00')).replace(tzinfo=None)]. *)
Definition event_time (e : event) : result datetime :=
  match e !! "ts"%string with
  | None => Raise (KeyError "ts")
  | Some s => bind (parse_iso s) (fun d => Ok (strip_tz d))
  end.

(** [float(s)] on a field value. *)
Definition to_float (s : string) : result float := py_float (PStr s).

(** [EventWindow.add_event]: the event is appended first; the running
    aggregates follow only when [float(event['amount'])] returns. *)
Definition add_event (e : event) (w : EventWindow) : EventWindow * result unit :=
  let evs := events w ++ [e] in
  match e !! "amount"%string with
  | None => (mk_window evs (total_amount w) (amount_count w), Ok tt)
  | Some s =>
      match to_float s with
      | Raise x => (mk_window evs (total_amount w) (amount_count w), Raise x)
      | Ok a => (mk_window evs (total_amount w + a)%float (amount_count w + 1), Ok tt)
      end
  end.

(** The comprehension of [EventWindow.get_recent], for a cutoff already
    computed. *)
Fixpoint recent (cut : Z) (evs : list event) : result (list event) :=
  match evs with
  | [] => Ok []
  | e :: rest =>
      bind (event_time e) (fun t =>
      bind (recent cut rest) (fun l =>
      Ok (if at_or_after t cut then e :: l else l)))
  end.

(** [EventWindow.get_recent]. *)
Definition get_recent (seconds : Z) (now : datetime) (w : EventWindow)
  : result (list event) :=
  recent (cutoff now seconds) (events w).

(** [EventWindow.get_user_mean_amount]. *)
Definition get_user_mean_amount (w : EventWindow) : float :=
  if 0 <? amount_count w then (total_amount w / float_of_Z (amount_count w))%float
  else 0%float.

(** The [while self.events] loop of [EventWindow.cleanup_old]. *)
Fixpoint cleanup_loop (cut : Z) (evs : list event) (total : float) (count : Z)
  : EventWindow * result unit :=
  match evs with
  | [] => (mk_window [] total count, Ok tt)
  | first_event :: rest =>
      match event_time first_event with
      | Raise x => (mk_window evs total count, Raise x)
      | Ok event_ts =>
          if at_or_after event_ts cut then (mk_window evs total count, Ok tt)
          else
            (* removed = self.events.popleft() *)
            match first_event !! "amount"%string with
            | None => cleanup_loop cut rest total count
            | Some s =>
                match to_float s with
                | Raise x => (mk_window rest total count, Raise x)
                | Ok a => cleanup_loop cut rest (total - a)%float (count - 1)
                end
            end
      end
  end.

(** [EventWindow.cleanup_old]. *)
Definition cleanup_old (cutoff_seconds : Z) (now : datetime) (w : EventWindow)
  : EventWindow * result unit :=
  cleanup_loop (cutoff now cutoff_seconds) (events w) (total_amount w) (amount_count w).

(** [[float(e.get('amount', 0)) for e in evs]]. *)
Definition amount_or_zero (e : event) : result float :=
  match e !! "amount"%string with
  | None => Ok 0%float
  | Some s => to_float s
  end.

Fixpoint amounts (evs : list event) : result (list float) :=
  match evs with
  | [] => Ok []
  | e :: rest =>
      bind (amount_or_zero e) (fun a =>
      bind (amounts rest) (fun l => Ok (a :: l)))
  end.

(** The amount z-score of [compute_features], from the user mean and the
    current amount. *)
Definition zscore (user_mean current_amount : float) : float :=
  if gt user_mean 0 then
    (if gt user_mean 0 then ((current_amount - user_mean) / user_mean)%float
     else 0%float)
  else 0%float.

(** [Featurizer.compute_features]. *)
Definition compute_features (ev : event) (user_window : EventWindow) (now : datetime)
  : result (gmap string pyval) :=
  bind (get_recent 300 now user_window) (fun events_5m =>
  bind (get_recent 3600 now user_window) (fun events_1h =>
  bind (get_recent 86400 now user_window) (fun events_24h =>
  let txns_5m := Z.of_nat (length events_5m) in
  let txns_1h := Z.of_nat (length events_1h) in
  let txns_24h := Z.of_nat (length events_24h) in
  bind (amounts events_1h) (fun amounts_1h =>
  bind (amounts events_24h) (fun amounts_24h =>
  let avg_amount_1h :=
    match amounts_1h with
    | [] => 0%float
    | _ => (py_sum amounts_1h / float_of_Z (Z.of_nat (length amounts_1h)))%float
    end in
  let max_amount_24h := py_max 0%float amounts_24h in
  let unique_devices_24h := count_unique (get_str "device_id" <$> events_24h) in
  let unique_ips_24h := count_unique (get_str "ip" <$> events_24h) in
  let user_mean := get_user_mean_amount user_window in
  bind (amount_or_zero ev) (fun current_amount =>
  let amount_zscore := zscore user_mean current_amount in
  let current_merchant := get_str "merchant_id" ev in
  let merchant_velocity_1h :=
    Z.of_nat (length (filter (fun e => e !! "merchant_id"%string = Some current_merchant)
                             events_1h)) in
  let device_churn_24h := changes (get_str "device_id" <$> events_24h) in
  let ip_changes_24h := changes (get_str "ip" <$> events_24h) in
  Ok (list_to_map
    [ ("txns_last_5m"%string, PInt txns_5m);
      ("txns_last_1h"%string, PInt txns_1h);
      ("txns_last_24h"%string, PInt txns_24h);
      ("avg_amount_1h"%string, PFloat avg_amount_1h);
      ("max_amount_24h"%string, PFloat max_amount_24h);
      ("unique_devices_24h"%string, PInt unique_devices_24h);
      ("unique_ips_24h"%string, PInt unique_ips_24h);
      ("amount_zscore"%string, PFloat amount_zscore);
      ("merchant_velocity_1h"%string, PInt merchant_velocity_1h);
      ("device_churn_24h"%string, PInt device_churn_24h);
      ("ip_changes_24h"%string, PInt ip_changes_24h) ]))))))).

(** The feature store as the featurizer writes it: one hash per key and
    a time to live in seconds.  A stored value [v] stands for the string
    [str(v)] that is sent to the store; the rendering is not unfolded. *)
Record Redis : Type := mk_redis {
  hashes : gmap string (gmap string pyval);
  ttl : gmap string Z
}.

(** [class Featurizer] together with the store behind [self.redis]. *)
Record state : Type := mk_state {
  user_windows : gmap string EventWindow;
  store : Redis
}.

Definition init : state := mk_state ∅ (mk_redis ∅ ∅).

(** What the outside world answers during one call of [process_event]. *)
Record penv : Type := mk_penv {
  now : datetime;          (* datetime.utcnow() *)
  redis_ok : bool          (* pipe.execute() succeeds *)
}.

(** The dict comprehension that decodes every key and every value: the
    fields as they are when all of them decode. *)
Definition decode_event (event_data : gmap string string) : result event :=
  if forallb (fun kv => is_ok (decode kv.1) && is_ok (decode kv.2))
             (map_to_list event_data)
  then Ok event_data
  else Raise UnicodeDecodeError.

Definition feature_order : list string :=
  [ "V1"; "V2"; "V3"; "V4"; "V5"; "V6"; "V7"; "V8"; "V9"; "V10";
    "V11"; "V12"; "V13"; "V14"; "V15"; "V16"; "V17"; "V18"; "V19"; "V20";
    "V21"; "V22"; "V23"; "V24"; "V25"; "V26"; "V27"; "V28";
    "Amount_normalized" ]%string.

(** The loop over [V1..V28] and the test on [Amount_normalized]: the
    fields that are present, converted by [float]. *)
Fixpoint original_features (keys : list string) (ev : event)
  : result (gmap string pyval) :=
  match keys with
  | [] => Ok ∅
  | k :: rest =>
      match ev !! k with
      | None => original_features rest ev
      | Some s =>
          bind (to_float s) (fun f =>
          bind (original_features rest ev) (fun m => Ok (<[k := PFloat f]> m)))
      end
  end.

Definition redis_key (user_id : string) : string := ("features:user:" ++ user_id)%string.

(** The pipeline: one [hset] per feature, then [expire]. *)
Definition write_features (key : string) (all_features : gmap string pyval) (r : Redis)
  : Redis :=
  mk_redis (<[key := all_features ∪ default ∅ (hashes r !! key)]> (hashes r))
           (<[key := 172800]> (ttl r)).

Definition set_window (user_id : string) (w : EventWindow) (s : state) : state :=
  mk_state (<[user_id := w]> (user_windows s)) (store s).

(** [Featurizer.process_event]: the state after the call and what the
    call returns or raises. *)
Definition process_event (env : penv) (event_data : gmap string string) (s : state)
  : state * result unit :=
  match decode_event event_data with
  | Raise x => (s, Raise x)
  | Ok ev =>
      match ev !! "user_id"%string with
      | None => (s, Ok tt)
      | Some user_id =>
          if decide (user_id = EmptyString) then (s, Ok tt)
          else
            let s :=
              match user_windows s !! user_id with
              | None => set_window user_id new_window s
              | Some _ => s
              end in
            let user_window := default new_window (user_windows s !! user_id) in
            match event_time ev with
            | Raise x => (s, Raise x)
            | Ok event_ts =>
                let '(user_window, r) := add_event ev user_window in
                let s := set_window user_id user_window s in
                match r with
                | Raise x => (s, Raise x)
                | Ok _ =>
                    let '(user_window, r) := cleanup_old 172800 (now env) user_window in
                    let s := set_window user_id user_window s in
                    match r with
                    | Raise x => (s, Raise x)
                    | Ok _ =>
                        match
                          bind (compute_features ev user_window (now env))
                            (fun behavioral_features =>
                          bind (original_features feature_order ev)
                            (fun original_features =>
                          Ok (<["last_feature_update_ts"%string :=
                                  PStr (isoformat (now env) ++ "Z")]>
                              (<["last_event_ts"%string := PStr (get_str "ts" ev)]>
                               (behavioral_features ∪ original_features)))))
                        with
                        | Raise x => (s, Raise x)
                        | Ok all_features =>
                            if redis_ok env then
                              (mk_state (user_windows s)
                                 (write_features (redis_key user_id) all_features (store s)),
                               Ok tt)
                            else (s, Raise RedisError)
                        end
                    end
                end
            end
      end
  end.

(** *** The consumer loop *)


Definition id_lt (a b : stream_id) : bool :=
  ((a.1 <? b.1) || ((a.1 =? b.1) && (a.2 <? b.2)))%N.

(** [xread({stream: last_id}, count=count)]: the first [count] records
    whose identifier is greater than [last_id]. *)
Definition xread (log : list message) (last_id : stream_id) (count : nat)
  : list message :=
  take count (filter (fun m => id_lt last_id m.1 = true) log).

(** The [for msg_id, event_data in stream_messages] loop; [env_at i] is
    what the world answers while the [i]-th record of the batch is
    processed. *)
Fixpoint process_messages (env_at : nat -> penv) (i : nat) (msgs : list message)
  (last_id : stream_id) (s : state) : stream_id * state :=
  match msgs with
  | [] => (last_id, s)
  | (msg_id, event_data) :: rest =>
      let '(s, r) := process_event (env_at i) event_data s in
      match r with
      | Raise _ =>
          (* print(...); continue *)
          process_messages env_at (S i) rest last_id s
      | Ok _ =>
          (* last_id = msg_id *)
          process_messages env_at (S i) rest msg_id s
      end
  end.

(** What the world looks like during one turn of the [while] loop. *)
Record tick : Type := mk_tick {
  xread_ok : bool;              (* the read itself succeeds *)
  log : list message;           (* the records the log holds *)
  env_at : nat -> penv
}.

(** One turn of [while self.running]. *)
Definition consume_once (t : tick) (last_id : stream_id) (s : state)
  : stream_id * state :=
  if xread_ok t then
    match xread (log t) last_id 10 with
    | [] => (last_id, s)
    | stream_messages => process_messages (env_at t) 0 stream_messages last_id s
    end
  else (last_id, s).

(** [Featurizer.consume_events], for as many turns as [ticks] describes. *)
Fixpoint consume_events (ticks : list tick) (last_id : stream_id) (s : state)
  : stream_id * state :=
  match ticks with
  | [] => (last_id, s)
  | t :: rest =>
      let '(last_id, s) := consume_once t last_id s in
      consume_events rest last_id s
  end.

End WithRuntime.

End Featurizer.

(** ** [services/infer/reasons.py] *)
Module Reasons.

Definition priority_order : list string :=
  [ "high_velocity_5m"; "unusual_amount"; "high_device_churn";
    "frequent_ip_changes"; "high_merchant_velocity"; "high_velocity_1h" ]%string.

(** [l.index(r) if r in l else len(l)]. *)
Fixpoint index_or_len (r : string) (l : list string) : nat :=
  match l with
  | [] => O
  | x :: rest => if decide (x = r) then O else S (index_or_len r rest)
  end.

(** The sort key of [generate_reasons]. *)
Definition priority (r : string) : nat := index_or_len r priority_order.

(** [sorted(l, key=key)]: the stable sort, by insertion. *)
Fixpoint insert_by {A} (key : A -> nat) (x : A) (l : list A) : list A :=
  match l with
  | [] => [x]
  | y :: rest =>
      if (key y <=? key x)%nat then y :: insert_by key x rest
      else x :: y :: rest
  end.

Definition sorted_by {A} (key : A -> nat) (l : list A) : list A :=
  fold_left (fun acc x => insert_by key x acc) l [].

(** [reasons.append(code)] under a condition. *)
Definition append_if (c : bool) (code : string) (reasons : list string) : list string :=
  if c then reasons ++ [code] else reasons.

Section WithRuntime.
Context {rt : Runtime}.

(** The local helper [get_float], with its default [0.0]. *)
Definition get_float (user_features : gmap string pyval) (key : string) : float :=
  match user_features !! key with
  | None => 0%float
  | Some v =>
      match py_float v with
      | Ok f => f
      | Raise _ => 0%float
      end
  end.

(** [generate_reasons]. *)
Definition generate_reasons (user_features : gmap string pyval) (risk_score : float)
  : list string :=
  let reasons := [] in
  let txns_5m := get_float user_features "txns_last_5m" in
  let reasons := append_if (gt txns_5m 5) "high_velocity_5m" reasons in
  let txns_1h := get_float user_features "txns_last_1h" in
  let reasons := append_if (gt txns_1h 20) "high_velocity_1h" reasons in
  let avg_amount_1h := get_float user_features "avg_amount_1h" in
  let amount_zscore := get_float user_features "amount_zscore" in
  let reasons :=
    append_if (gt avg_amount_1h 0 && gt amount_zscore 3) "unusual_amount" reasons in
  let device_churn := get_float user_features "device_churn_24h" in
  let reasons := append_if (gt device_churn 2) "high_device_churn" reasons in
  let ip_changes := get_float user_features "ip_changes_24h" in
  let reasons := append_if (gt ip_changes 3) "frequent_ip_changes" reasons in
  let merchant_velocity := get_float user_features "merchant_velocity_1h" in
  let reasons := append_if (gt merchant_velocity 5) "high_merchant_velocity" reasons in
  let sorted_reasons := sorted_by priority reasons in
  match sorted_reasons with
  | [] => ["no_significant_indicators"%string]
  | _ => take 3 sorted_reasons
  end.

End WithRuntime.

End Reasons.

(** ** [services/infer/feature_vector.py] *)
Module FeatureVector.

(** A [torch.Tensor] of dtype float32: its shape and its entries in row
    order. *)
Record tensor : Type := mk_tensor {
  shape : list nat;
  data : list float
}.

Definition feature_order : list string :=
  [ "V1"; "V2"; "V3"; "V4"; "V5"; "V6"; "V7"; "V8"; "V9"; "V10";
    "V11"; "V12"; "V13"; "V14"; "V15"; "V16"; "V17"; "V18"; "V19"; "V20";
    "V21"; "V22"; "V23"; "V24"; "V25"; "V26"; "V27"; "V28";
    "Amount_normalized" ]%string.

Section WithRuntime.
Context {rt : Runtime}.

(** The body of the loop: [float(user_features.get(name, 0.0))], or
    [0.0] when the conversion raises. *)
Definition entry (user_features : gmap string pyval) (feature_name : string) : float :=
  match user_features !! feature_name with
  | None => 0%float
  | Some value =>
      match py_float value with
      | Ok f => f
      | Raise _ => 0%float
      end
  end.

(** [build_feature_vector]: [torch.tensor([vector], dtype=torch.float32)]. *)
Definition build_feature_vector (user_features : gmap string pyval) : tensor :=
  let vector := map (entry user_features) feature_order in
  mk_tensor [1%nat; length vector] (map to_float32 vector).

End WithRuntime.

End FeatureVector.

(** ** [services/infer/app.py] *)
Module Infer.

Import FeatureVector.

(** The module globals read by [predict]. *)
Record config : Type := mk_config {
  threshold_allow : float;
  threshold_block : float
}.

Definition default_config : config := mk_config 0.3%float 0.7%float.

(** [class PredictionResponse]. *)
Record PredictionResponse : Type := mk_response {
  user_id : string;
  risk_score : float;
  decision : string;
  reasons : list string
}.

(** What the handler answers: the response model with status 200, or
    [HTTPException(status_code=500, detail=str(e))]. *)
Inductive http : Type :=
| Http200 (body : PredictionResponse)
| Http500 (detail : exn).

Definition status_code (r : http) : Z :=
  match r with Http200 _ => 200 | Http500 _ => 500 end.

(** What the handler talks to: the feature store (read with
    [decode_responses=True], so every field is a [str]), whether the
    read succeeds, and the loaded model, [model(t).item()]. *)
Record env : Type := mk_env {
  hashes : gmap string (gmap string string);
  redis_up : bool;
  model : tensor -> result float
}.

(** [redis_client.hgetall(key)]: the empty dict for a missing key. *)
Definition hgetall (e : env) (key : string) : result (gmap string string) :=
  if redis_up e then Ok (default ∅ (hashes e !! key)) else Raise RedisError.

Definition redis_key (uid : string) : string := ("features:user:" ++ uid)%string.

(** [get_default_features]. *)
Definition get_default_features : gmap string pyval :=
  list_to_map ((fun k => (k, PFloat 0%float)) <$> feature_order).

(** The decision logic of [predict]. *)
Definition decide_risk (cfg : config) (score : float) : string :=
  if PrimFloat.ltb score (threshold_allow cfg) then "allow"%string
  else if PrimFloat.ltb score (threshold_block cfg) then "step_up"%string
  else "block"%string.

Section WithRuntime.
Context {rt : Runtime}.

(** The body of [predict] inside the [try], before the response is built. *)
Definition predict_body (cfg : config) (e : env) (uid : string)
  : result PredictionResponse :=
  bind (hgetall e (redis_key uid)) (fun fetched =>
  let '(features, reasons) :=
    if decide (fetched = ∅) then (get_default_features, ["missing_features"%string])
    else (PStr <$> fetched, []) in
  let feature_vector := build_feature_vector features in
  bind (model e feature_vector) (fun score =>
  let decision := decide_risk cfg score in
  let reasons :=
    match reasons with
    | [] => Reasons.generate_reasons features score
    | _ => reasons
    end in
  Ok (mk_response uid (py_round score 4) decision reasons))).

(** [predict]. *)
Definition predict (cfg : config) (e : env) (uid : string) : http :=
  match predict_body cfg e uid with
  | Ok body => Http200 body
  | Raise x => Http500 x
  end.

(** What [get_features] answers: the features found, or
    [HTTPException(status_code=404, ...)] re-raised as it is, or
    [HTTPException(status_code=500, detail=str(e))]. *)
Inductive features_http : Type :=
| Features200 (user_id : string) (features : gmap string pyval)
| Features404 (detail : string)
| Features500 (detail : exn).

(** The body of the conversion loop: [float(value)], and the string
    itself when [float] raises [ValueError]. *)
Definition convert (value : string) : pyval :=
  match py_float (PStr value) with
  | Ok f => PFloat f
  | Raise _ => PStr value
  end.

(** [get_features], the handler of [GET /features/{user_id}]. *)
Definition get_features (e : env) (uid : string) : features_http :=
  match hgetall e (redis_key uid) with
  | Raise x => Features500 x
  | Ok features =>
      if decide (features = ∅) then
        Features404 ("No features found for user " ++ uid)%string
      else Features200 uid (convert <$> features)
  end.

End WithRuntime.

End Infer.

(** ** A concrete runtime

    One instance of [Runtime], used to run the embedding on concrete
    inputs.  It reads the strings the ingest service produces: plain
    decimal numbers ([-]digits[.digits], converted with correct rounding)
    and timestamps [YYYY-MM-DDTHH:MM:SS] with an optional [+HH:MM] or
    [-HH:MM] offset; on every other string it answers [None].  [sum] is
    the left-to-right float sum. *)
Module Reference.

Definition digit (c : ascii) : option Z :=
  let n := N_of_ascii c in
  if ((48 <=? n) && (n <=? 57))%N then Some (Z.of_N n - 48) else None.

(** The number written by a list of digits, after the digits in [acc]. *)
Fixpoint number (acc : Z) (l : list ascii) : option Z :=
  match l with
  | [] => Some acc
  | c :: rest =>
      match digit c with
      | Some d => number (acc * 10 + d) rest
      | None => None
      end
  end.

Definition digits (l : list ascii) : option Z :=
  match l with [] => None | _ => number 0 l end.

(** The binary64 nearest to [n / 10^k], with the sign [neg]. *)
Definition decimal (neg : bool) (n : Z) (k : nat) : float :=
  match n with
  | Z.pos m =>
      SF2Prim (SFdiv prec emax (S754_finite neg m 0)
                               (S754_finite false (Z.to_pos (10 ^ Z.of_nat k)) 0))
  | _ => if neg then (-0)%float else 0%float
  end.

Fixpoint split_dot (l : list ascii) : list ascii * option (list ascii) :=
  match l with
  | [] => ([], None)
  | c :: rest =>
      if Ascii.eqb c "." then ([], Some rest)
      else let '(a, b) := split_dot rest in (c :: a, b)
  end.

Definition unsigned_decimal (neg : bool) (l : list ascii) : option float :=
  match split_dot l with
  | (ip, None) =>
      match digits ip with
      | Some n => Some (decimal neg n 0)
      | None => None
      end
  | (ip, Some fp) =>
      match digits ip, digits fp, digits (ip ++ fp) with
      | Some _, Some _, Some n => Some (decimal neg n (length fp))
      | _, _, _ => None
      end
  end.

Definition float_of_decimal (s : string) : option float :=
  match list_ascii_of_string s with
  | c :: rest =>
      if Ascii.eqb c "-" then unsigned_decimal true rest
      else unsigned_decimal false (c :: rest)
  | [] => None
  end.

Definition leap (y : Z) : bool :=
  ((y mod 4 =? 0) && negb (y mod 100 =? 0)) || (y mod 400 =? 0).

Definition days_in_month (y m : Z) : Z :=
  if m =? 2 then (if leap y then 29 else 28)
  else if (m =? 4) || (m =? 6) || (m =? 9) || (m =? 11) then 30
  else 31.

Definition offset (l : list ascii) : option (option Z) :=
  match l with
  | [] => Some None
  | [sg; h1; h2; c; m1; m2] =>
      match digits [h1; h2], digits [m1; m2] with
      | Some h, Some m =>
          if Ascii.eqb c ":" && (h <? 24) && (m <? 60) then
            if Ascii.eqb sg "+" then Some (Some (h * 3600 + m * 60))
            else if Ascii.eqb sg "-" then Some (Some (- (h * 3600 + m * 60)))
            else None
          else None
      | _, _ => None
      end
  | _ => None
  end.

Definition iso_datetime (s : string) : option datetime :=
  match list_ascii_of_string s with
  | y1 :: y2 :: y3 :: y4 :: c1 :: m1 :: m2 :: c2 :: d1 :: d2 :: t
       :: h1 :: h2 :: c3 :: i1 :: i2 :: c4 :: s1 :: s2 :: rest =>
      match digits [y1; y2; y3; y4], digits [m1; m2], digits [d1; d2],
            digits [h1; h2], digits [i1; i2], digits [s1; s2], offset rest with
      | Some y, Some m, Some d, Some h, Some i, Some sec, Some tz =>
          if Ascii.eqb c1 "-" && Ascii.eqb c2 "-" && Ascii.eqb t "T"
             && Ascii.eqb c3 ":" && Ascii.eqb c4 ":"
             && (1 <=? y) && (1 <=? m) && (m <=? 12)
             && (1 <=? d) && (d <=? days_in_month y m)
             && (h <? 24) && (i <? 60) && (sec <? 60)
          then Some (mk_datetime y m d h i sec 0 tz)
          else None
      | _, _, _, _, _, _, _ => None
      end
  | _ => None
  end.

Definition runtime : Runtime := {|
  float_of_str := float_of_decimal;
  fromisoformat := iso_datetime;
  py_sum := fun l => fold_left PrimFloat.add l 0%float
|}.

End Reference.

(** ** The specification's own wording, where a claim compares it with the code *)
Module Spec.

Section WithRuntime.
Context {rt : Runtime}.

(** The value of a feature of the snapshot: the number it holds, 0.0
    when the field is missing or does not hold a number. *)
Definition feature (m : gmap string pyval) (name : string) : float :=
  match m !! name with
  | Some (PStr s) => default 0%float (float_of_str s)
  | Some (PFloat f) => f
  | Some (PInt z) => float_of_Z z
  | None => 0%float
  end.

(** The table of reason-code rules, in the order of the table. *)
Definition predicates (m : gmap string pyval) : list (string * bool) :=
  let v := feature m in
  [ ("high_velocity_5m"%string, gt (v "txns_last_5m"%string) 5);
    ("high_velocity_1h"%string, gt (v "txns_last_1h"%string) 20);
    ("unusual_amount"%string,
       gt (v "avg_amount_1h"%string) 0 && gt (v "amount_zscore"%string) 3);
    ("high_device_churn"%string, gt (v "device_churn_24h"%string) 2);
    ("frequent_ip_changes"%string, gt (v "ip_changes_24h"%string) 3);
    ("high_merchant_velocity"%string, gt (v "merchant_velocity_1h"%string) 5) ].

(** The codes whose predicate holds. *)
Definition matching (m : gmap string pyval) : list string :=
  fst <$> List.filter snd (predicates m).

(** The matching codes in priority order, the first three of them; the
    single fallback code when none matches. *)
Definition reasons (m : gmap string pyval) : list string :=
  match List.filter (fun c => bool_decide (c ∈ matching m)) Reasons.priority_order with
  | [] => ["no_significant_indicators"%string]
  | l => take 3 l
  end.

End WithRuntime.

(** *** Histories of calls on one [EventWindow] *)
Inductive window_call : Type :=
| AddEvent (e : Featurizer.event)
| CleanupOld (cutoff_seconds : Z) (now : datetime).

Section WindowHistories.
Context {rt : Runtime}.

Import Featurizer.

Definition window_step (c : window_call) (w : EventWindow) : EventWindow * result unit :=
  match c with
  | AddEvent e => add_event e w
  | CleanupOld secs now => cleanup_old secs now w
  end.

(** The calls are made in order; the history stops at the first call
    that raises. *)
Fixpoint window_run (cs : list window_call) (w : EventWindow)
  : EventWindow * result unit :=
  match cs with
  | [] => (w, Ok tt)
  | c :: rest =>
      match window_step c w with
      | (w', Ok _) => window_run rest w'
      | (w', Raise x) => (w', Raise x)
      end
  end.

(** The number of events that carry an [amount] field. *)
Definition carries_amount (e : event) : bool := bool_decide (is_Some (e !! "amount"%string)).
Definition count_amounts (evs : list event) : Z :=
  Z.of_nat (length (List.filter carries_amount evs)).

(** The exact value of a finite binary64, in units of 2^-1074. *)
Definition exact_value (x : float) : Z :=
  match Prim2SF x with
  | S754_finite s m e => cond_Zopp s (Z.pos m * 2 ^ (e + 1074))
  | _ => 0
  end.

Definition finite (x : float) : bool :=
  match Prim2SF x with
  | S754_zero _ | S754_finite _ _ _ => true
  | _ => false
  end.

(** The exact sum of the amounts of the events that carry one. *)
Fixpoint sum_amounts (evs : list event) : Z :=
  match evs with
  | [] => 0
  | e :: rest =>
      match e !! "amount"%string with
      | Some s =>
          match float_of_str s with
          | Some a => exact_value a + sum_amounts rest
          | None => sum_amounts rest
          end
      | None => sum_amounts rest
      end
  end.

(** A float addition, or subtraction, that did not round. *)
Definition exact_add (x y : float) : bool :=
  finite x && finite y && finite (x + y)%float
  && (exact_value (x + y)%float =? exact_value x + exact_value y).
Definition exact_sub (x y : float) : bool :=
  finite x && finite y && finite (x - y)%float
  && (exact_value (x - y)%float =? exact_value x - exact_value y).

(** No addition or subtraction of a history rounded: the same walk as
    [add_event] and [cleanup_loop], looking at each operation on
    [total_amount]. *)
Definition add_event_exact (e : event) (w : EventWindow) : bool :=
  match e !! "amount"%string with
  | Some s =>
      match float_of_str s with
      | Some a => exact_add (total_amount w) a
      | None => true
      end
  | None => true
  end.

Fixpoint cleanup_loop_exact (cut : Z) (evs : list event) (total : float) : bool :=
  match evs with
  | [] => true
  | first_event :: rest =>
      match event_time first_event with
      | Raise _ => true
      | Ok event_ts =>
          if at_or_after event_ts cut then true
          else
            match first_event !! "amount"%string with
            | None => cleanup_loop_exact cut rest total
            | Some s =>
                match float_of_str s with
                | None => true
                | Some a => exact_sub total a && cleanup_loop_exact cut rest (total - a)%float
                end
            end
      end
  end.

Definition window_step_exact (c : window_call) (w : EventWindow) : bool :=
  match c with
  | AddEvent e => add_event_exact e w
  | CleanupOld secs now => cleanup_loop_exact (cutoff now secs) (events w) (total_amount w)
  end.

Fixpoint window_run_exact (cs : list window_call) (w : EventWindow) : bool :=
  match cs with
  | [] => true
  | c :: rest => window_step_exact c w && window_run_exact rest (fst (window_step c w))
  end.

(** The parsed time of an event, in microseconds. *)
Definition event_micros (e : event) : option Z :=
  match event_time e with
  | Ok d => Some (to_micros d)
  | Raise _ => None
  end.

(** Every timestamp parses and none is earlier than one before it. *)
Fixpoint chronological (evs : list event) : bool :=
  match evs with
  | [] => true
  | e :: rest =>
      match event_micros e with
      | None => false
      | Some t =>
          forallb (fun e' => match event_micros e' with
                             | Some t' => t <=? t'
                             | None => false
                             end) rest
          && chronological rest
      end
  end.

(** The two facts the specification states about a window. *)
Definition counted (w : EventWindow) : Prop :=
  amount_count w = count_amounts (events w).
Definition summed (w : EventWindow) : Prop :=
  finite (total_amount w) = true
  /\ exact_value (total_amount w) = sum_amounts (events w).

End WindowHistories.

(** *** Histories of calls on one [ParquetWriter] *)
Section WriterHistories.
Context {rt : Runtime}.

Import S3Writer.

(** The [ts] of the event is a string that [fromisoformat] reads. *)
Definition parseable (e : event) : bool := is_ok (first_event_ts e).

(** A call that cannot fail before the [try] of [flush]: the events
    added have a readable [ts], the partition directory can be made. *)
Definition safe_call (c : call) : bool :=
  match c with
  | AddEvent e => parseable e
  | Flush env => mkdir_ok env
  end.

Definition safe_action (a : action) : bool :=
  match a with
  | Enqueue e => parseable e
  | Snapshot => true
  | Complete _ env => mkdir_ok env
  end.

(** Every file of the store has the path the writer gives to one of the
    names [seen]. *)
Definition named_by (seen : list string) (base : string) (d : list blob) : Prop :=
  Forall (fun b => exists t u, u ∈ seen /\ blob_path b = file_path base t u) d.

(** File names as [uuid.uuid4().hex[:8]] gives them when no draw
    repeats an earlier one: eight characters each, no two alike. *)
Definition distinct_names (l : list string) : Prop :=
  NoDup l /\ Forall (fun u => String.length u = 8%nat) l.

End WriterHistories.

End Spec.

(** ** Invariants and conditions the properties below are stated with *)
Module Invariants.

(** How severe a decision is: allow, then step_up, then block. *)
Definition severity (decision : string) : Z :=
  if decide (decision = "allow"%string) then 0
  else if decide (decision = "step_up"%string) then 1
  else 2.

(** The codes [generate_reasons] can return. *)
Definition reason_codes : list string :=
  Reasons.priority_order ++ ["no_significant_indicators"%string].

Section Service.
Context {rt : Runtime}.

(** A step of the ingest service after which no flush fails before its
    [try]: the event that arrives has a [ts] that [fromisoformat] reads,
    the partition directory can be made. *)
Definition safe_step (st : Ingest.step) : bool :=
  match st with
  | Ingest.Arrives event => is_ok (parse_iso (Ingest.ts event))
  | Ingest.Xadd _ _ _ | Ingest.Resumes _ => true
  | Ingest.FlushTask env | Ingest.FlusherTurn env => S3Writer.mkdir_ok env
  end.

(** What the event log and the answers may hold in a history whose
    arrived events are [events]: a record is the stringified dump of one
    of them; an answer is about one of them, ok with its [event_id] or
    500. *)
Definition record_of (float_repr : float -> string) (events : list Ingest.TransactionEvent)
    (record : gmap string string) : Prop :=
  exists e, e ∈ events /\ record = Ingest.py_str float_repr <$> Ingest.model_dump e.

(** The handlers that wait and the records of the log are about events
    that arrived. *)
Definition tracks (float_repr : float -> string) (events : list Ingest.TransactionEvent)
    (sv : Ingest.service) : Prop :=
  Forall (fun e => e ∈ events) (Ingest.sent sv)
  /\ Forall (fun r : bool * Ingest.TransactionEvent => r.2 ∈ events) (Ingest.replied sv)
  /\ Forall (record_of float_repr events) (Ingest.stream sv).

Definition answer_of (events : list Ingest.TransactionEvent)
    (a : Ingest.TransactionEvent * Ingest.answer) : Prop :=
  a.1 ∈ events
  /\ (a.2 = Ingest.Accepted (Ingest.event_id a.1) \/ a.2 = Ingest.Http500 RedisError).

End Service.

Section WithRuntime.
Context {rt : Runtime}.
Import Featurizer.

(** The [ts] of the event is there and [fromisoformat] reads it. *)
Definition ts_parses (e : event) : bool := is_ok (event_time e).

(** The event is stamped at or after the cutoff. *)
Definition within (cut : Z) (e : event) : bool :=
  match event_time e with
  | Ok t => at_or_after t cut
  | Raise _ => false
  end.

(** The event carries an [amount] that [float] reads. *)
Definition amount_parses (e : event) : bool :=
  match e !! "amount"%string with
  | Some s => is_ok (to_float s)
  | None => false
  end.

(** [float] reads the field [k] of the event, if the event has it. *)
Definition field_ok (e : event) (k : string) : bool :=
  match e !! k with
  | Some s => is_ok (to_float s)
  | None => true
  end.

(** A window as [process_event] keeps it for the user [uid]: every
    retained event is one of that user with a readable [ts], and
    [amount_count] is the number of retained events whose amount [float]
    reads. *)
Definition window_ok (uid : string) (w : EventWindow) : Prop :=
  Forall (fun e => ts_parses e = true /\ e !! "user_id"%string = Some uid) (events w)
  /\ amount_count w = Z.of_nat (length (List.filter amount_parses (events w))).

Definition state_ok (s : state) : Prop :=
  forall uid w, user_windows s !! uid = Some w -> window_ok uid w.

(** A record on which no step of [process_event] can fail: its fields
    decode, its [ts] is readable, and [float] reads its amount and its
    model features where it has them. *)
Definition well_formed (ev : event) : bool :=
  is_ok (decode_event ev) && ts_parses ev && field_ok ev "amount"
  && forallb (field_ok ev) feature_order.

(** The window of the user before a call, a new one if there is none. *)
Definition window_before (s : state) (uid : string) : EventWindow :=
  default new_window (user_windows s !! uid).

(** The identifiers grow strictly along the log, from above [last_id]. *)
Fixpoint increasing (last_id : stream_id) (log : list message) : bool :=
  match log with
  | [] => true
  | m :: rest => id_lt last_id m.1 && increasing m.1 rest
  end.

(** The names of the behavioural features. *)
Definition behavioural : list string :=
  [ "txns_last_5m"; "txns_last_1h"; "txns_last_24h"; "avg_amount_1h";
    "max_amount_24h"; "unique_devices_24h"; "unique_ips_24h"; "amount_zscore";
    "merchant_velocity_1h"; "device_churn_24h"; "ip_changes_24h" ]%string.

(** Every retained event has a readable [ts] and amount. *)
Definition clean (s : state) : Prop :=
  forall uid w, user_windows s !! uid = Some w ->
    Forall (fun e => ts_parses e = true /\ field_ok e "amount" = true) (events w).

End WithRuntime.
End Invariants.

(** ** Concrete inputs, run with the runtime [Reference.runtime] *)
Module Examples.

(** A feature store with no key at all, a reachable store, and a model
    that answers the same score on every vector. *)
Definition constant_model (score : float) : Infer.env :=
  Infer.mk_env ∅ true (fun _ => Ok score).

(** A record of the event log as the ingest handler publishes it: every
    field of the validated event, stringified. *)
Definition ingest_record (event_id ts user_id amount : string) : gmap string string :=
  list_to_map
    ([ ("event_id", event_id); ("ts", ts); ("user_id", user_id); ("amount", amount);
       ("currency", "USD"); ("country", "US"); ("device_id", "d1");
       ("ip", "1.1.1.1"); ("merchant_id", "m1") ]%string
     ++ ((fun k => (k, "0.0"%string)) <$> Featurizer.feature_order)).

(** The same event as the ingest handler buffers it for the writer:
    [event.model_dump()]. *)
Definition ingest_event (event_id ts user_id : string) (amount : float)
  : gmap string pyval :=
  list_to_map
    ([ ("event_id", PStr event_id); ("ts", PStr ts); ("user_id", PStr user_id);
       ("amount", PFloat amount); ("currency", PStr "USD"); ("country", PStr "US");
       ("device_id", PStr "d1"); ("ip", PStr "1.1.1.1");
       ("merchant_id", PStr "m1") ]%string
     ++ ((fun k => (k, PFloat 0%float)) <$> Featurizer.feature_order)).

(** 2025-01-15 10:00:00, the clock of the examples, and a reading of
    the clock five days earlier. *)
Definition now0 : datetime := mk_datetime 2025 1 15 10 0 0 0 None.
Definition then0 : datetime := mk_datetime 2025 1 10 11 0 1 0 None.

(** The store answers; the clock reads [now0]. *)
Definition env0 : Featurizer.penv := Featurizer.mk_penv now0 true.

(** A record whose [ts] is a string but not a timestamp: the schema of
    the ingest service ([TransactionEvent], [ts: str]) accepts it. *)
Definition bad_ts_record : gmap string string :=
  ingest_record "e1" "not-a-timestamp" "u1" "10.0".

(** A log that holds this record alone, and a turn of the consumer loop
    that reads it. *)
Definition poisoned_log : list (N * N * gmap string string) :=
  [ ((1%N, 0%N), bad_ts_record) ].
Definition poisoned_tick : Featurizer.tick :=
  Featurizer.mk_tick true poisoned_log (fun _ => env0).

(** A record without [user_id], and one whose [user_id] is empty. *)
Definition anonymous_record : gmap string string :=
  list_to_map [ ("event_id", "e2"); ("ts", "2025-01-15T09:59:00Z");
                ("amount", "10.0") ]%string.
Definition empty_user_record : gmap string string :=
  ingest_record "e3" "2025-01-15T09:59:00Z" EmptyString "10.0".

(** Events one hour, and one hundred and nineteen hours, before [now0]. *)
Definition fresh_record : gmap string string :=
  ingest_record "e4" "2025-01-15T09:00:00Z" "u1" "0.2".
Definition stale_record : gmap string string :=
  ingest_record "e5" "2025-01-10T11:00:00Z" "u1" "0.1".

(** The writer's view of a well-formed event and of one with a bad [ts];
    an environment in which everything succeeds. *)
Definition good_event : gmap string pyval :=
  ingest_event "e6" "2025-01-15T09:59:00Z" "u1" 50.
Definition bad_ts_event : gmap string pyval :=
  ingest_event "e1" "not-a-timestamp" "u1" 10.
Definition io_ok : S3Writer.io := S3Writer.mk_io true true "0a1b2c3d".

(** The window that holds [fresh_record] alone. *)
Definition fresh_window : Featurizer.EventWindow :=
  Featurizer.mk_window [fresh_record] 0.2%float 1.

(** Insertions, each followed by the eviction pass of [process_event],
    of a fresh event and then of a late, stale one. *)
Definition late_arrival : list Spec.window_call :=
  [ Spec.AddEvent fresh_record; Spec.CleanupOld 172800 now0;
    Spec.AddEvent stale_record; Spec.CleanupOld 172800 now0 ].

(** The state after [fresh_record] has been processed at [now0]. *)
Definition after_fresh : Featurizer.state :=
  fst (Featurizer.process_event (rt := Reference.runtime) env0 fresh_record
         Featurizer.init).

(** Two amounts that binary64 cannot add exactly, each inserted and
    followed by the eviction pass as [process_event] does: the event of
    amount 0.1 at [then0], the event of amount 0.2 at [now0], when the
    first one has become stale. *)
Definition rounding_history : list Spec.window_call :=
  [ Spec.AddEvent stale_record; Spec.CleanupOld 172800 then0;
    Spec.AddEvent fresh_record; Spec.CleanupOld 172800 now0 ].

(** The same history with amounts 50.0 and 25.5. *)
Definition old_record : gmap string string :=
  ingest_record "e7" "2025-01-10T11:00:00Z" "u1" "50.0".
Definition recent_record : gmap string string :=
  ingest_record "e8" "2025-01-15T09:30:00Z" "u1" "25.5".
Definition exact_history : list Spec.window_call :=
  [ Spec.AddEvent old_record; Spec.CleanupOld 172800 then0;
    Spec.AddEvent recent_record; Spec.CleanupOld 172800 now0 ].
Definition exact_window : Featurizer.EventWindow :=
  Featurizer.mk_window [recent_record] 25.5%float 1.

(** A new writer with the default settings ([Path("./data/local-s3")]
    is kept as [data/local-s3]), and a history in which an event with a
    bad [ts] heads the batch that is flushed. *)
Definition writer0 : S3Writer.state := S3Writer.init "data/local-s3" 10 100.
Definition poisoned_batch : list S3Writer.call :=
  [ S3Writer.AddEvent bad_ts_event; S3Writer.AddEvent good_event;
    S3Writer.Flush io_ok ].

End Examples.

(** ** More concrete inputs, run with the runtime [Reference.runtime] *)
Module Scenarios.

Import Examples.

(** A store in which the partition directory can be made and the write
    of the file fails. *)
Definition io_write_fails : S3Writer.io := S3Writer.mk_io true false "4e5f6a7b".

(** A store in which everything succeeds and another file name is
    drawn. *)
Definition io_later : S3Writer.io := S3Writer.mk_io true true "9c8d7e6f".

(** A writer that has buffered [good_event], and what a flush with a
    working store makes of it. *)
Definition one_buffered : S3Writer.state :=
  S3Writer.mk_state (S3Writer.add_event good_event (S3Writer.writer writer0)) [].
Definition one_flushed : S3Writer.state :=
  S3Writer.mk_state (S3Writer.set_buffer (S3Writer.writer one_buffered) [])
    [ S3Writer.mk_blob
        "data/local-s3/events/dt=2025-01-15/hour=09/events-0a1b2c3d.parquet"
        [good_event] ].

(** A writer that has buffered [bad_ts_event] and then [good_event], and
    what a flush makes of it. *)
Definition two_buffered : S3Writer.state :=
  S3Writer.mk_state
    (S3Writer.add_event good_event
       (S3Writer.add_event bad_ts_event (S3Writer.writer writer0))) [].
Definition two_lost : S3Writer.state :=
  S3Writer.mk_state (S3Writer.set_buffer (S3Writer.writer two_buffered) []) [].

(** Calls on a writer before the service shuts down, and an
    interleaving in which an event arrives while a flush is between its
    two locked regions. *)
Definition before_shutdown : list S3Writer.call :=
  [ S3Writer.AddEvent good_event; S3Writer.Flush io_ok; S3Writer.AddEvent good_event ].
Definition overlapping : list S3Writer.action :=
  [ S3Writer.Enqueue good_event; S3Writer.Snapshot; S3Writer.Enqueue good_event;
    S3Writer.Complete 0 io_ok ].

(** Two requests, [str] on the floats they carry, and a history of the
    ingest service: both requests arrive, the event log refuses the
    first and accepts the second, the first handler answers, the
    background flusher takes a turn in which the write fails, the
    second handler answers, the flusher takes another turn. *)
Definition request (event_id ts : string) : Ingest.TransactionEvent :=
  Ingest.mk_event event_id ts "u1" 50 "EUR" "FR" "d1" "10.0.0.1" "m1"
                  (fun _ => 0%float) 0.
Definition float_repr0 (f : float) : string :=
  if PrimFloat.eqb f 50 then "50.0"%string else "0.0"%string.
Definition busy_service : list Ingest.step :=
  [ Ingest.Arrives (request "e1" "2025-01-15T09:58:00Z");
    Ingest.Arrives (request "e2" "2025-01-15T09:59:00Z");
    Ingest.Xadd 0 false 0;
    Ingest.Xadd 0 true 0;
    Ingest.Resumes 0;
    Ingest.FlusherTurn io_write_fails;
    Ingest.Resumes 0;
    Ingest.FlusherTurn io_ok ].

(** The clock five days earlier with a working store; an event of
    amount 50.0 half an hour before [recent_record], the window that
    holds it, the window that holds both, and the states after each of
    the two has been processed at [now0]. *)
Definition env_then : Featurizer.penv := Featurizer.mk_penv then0 true.
Definition earlier_record : gmap string string :=
  ingest_record "e9" "2025-01-15T09:00:00Z" "u1" "50.0".
Definition earlier_window : Featurizer.EventWindow :=
  Featurizer.mk_window [earlier_record] 50%float 1.
Definition both_window : Featurizer.EventWindow :=
  Featurizer.mk_window [earlier_record; recent_record] 75.5%float 2.
Definition after_earlier : Featurizer.state :=
  fst (Featurizer.process_event (rt := Reference.runtime) env0 earlier_record
         Featurizer.init).
Definition after_recent : Featurizer.state :=
  fst (Featurizer.process_event (rt := Reference.runtime) env0 recent_record
         after_earlier).

(** What [compute_features] returns for [fresh_record] in
    [fresh_window] at [now0]. *)
Definition fresh_features : gmap string pyval :=
  list_to_map
    [ ("txns_last_5m", PInt 0); ("txns_last_1h", PInt 1); ("txns_last_24h", PInt 1);
      ("avg_amount_1h", PFloat 0.2); ("max_amount_24h", PFloat 0.2);
      ("unique_devices_24h", PInt 1); ("unique_ips_24h", PInt 1);
      ("amount_zscore", PFloat 0); ("merchant_velocity_1h", PInt 1);
      ("device_churn_24h", PInt 0); ("ip_changes_24h", PInt 0) ]%string.

(** A log that holds [fresh_record] alone, a turn of the consumer loop
    that reads it with a working store, and a clock reading at which the
    store refuses the write. *)
Definition fresh_log : list (N * N * gmap string string) :=
  [ ((1%N, 0%N), fresh_record) ].
Definition fresh_tick : Featurizer.tick :=
  Featurizer.mk_tick true fresh_log (fun _ => env0).
Definition env_store_down : Featurizer.penv := Featurizer.mk_penv now0 false.

(** The state after [fresh_record] was processed while the store was
    down. *)
Definition after_failed_write : Featurizer.state :=
  Featurizer.mk_state {[ "u1"%string := fresh_window ]} (Featurizer.mk_redis ∅ ∅).

(** Two hashes for the user [u1] that agree on the model features, the
    stores that hold them, with a model that answers 0.5, and
    thresholds in the wrong order. *)
Definition model_features_only : gmap string string :=
  list_to_map [ ("V1", "1.5"); ("Amount_normalized", "0.25") ]%string.
Definition with_behaviour : gmap string string :=
  list_to_map [ ("V1", "1.5"); ("Amount_normalized", "0.25");
                ("txns_last_5m", "9"); ("last_event_ts", "2025-01-15T09:00:00Z") ]%string.
Definition store_of (h : gmap string string) : Infer.env :=
  Infer.mk_env {[ Infer.redis_key "u1" := h ]} true (fun _ => Ok 0.5%float).
Definition swapped_thresholds : Infer.config := Infer.mk_config 0.7%float 0.3%float.

End Scenarios.

(* ===================================================================== *)
(** * Part II.  Properties                                                *)
(* ===================================================================== *)

(** Closes an equation between closed terms by evaluating both sides in
    the virtual machine, without writing their normal forms down. *)
Ltac vm_refl :=
  lazymatch goal with
  | |- ?l = ?r => exact (@eq_refl _ r <: l = r)
  end.

(** ** Order of binary64 values *)

Lemma SFcompare_antisym a b :
  SFcompare b a = option_map CompOpp (SFcompare a b).
Proof.
  destruct a as [sa|sa| |sa ma ea], b as [sb|sb| |sb mb eb];
    repeat match goal with s : bool |- _ => destruct s end; simpl; try reflexivity;
    rewrite (Z.compare_antisym ea eb);
    destruct (ea ?= eb) eqn:E; simpl; try reflexivity;
    rewrite !Pos.compare_cont_spec, (Pos.compare_antisym ma mb); simpl;
    destruct (ma ?= mb)%positive; reflexivity.
Qed.

Lemma SFcompare_refl a : a <> S754_nan -> SFcompare a a = Some Eq.
Proof.
  destruct a as [sa|sa| |sa ma ea]; try destruct sa; simpl; try congruence;
    intros _; rewrite Z.compare_refl, Pos.compare_cont_refl; reflexivity.
Qed.

Lemma SFcompare_None a b :
  SFcompare a b = None <-> a = S754_nan \/ b = S754_nan.
Proof.
  destruct a as [sa|sa| |sa ma ea], b as [sb|sb| |sb mb eb]; simpl;
    split; intros H; try discriminate; try tauto; destruct H; discriminate.
Qed.

Lemma SFlt_le_trans a b c :
  SFltb a b = true -> SFleb b c = true -> SFltb a c = true.
Proof.
  unfold SFltb, SFleb.
  destruct a as [sa|sa| |sa ma ea], b as [sb|sb| |sb mb eb], c as [sc|sc| |sc mc ec];
    repeat match goal with s : bool |- _ => destruct s end; simpl; try congruence;
    rewrite ?Pos.compare_cont_spec; simpl;
    repeat match goal with
    | |- context [(?x ?= ?y)%Z] => destruct (Z.compare_spec x y)
    | |- context [(?x ?= ?y)%positive] => destruct (Pos.compare_spec x y)
    end; simpl; try congruence; try lia.
Qed.

Lemma is_nan_spec x : PrimFloat.is_nan x = true <-> Prim2SF x = S754_nan.
Proof.
  unfold PrimFloat.is_nan. rewrite FloatAxioms.eqb_spec. unfold SFeqb. split.
  - intros H. destruct (Prim2SF x) eqn:E; try reflexivity;
      rewrite SFcompare_refl in H by discriminate; discriminate.
  - intros ->. reflexivity.
Qed.

Lemma is_nan_false x : PrimFloat.is_nan x = false <-> Prim2SF x <> S754_nan.
Proof.
  rewrite <- is_nan_spec. destruct (PrimFloat.is_nan x); split; congruence.
Qed.

(** A comparison that answers [true] has no NaN operand. *)
Lemma ltb_not_nan x y :
  PrimFloat.ltb x y = true -> PrimFloat.is_nan x = false /\ PrimFloat.is_nan y = false.
Proof.
  rewrite FloatAxioms.ltb_spec, !is_nan_false. unfold SFltb. intros H.
  destruct (SFcompare (Prim2SF x) (Prim2SF y)) eqn:E; [|discriminate].
  split; intros N; assert (SFcompare (Prim2SF x) (Prim2SF y) = None)
    by (apply SFcompare_None; tauto); congruence.
Qed.

Lemma leb_not_nan x y :
  PrimFloat.leb x y = true -> PrimFloat.is_nan x = false /\ PrimFloat.is_nan y = false.
Proof.
  rewrite FloatAxioms.leb_spec, !is_nan_false. unfold SFleb. intros H.
  destruct (SFcompare (Prim2SF x) (Prim2SF y)) eqn:E; [|discriminate].
  split; intros N; assert (SFcompare (Prim2SF x) (Prim2SF y) = None)
    by (apply SFcompare_None; tauto); congruence.
Qed.

(** [x <= y] excludes [y < x]. *)
Lemma leb_true_ltb_false x y :
  PrimFloat.leb x y = true -> PrimFloat.ltb y x = false.
Proof.
  rewrite FloatAxioms.leb_spec, FloatAxioms.ltb_spec. unfold SFleb, SFltb.
  rewrite (SFcompare_antisym (Prim2SF x) (Prim2SF y)).
  destruct (SFcompare (Prim2SF x) (Prim2SF y)) as [[]|]; simpl; congruence.
Qed.

(** Away from NaN the order is total. *)
Lemma ltb_false_leb x y :
  PrimFloat.is_nan x = false -> PrimFloat.is_nan y = false ->
  PrimFloat.ltb x y = false -> PrimFloat.leb y x = true.
Proof.
  rewrite !is_nan_false, FloatAxioms.leb_spec, FloatAxioms.ltb_spec. unfold SFleb, SFltb. intros Hx Hy.
  rewrite (SFcompare_antisym (Prim2SF x) (Prim2SF y)).
  destruct (SFcompare (Prim2SF x) (Prim2SF y)) as [[]|] eqn:E; simpl; try congruence.
  apply SFcompare_None in E. tauto.
Qed.

Lemma ltb_asym x y : PrimFloat.ltb x y = true -> PrimFloat.ltb y x = false.
Proof.
  rewrite !FloatAxioms.ltb_spec. unfold SFltb.
  rewrite (SFcompare_antisym (Prim2SF x) (Prim2SF y)).
  destruct (SFcompare (Prim2SF x) (Prim2SF y)) as [[]|]; simpl; congruence.
Qed.

Lemma ltb_leb_trans x y z :
  PrimFloat.ltb x y = true -> PrimFloat.leb y z = true -> PrimFloat.ltb x z = true.
Proof. rewrite !FloatAxioms.ltb_spec, FloatAxioms.leb_spec. apply SFlt_le_trans. Qed.

Lemma nan_compares_false x y :
  PrimFloat.is_nan x = true ->
  PrimFloat.ltb x y = false /\ PrimFloat.leb y x = false.
Proof.
  intros H. split.
  - destruct (PrimFloat.ltb x y) eqn:E; [|reflexivity].
    apply ltb_not_nan in E. destruct E; congruence.
  - destruct (PrimFloat.leb y x) eqn:E; [|reflexivity].
    apply leb_not_nan in E. destruct E; congruence.
Qed.

(** ** Inference: reason codes, feature vector, decision *)
Section InferProps.
Context {rt : Runtime}.

Import Reasons FeatureVector Infer.

(** C5.  [generate_reasons] returns exactly the codes whose predicate
    holds, in the fixed priority order, cut to the first three, and the
    single code [no_significant_indicators] when no predicate holds: it
    agrees with the specification's wording on every feature map and
    every score. *)
Theorem generate_reasons_spec (m : gmap string pyval) (score : float) :
  generate_reasons m score = Spec.reasons m.
Proof.
  assert (F : forall name, Spec.feature m name = get_float m name).
  { intros name. unfold Spec.feature, get_float, py_float.
    destruct (m !! name) as [[s|f|z]|]; try reflexivity.
    destruct (float_of_str s); reflexivity. }
  unfold generate_reasons, Spec.reasons, Spec.matching, Spec.predicates.
  rewrite !F.
  destruct (gt (get_float m "txns_last_5m") 5),
           (gt (get_float m "txns_last_1h") 20),
           (gt (get_float m "avg_amount_1h") 0),
           (gt (get_float m "amount_zscore") 3),
           (gt (get_float m "device_churn_24h") 2),
           (gt (get_float m "ip_changes_24h") 3),
           (gt (get_float m "merchant_velocity_1h") 5);
    vm_compute; reflexivity.
Qed.

(** The three-way split of [decide_risk], NaN included. *)
Lemma decide_risk_cases (cfg : config) (score : float) :
  PrimFloat.ltb (threshold_allow cfg) (threshold_block cfg) = true ->
  (decide_risk cfg score = "allow"%string
     <-> PrimFloat.ltb score (threshold_allow cfg) = true) /\
  (decide_risk cfg score = "step_up"%string
     <-> PrimFloat.leb (threshold_allow cfg) score = true
         /\ PrimFloat.ltb score (threshold_block cfg) = true) /\
  (decide_risk cfg score = "block"%string
     <-> PrimFloat.leb (threshold_block cfg) score = true
         \/ PrimFloat.is_nan score = true) /\
  (decide_risk cfg score = "allow"%string \/ decide_risk cfg score = "step_up"%string
     \/ decide_risk cfg score = "block"%string).
Proof.
  intros Hlt. unfold decide_risk.
  destruct (ltb_not_nan _ _ Hlt) as [Ha Hb].
  destruct (PrimFloat.ltb score (threshold_allow cfg)) eqn:E1.
  - (* score < allow *)
    assert (Hs : PrimFloat.is_nan score = false) by (apply ltb_not_nan in E1; tauto).
    assert (H2 : PrimFloat.leb (threshold_allow cfg) score = false).
    { destruct (PrimFloat.leb (threshold_allow cfg) score) eqn:E; [|reflexivity].
      apply leb_true_ltb_false in E. congruence. }
    assert (H3 : PrimFloat.leb (threshold_block cfg) score = false).
    { destruct (PrimFloat.leb (threshold_block cfg) score) eqn:E; [|reflexivity].
      pose proof (ltb_leb_trans _ _ _ Hlt E) as T.
      apply ltb_asym in T. congruence. }
    rewrite H2, H3, Hs. intuition congruence.
  - destruct (PrimFloat.ltb score (threshold_block cfg)) eqn:E2.
    + (* allow <= score < block *)
      assert (Hs : PrimFloat.is_nan score = false) by (apply ltb_not_nan in E2; tauto).
      assert (H2 : PrimFloat.leb (threshold_allow cfg) score = true)
        by (apply ltb_false_leb; trivial).
      assert (H3 : PrimFloat.leb (threshold_block cfg) score = false).
      { destruct (PrimFloat.leb (threshold_block cfg) score) eqn:E; [|reflexivity].
        apply leb_true_ltb_false in E. congruence. }
      rewrite H2, H3, Hs. intuition congruence.
    + (* neither comparison holds *)
      destruct (PrimFloat.is_nan score) eqn:Hs.
      * destruct (nan_compares_false score (threshold_block cfg) Hs) as [_ H3].
        rewrite H3. intuition congruence.
      * assert (H3 : PrimFloat.leb (threshold_block cfg) score = true)
          by (apply ltb_false_leb; trivial).
        rewrite H3. intuition congruence.
Qed.

(** For a score that is a number, and so for every score in [0, 1], the
    last case is exactly [score >= threshold_block]. *)
Lemma decide_risk_block_number (cfg : config) (score : float) :
  PrimFloat.ltb (threshold_allow cfg) (threshold_block cfg) = true ->
  PrimFloat.is_nan score = false ->
  (decide_risk cfg score = "block"%string
     <-> PrimFloat.leb (threshold_block cfg) score = true).
Proof.
  intros Hlt Hs. destruct (decide_risk_cases cfg score Hlt) as (_ & _ & B & _).
  rewrite B. rewrite Hs. intuition congruence.
Qed.

(** What a 200 answer of [predict] is made of. *)
Lemma predict_200 (cfg : config) (e : env) (uid : string) (body : PredictionResponse) :
  predict cfg e uid = Http200 body ->
  exists fetched score,
    hgetall e (redis_key uid) = Ok fetched /\
    model e (build_feature_vector
               (if decide (fetched = ∅) then get_default_features
                else PStr <$> fetched)) = Ok score /\
    body = mk_response uid (py_round score 4) (decide_risk cfg score)
             (if decide (fetched = ∅) then ["missing_features"%string]
              else generate_reasons (PStr <$> fetched) score).
Proof.
  unfold predict, predict_body.
  destruct (hgetall e (redis_key uid)) as [fetched|x]; simpl; [|discriminate].
  destruct (decide (fetched = ∅)) as [->|Hne]; simpl.
  - destruct (model e (build_feature_vector get_default_features)) as [score|x] eqn:M;
      simpl; [|discriminate].
    intros [= <-]. exists ∅, score. repeat case_decide; try congruence. auto.
  - destruct (model e (build_feature_vector (PStr <$> fetched))) as [score|x] eqn:M;
      simpl; [|discriminate].
    intros [= <-]. exists fetched, score. repeat case_decide; try congruence. auto.
Qed.

(** C6 (amended).  For thresholds with [threshold_allow < threshold_block],
    the decision of a 200 answer of [predict] is one of the three
    strings; it is "allow" exactly when the model's score is below
    [threshold_allow], "step_up" exactly when
    [threshold_allow <= score < threshold_block], and "block" exactly
    when [score >= threshold_block] or the score is NaN (the final
    [else] of the handler). *)
Theorem predict_decision (cfg : config) (e : env) (uid : string)
    (body : PredictionResponse) :
  PrimFloat.ltb (threshold_allow cfg) (threshold_block cfg) = true ->
  predict cfg e uid = Http200 body ->
  exists fetched score,
    hgetall e (redis_key uid) = Ok fetched /\
    model e (build_feature_vector
               (if decide (fetched = ∅) then get_default_features
                else PStr <$> fetched)) = Ok score /\
    risk_score body = py_round score 4 /\
    (decision body = "allow"%string
       <-> PrimFloat.ltb score (threshold_allow cfg) = true) /\
    (decision body = "step_up"%string
       <-> PrimFloat.leb (threshold_allow cfg) score = true
           /\ PrimFloat.ltb score (threshold_block cfg) = true) /\
    (decision body = "block"%string
       <-> PrimFloat.leb (threshold_block cfg) score = true
           \/ PrimFloat.is_nan score = true) /\
    (decision body = "allow"%string \/ decision body = "step_up"%string
       \/ decision body = "block"%string).
Proof.
  intros Hlt H. apply predict_200 in H as (fetched & score & G & M & ->).
  exists fetched, score. split; [exact G|]. split; [exact M|].
  split; [reflexivity|]. cbn [decision].
  apply decide_risk_cases, Hlt.
Qed.

(** C7.  For every string-to-string feature map, [build_feature_vector]
    returns (without a failure case) a tensor of shape (1, 29) whose
    entries are, in the order V1, ..., V28, Amount_normalized, the float
    value of the field, rounded to float32, with 0.0 for a field that is
    missing or that [float] rejects. *)
Theorem build_feature_vector_spec (m : gmap string string) :
  feature_order
    = ((fun i => ("V" ++ pretty (Z.of_nat i))%string) <$> seq 1 28)
      ++ ["Amount_normalized"%string] /\
  shape (build_feature_vector (PStr <$> m)) = [1%nat; 29%nat] /\
  data (build_feature_vector (PStr <$> m))
    = map (fun name =>
             to_float32 (match m !! name with
                         | Some s => default 0%float (float_of_str s)
                         | None => 0%float
                         end))
          feature_order.
Proof.
  split; [vm_compute; reflexivity|]. split; [reflexivity|].
  unfold build_feature_vector. cbn [data]. rewrite map_map.
  apply map_ext. intros name. unfold entry. rewrite lookup_fmap.
  destruct (m !! name) as [s|]; simpl; [|reflexivity].
  destruct (float_of_str s); reflexivity.
Qed.

(** The default feature set holds 0.0 for each of the 29 model features,
    and the vector built from it is all zeros. *)
Lemma default_features_zero :
  (forall k, k ∈ feature_order -> get_default_features !! k = Some (PFloat 0%float)) /\
  build_feature_vector get_default_features
    = mk_tensor [1%nat; 29%nat] (repeat 0%float 29).
Proof.
  split; [|vm_compute; reflexivity].
  intros k Hk. unfold feature_order in Hk.
  repeat (apply elem_of_cons in Hk as [->|Hk]; [vm_compute; reflexivity|]).
  apply elem_of_nil in Hk. contradiction.
Qed.

(** C8.  When the key [features:user:{user_id}] is absent, so that
    [hgetall] returns the empty map, [predict] answers 200: the vector
    handed to the model is built from the default feature set (each of
    the 29 model features is 0.0), and the reasons are exactly
    ["missing_features"], whatever the rules of [generate_reasons] would
    say. *)
Theorem predict_missing_features (cfg : config) (e : env) (uid : string) (score : float) :
  hgetall e (redis_key uid) = Ok ∅ ->
  model e (mk_tensor [1%nat; 29%nat] (repeat 0%float 29)) = Ok score ->
  (forall k, k ∈ feature_order -> get_default_features !! k = Some (PFloat 0%float)) /\
  build_feature_vector get_default_features
    = mk_tensor [1%nat; 29%nat] (repeat 0%float 29) /\
  predict cfg e uid
    = Http200 (mk_response uid (py_round score 4) (decide_risk cfg score)
                           ["missing_features"%string]) /\
  status_code (predict cfg e uid) = 200.
Proof.
  intros Hget Hmodel. destruct default_features_zero as [Hdef Hvec].
  assert (P : predict cfg e uid
    = Http200 (mk_response uid (py_round score 4) (decide_risk cfg score)
                           ["missing_features"%string])).
  { unfold predict, predict_body. rewrite Hget. simpl.
    rewrite decide_True by reflexivity. rewrite Hvec, Hmodel. reflexivity. }
  repeat split; trivial. rewrite P. reflexivity.
Qed.

End InferProps.

(** C6 as stated fails on a NaN score: with the default thresholds the
    handler answers "block" although [NaN >= threshold_block] is false. *)
Lemma predict_nan_score_blocks :
  PrimFloat.ltb (Infer.threshold_allow Infer.default_config)
                (Infer.threshold_block Infer.default_config) = true /\
  exists body,
    Infer.predict (rt := Reference.runtime) Infer.default_config
                  (Examples.constant_model nan) "u1" = Infer.Http200 body /\
    ~ (Infer.decision body = "block"%string
       <-> PrimFloat.leb (Infer.threshold_block Infer.default_config) nan = true).
Proof.
  split; [reflexivity|].
  exists (Infer.mk_response "u1" nan "block" ["missing_features"%string]).
  split; [vm_refl|].
  cbn [Infer.decision]. intros [H _]. specialize (H eq_refl). discriminate H.
Qed.

(** [predict_decision] applies to a user without features and a model
    that answers 0.5. *)
Lemma predict_decision_witness :
  PrimFloat.ltb (Infer.threshold_allow Infer.default_config)
                (Infer.threshold_block Infer.default_config) = true /\
  Infer.predict (rt := Reference.runtime) Infer.default_config
                (Examples.constant_model 0.5) "u1"
    = Infer.Http200 (Infer.mk_response "u1" 0.5 "step_up" ["missing_features"%string]) /\
  exists score,
    0.5%float = py_round score 4 /\
    ("step_up"%string = "step_up"%string
       <-> PrimFloat.leb 0.3 score = true /\ PrimFloat.ltb score 0.7 = true) /\
    ("step_up"%string = "block"%string
       <-> PrimFloat.leb 0.7 score = true \/ PrimFloat.is_nan score = true).
Proof.
  assert (T : PrimFloat.ltb (Infer.threshold_allow Infer.default_config)
                (Infer.threshold_block Infer.default_config) = true) by vm_refl.
  assert (P : Infer.predict (rt := Reference.runtime) Infer.default_config
                (Examples.constant_model 0.5) "u1"
              = Infer.Http200 (Infer.mk_response "u1" 0.5 "step_up"
                                 ["missing_features"%string])) by vm_refl.
  split; [exact T|]. split; [exact P|].
  destruct (predict_decision (rt := Reference.runtime) Infer.default_config
              (Examples.constant_model 0.5) "u1" _ T P)
    as (fetched & score & _ & _ & R & _ & S & B & _).
  exists score. split; [exact R|]. split; [exact S | exact B].
Defined.

(** [predict_missing_features] applies to the empty store and a model
    that answers 0.5. *)
Lemma predict_missing_features_witness :
  Infer.hgetall (Examples.constant_model 0.5) (Infer.redis_key "u1") = Ok ∅ /\
  Infer.model (Examples.constant_model 0.5)
    (FeatureVector.mk_tensor [1%nat; 29%nat] (repeat 0%float 29)) = Ok 0.5%float /\
  Infer.predict (rt := Reference.runtime) Infer.default_config
                (Examples.constant_model 0.5) "u1"
    = Infer.Http200 (Infer.mk_response "u1" (py_round 0.5 4)
                       (Infer.decide_risk Infer.default_config 0.5)
                       ["missing_features"%string]).
Proof.
  split; [reflexivity|]. split; [reflexivity|].
  apply (predict_missing_features (rt := Reference.runtime) Infer.default_config
           (Examples.constant_model 0.5) "u1" 0.5 eq_refl eq_refl).
Defined.

(** ** Featurizer: records without a user, the window bound *)
Section FeaturizerProps.
Context {rt : Runtime}.

Import Featurizer.

(** C10.  A record whose decoded fields have no [user_id], or an empty
    one, makes [process_event] return normally with the state as it was:
    the window map, the hashes of the feature store and their times to
    live are all unchanged. *)
Theorem process_event_without_user_id (env : penv) (event_data ev : gmap string string)
    (s : state) :
  decode_event event_data = Ok ev ->
  ev !! "user_id"%string = None \/ ev !! "user_id"%string = Some EmptyString ->
  process_event env event_data s = (s, Ok tt).
Proof.
  intros D H. unfold process_event. rewrite D.
  destruct H as [-> | ->]; [reflexivity|].
  rewrite decide_True by reflexivity. reflexivity.
Qed.

(** [add_event] appends, whether or not it raises afterwards. *)
Lemma add_event_events (e : event) (w w1 : EventWindow) (r : result unit) :
  add_event e w = (w1, r) -> events w1 = events w ++ [e].
Proof.
  unfold add_event. destruct (e !! "amount"%string) as [a|].
  - destruct (to_float a); intros [= <- _]; reflexivity.
  - intros [= <- _]. reflexivity.
Qed.

(** The eviction loop keeps a suffix of the deque. *)
Lemma cleanup_loop_suffix (cut : Z) (evs : list event) (total : float) (count : Z)
    (w : EventWindow) (r : result unit) :
  cleanup_loop cut evs total count = (w, r) ->
  exists dropped, evs = dropped ++ events w.
Proof.
  revert total count. induction evs as [|first rest IH]; intros total count; simpl.
  - intros [= <- _]. exists []. reflexivity.
  - destruct (event_time first) as [d|x].
    + destruct (at_or_after d cut).
      * intros [= <- _]. exists []. reflexivity.
      * destruct (first !! "amount"%string) as [a|].
        -- destruct (to_float a) as [f|x].
           ++ intros H. apply IH in H as [dropped ->]. exists (first :: dropped). reflexivity.
           ++ intros [= <- _]. exists [first]. reflexivity.
        -- intros H. apply IH in H as [dropped ->]. exists (first :: dropped). reflexivity.
    + intros [= <- _]. exists []. reflexivity.
Qed.

(** When the loop ends normally, the event left at the head is not
    older than the cutoff. *)
Lemma cleanup_loop_head (cut : Z) (evs : list event) (total : float) (count : Z)
    (w : EventWindow) :
  cleanup_loop cut evs total count = (w, Ok tt) ->
  forall first, head (events w) = Some first ->
  exists d, event_time first = Ok d /\ cut <= to_micros d.
Proof.
  revert total count. induction evs as [|e rest IH]; intros total count; simpl.
  - intros [= <-]. simpl. discriminate.
  - destruct (event_time e) as [d|x] eqn:T.
    + destruct (at_or_after d cut) eqn:A.
      * intros [= <-]. simpl. intros first [= <-]. exists d. split; [exact T|].
        unfold at_or_after in A. lia.
      * destruct (e !! "amount"%string) as [a|].
        -- destruct (to_float a) as [f|x]; [apply IH | discriminate].
        -- apply IH.
    + discriminate.
Qed.

Lemma chronological_tail (e : event) (rest : list event) :
  Spec.chronological (e :: rest) = true -> Spec.chronological rest = true.
Proof.
  simpl. destruct (Spec.event_micros e); [|discriminate].
  intros H. apply andb_true_iff in H. tauto.
Qed.

(** In a chronological deque no event is earlier than the head. *)
Lemma chronological_head (e : event) (rest : list event) (d : datetime) :
  Spec.chronological (e :: rest) = true ->
  event_time e = Ok d ->
  forall x, x ∈ e :: rest ->
  exists dx, event_time x = Ok dx /\ to_micros d <= to_micros dx.
Proof.
  simpl. unfold Spec.event_micros at 1. intros H T. rewrite T in H.
  apply andb_true_iff in H as [H _]. rewrite forallb_forall in H.
  intros x Hx. apply elem_of_cons in Hx as [-> | Hx].
  - exists d. split; [exact T | lia].
  - apply list_elem_of_In in Hx. specialize (H x Hx).
    unfold Spec.event_micros in H.
    destruct (event_time x) as [dx|]; [|discriminate].
    exists dx. split; [reflexivity | lia].
Qed.

Lemma cleanup_loop_chronological (cut : Z) (evs : list event) (total : float)
    (count : Z) (w : EventWindow) :
  Spec.chronological evs = true ->
  cleanup_loop cut evs total count = (w, Ok tt) ->
  forall x, x ∈ events w ->
  exists d, event_time x = Ok d /\ cut <= to_micros d.
Proof.
  revert total count. induction evs as [|e rest IH]; intros total count C; simpl.
  - intros [= <-]. simpl. intros x Hx. apply elem_of_nil in Hx. contradiction.
  - destruct (event_time e) as [d|x] eqn:T.
    + destruct (at_or_after d cut) eqn:A.
      * intros [= <-]. simpl. intros x Hx.
        destruct (chronological_head e rest d C T x Hx) as (dx & Tx & Le).
        exists dx. split; [exact Tx|]. unfold at_or_after in A. lia.
      * apply chronological_tail in C.
        destruct (e !! "amount"%string) as [a|].
        -- destruct (to_float a) as [f|x]; [apply IH, C | discriminate].
        -- apply IH, C.
    + discriminate.
Qed.

(** C4 (amended).  After an insertion followed by the eviction pass of
    [process_event], both without an error, the retained events are the
    window with a prefix dropped; the event at the head, the earliest
    inserted one that is retained, has a parsed [ts] not older than
    [now - 48h]; and every retained event has such a [ts] when the
    timestamps of the window are in non-decreasing order. *)
Theorem eviction_bound (now : datetime) (e : event) (w w1 w2 : EventWindow) :
  add_event e w = (w1, Ok tt) ->
  cleanup_old 172800 now w1 = (w2, Ok tt) ->
  (exists dropped, events w ++ [e] = dropped ++ events w2) /\
  (forall first, head (events w2) = Some first ->
     exists d, event_time first = Ok d
               /\ to_micros now - 172800 * 1000000 <= to_micros d) /\
  (Spec.chronological (events w1) = true ->
   forall x, x ∈ events w2 ->
     exists d, event_time x = Ok d
               /\ to_micros now - 172800 * 1000000 <= to_micros d).
Proof.
  intros A H. unfold cleanup_old in H. split; [|split].
  - apply add_event_events in A. rewrite <- A.
    apply (cleanup_loop_suffix _ _ _ _ _ _ H).
  - apply (cleanup_loop_head _ _ _ _ _ H).
  - intros C. apply (cleanup_loop_chronological _ _ _ _ _ C H).
Qed.

End FeaturizerProps.

(** C4 as stated fails: an event that arrives late, with a [ts] 119 hours
    before [now], is inserted behind a fresh one; the eviction pass stops
    at the fresh head and the stale event stays in the window. *)
Lemma stale_event_survives_eviction :
  exists w d,
    Spec.window_run (rt := Reference.runtime) Examples.late_arrival
      Featurizer.new_window = (w, Ok tt) /\
    Examples.stale_record ∈ Featurizer.events w /\
    Featurizer.event_time (rt := Reference.runtime) Examples.stale_record = Ok d /\
    to_micros d < to_micros Examples.now0 - 172800 * 1000000.
Proof.
  exists (Featurizer.mk_window [Examples.fresh_record; Examples.stale_record]
            0.30000000000000004%float 2),
         (mk_datetime 2025 1 10 11 0 0 0 None).
  split; [vm_refl|]. cbn [Featurizer.events].
  split; [apply elem_of_cons; right; apply elem_of_cons; left; reflexivity|].
  split; [vm_refl | reflexivity].
Qed.

(** [eviction_bound] applies to the insertion of [fresh_record] into a
    new window at [now0]. *)
Lemma eviction_bound_witness :
  Featurizer.add_event (rt := Reference.runtime) Examples.fresh_record
    Featurizer.new_window = (Examples.fresh_window, Ok tt) /\
  Featurizer.cleanup_old (rt := Reference.runtime) 172800 Examples.now0
    Examples.fresh_window = (Examples.fresh_window, Ok tt) /\
  Spec.chronological (rt := Reference.runtime)
    (Featurizer.events Examples.fresh_window) = true /\
  forall x, x ∈ Featurizer.events Examples.fresh_window ->
    exists d, Featurizer.event_time (rt := Reference.runtime) x = Ok d
              /\ to_micros Examples.now0 - 172800 * 1000000 <= to_micros d.
Proof.
  assert (A : Featurizer.add_event (rt := Reference.runtime) Examples.fresh_record
                Featurizer.new_window = (Examples.fresh_window, Ok tt))
    by vm_refl.
  assert (C : Featurizer.cleanup_old (rt := Reference.runtime) 172800 Examples.now0
                Examples.fresh_window = (Examples.fresh_window, Ok tt))
    by vm_refl.
  assert (S : Spec.chronological (rt := Reference.runtime)
                (Featurizer.events Examples.fresh_window) = true)
    by vm_refl.
  split; [exact A|]. split; [exact C|]. split; [exact S|].
  exact (proj2 (proj2 (eviction_bound (rt := Reference.runtime) Examples.now0
                         Examples.fresh_record Featurizer.new_window
                         Examples.fresh_window Examples.fresh_window A C)) S).
Defined.

(** [process_event_without_user_id] applies to a record without
    [user_id]; a record with an empty [user_id] is treated alike. *)
Lemma process_event_without_user_id_witness :
  Featurizer.decode_event Examples.anonymous_record = Ok Examples.anonymous_record /\
  Examples.anonymous_record !! "user_id"%string = None /\
  Featurizer.process_event (rt := Reference.runtime) Examples.env0
    Examples.anonymous_record Featurizer.init = (Featurizer.init, Ok tt).
Proof.
  split; [vm_refl|]. split; [vm_refl|].
  apply (process_event_without_user_id (rt := Reference.runtime) Examples.env0
           Examples.anonymous_record Examples.anonymous_record Featurizer.init).
  - vm_refl.
  - left. vm_refl.
Defined.

Example process_event_empty_user_id :
  Featurizer.process_event (rt := Reference.runtime) Examples.env0
    Examples.empty_user_record Featurizer.init = (Featurizer.init, Ok tt).
Proof. vm_refl. Qed.

(** ** Featurizer: the consumer cursor, the published z-score *)
Section ConsumerProps.
Context {rt : Runtime}.

Import Featurizer.

(** A record on which [process_event] raises leaves the cursor where it
    was: the [continue] of the handler skips the assignment to
    [last_id]. *)
Lemma failing_record_keeps_cursor (env_at : nat -> penv) (i : nat)
    (msg_id last_id : stream_id) (event_data : gmap string string) (s : state) :
  is_ok (snd (process_event (env_at i) event_data s)) = false ->
  fst (process_messages env_at i [(msg_id, event_data)] last_id s) = last_id.
Proof.
  cbn [process_messages].
  destruct (process_event (env_at i) event_data s) as [s' [u|x]]; simpl;
    [discriminate | reflexivity].
Qed.

Lemma zscore_positive_mean (mean current : float) :
  gt mean 0 = true -> zscore mean current = ((current - mean) / mean)%float.
Proof. intros H. unfold zscore. rewrite H. reflexivity. Qed.

Lemma zscore_nonpositive_mean (mean current : float) :
  PrimFloat.leb mean 0 = true -> zscore mean current = 0%float.
Proof.
  intros H. apply leb_true_ltb_false in H. unfold zscore, gt. rewrite H. reflexivity.
Qed.

(** The [amount_zscore] entry of the dictionary [compute_features]
    returns. *)
Lemma compute_features_amount_zscore (ev : event) (w : EventWindow) (now : datetime)
    (fs : gmap string pyval) :
  compute_features ev w now = Ok fs ->
  exists current,
    amount_or_zero ev = Ok current /\
    fs !! "amount_zscore"%string
      = Some (PFloat (zscore (get_user_mean_amount w) current)).
Proof.
  unfold compute_features.
  destruct (get_recent 300 now w) as [e5|]; [|discriminate].
  destruct (get_recent 3600 now w) as [e1|]; [|discriminate].
  destruct (get_recent 86400 now w) as [e24|]; [|discriminate].
  cbn [bind].
  destruct (amounts e1) as [a1|]; [|discriminate].
  destruct (amounts e24) as [a24|]; [|discriminate].
  cbn [bind].
  destruct (amount_or_zero ev) as [current|]; [|discriminate].
  cbn [bind]. intros [= <-]. exists current. split; [reflexivity|].
  repeat (rewrite lookup_insert_ne by discriminate). apply lookup_insert_eq.
Qed.

End ConsumerProps.

(** The record [bad_ts_record] makes [process_event] raise in every
    state: its [ts] is not a timestamp. *)
Lemma bad_ts_record_raises (s : Featurizer.state) :
  snd (Featurizer.process_event (rt := Reference.runtime) Examples.env0
         Examples.bad_ts_record s) = Raise ValueError.
Proof.
  unfold Featurizer.process_event.
  assert (E1 : Featurizer.decode_event Examples.bad_ts_record
               = Ok Examples.bad_ts_record) by vm_refl.
  assert (E2 : Examples.bad_ts_record !! "user_id"%string = Some "u1"%string)
    by vm_refl.
  assert (E3 : Featurizer.event_time (rt := Reference.runtime) Examples.bad_ts_record
               = Raise ValueError) by vm_refl.
  rewrite E1, E2, E3. rewrite decide_False by discriminate.
  destruct (Featurizer.user_windows s !! "u1"%string); reflexivity.
Qed.

(** One turn of the loop over the poisoned log leaves the cursor at 0. *)
Lemma poisoned_turn (s : Featurizer.state) :
  fst (Featurizer.consume_once (rt := Reference.runtime) Examples.poisoned_tick
         (0%N, 0%N) s) = (0%N, 0%N).
Proof.
  unfold Featurizer.consume_once.
  change (Featurizer.xread_ok Examples.poisoned_tick) with true.
  assert (E : Featurizer.xread (Featurizer.log Examples.poisoned_tick) (0%N, 0%N) 10
              = [ ((1%N, 0%N), Examples.bad_ts_record) ]) by vm_refl.
  rewrite E.
  apply (failing_record_keeps_cursor (rt := Reference.runtime)
           (Featurizer.env_at Examples.poisoned_tick) 0).
  change (Featurizer.env_at Examples.poisoned_tick 0%nat) with Examples.env0.
  rewrite bad_ts_record_raises. reflexivity.
Qed.

(** C2 (the code departs from it).  The log holds one record, which the
    ingest schema accepts ([ts] is any string) and on which
    [process_event] raises.  The record is logged and skipped, but the
    cursor is not moved past it: after the turn [last_id] is still 0, the
    next read returns the same record, and this repeats for any number of
    turns. *)
Theorem consumer_cursor_stays_behind_failing_record :
  snd (Featurizer.process_event (rt := Reference.runtime) Examples.env0
         Examples.bad_ts_record Featurizer.init) = Raise ValueError /\
  fst (Featurizer.consume_once (rt := Reference.runtime) Examples.poisoned_tick
         (0%N, 0%N) Featurizer.init) = (0%N, 0%N) /\
  Featurizer.xread Examples.poisoned_log
    (fst (Featurizer.consume_once (rt := Reference.runtime) Examples.poisoned_tick
            (0%N, 0%N) Featurizer.init)) 10
    = [ ((1%N, 0%N), Examples.bad_ts_record) ] /\
  forall n,
    fst (Featurizer.consume_events (rt := Reference.runtime)
           (repeat Examples.poisoned_tick n) (0%N, 0%N) Featurizer.init)
      = (0%N, 0%N).
Proof.
  split; [apply bad_ts_record_raises|].
  split; [apply poisoned_turn|].
  split; [rewrite poisoned_turn; vm_refl|].
  intros n. generalize Featurizer.init.
  induction n as [|n IH]; intros s; [reflexivity|].
  cbn [repeat Featurizer.consume_events].
  pose proof (poisoned_turn s) as T.
  destruct (Featurizer.consume_once Examples.poisoned_tick (0%N, 0%N) s) as [c s'].
  simpl in T. subst c. apply IH.
Qed.

(** ** Featurizer: the running aggregates of a window *)
Section WindowProps.
Context {rt : Runtime}.

Import Featurizer.

Lemma to_float_Ok (s : string) (a : float) :
  to_float s = Ok a <-> float_of_str s = Some a.
Proof.
  unfold to_float, py_float. destruct (float_of_str s); split; congruence.
Qed.

Lemma count_amounts_cons (e : event) (l : list event) :
  Spec.count_amounts (e :: l)
    = (if Spec.carries_amount e then 1 else 0) + Spec.count_amounts l.
Proof.
  unfold Spec.count_amounts. simpl. destruct (Spec.carries_amount e); simpl length; lia.
Qed.

Lemma count_amounts_snoc (l : list event) (e : event) :
  Spec.count_amounts (l ++ [e])
    = Spec.count_amounts l + (if Spec.carries_amount e then 1 else 0).
Proof.
  induction l as [|x l IH]; [rewrite app_nil_l, count_amounts_cons; unfold Spec.count_amounts; simpl; lia|].
  rewrite <- app_comm_cons, !count_amounts_cons, IH. lia.
Qed.

Lemma carries_amount_Some (e : event) (s : string) :
  e !! "amount"%string = Some s -> Spec.carries_amount e = true.
Proof. intros H. unfold Spec.carries_amount. rewrite H. reflexivity. Qed.

Lemma carries_amount_None (e : event) :
  e !! "amount"%string = None -> Spec.carries_amount e = false.
Proof. intros H. unfold Spec.carries_amount. rewrite H. reflexivity. Qed.

Lemma sum_amounts_snoc (l : list event) (e : event) :
  Spec.sum_amounts (l ++ [e]) = Spec.sum_amounts l + Spec.sum_amounts [e].
Proof.
  induction l as [|x l IH]; [simpl Spec.sum_amounts at 2; rewrite app_nil_l; lia|].
  rewrite <- app_comm_cons. cbn [Spec.sum_amounts] in *.
  destruct (x !! "amount"%string) as [s|]; [destruct (float_of_str s)|]; rewrite IH; lia.
Qed.

Lemma exact_add_spec (x y : float) :
  Spec.exact_add x y = true ->
  Spec.finite (x + y)%float = true
  /\ Spec.exact_value (x + y)%float = Spec.exact_value x + Spec.exact_value y.
Proof.
  unfold Spec.exact_add. rewrite !andb_true_iff, Z.eqb_eq. tauto.
Qed.

Lemma exact_sub_spec (x y : float) :
  Spec.exact_sub x y = true ->
  Spec.finite (x - y)%float = true
  /\ Spec.exact_value (x - y)%float = Spec.exact_value x - Spec.exact_value y.
Proof.
  unfold Spec.exact_sub. rewrite !andb_true_iff, Z.eqb_eq. tauto.
Qed.

Lemma add_event_counted (e : event) (w w1 : EventWindow) :
  add_event e w = (w1, Ok tt) -> Spec.counted w -> Spec.counted w1.
Proof.
  unfold add_event, Spec.counted. destruct (e !! "amount"%string) as [s|] eqn:E.
  - destruct (to_float s); intros [= <-]; cbn [amount_count events]; intros H.
    rewrite count_amounts_snoc, (carries_amount_Some _ _ E). lia.
  - intros [= <-]; cbn [amount_count events]; intros H.
    rewrite count_amounts_snoc, (carries_amount_None _ E). lia.
Qed.

Lemma add_event_summed (e : event) (w w1 : EventWindow) :
  add_event e w = (w1, Ok tt) -> Spec.add_event_exact e w = true ->
  Spec.summed w -> Spec.summed w1.
Proof.
  unfold add_event, Spec.add_event_exact, Spec.summed.
  destruct (e !! "amount"%string) as [s|] eqn:E.
  - destruct (to_float s) as [a|] eqn:F; intros [= <-]; cbn [total_amount events].
    apply to_float_Ok in F. rewrite F. intros X [Hf Hs].
    apply exact_add_spec in X as [Xf Xv]. split; [exact Xf|].
    rewrite sum_amounts_snoc. cbn [Spec.sum_amounts]. rewrite E, F. lia.
  - intros [= <-]; cbn [total_amount events]. intros _ [Hf Hs]. split; [exact Hf|].
    rewrite sum_amounts_snoc. cbn [Spec.sum_amounts]. rewrite E. lia.
Qed.

Lemma cleanup_loop_counted (cut : Z) (evs : list event) (total : float) (count : Z)
    (w : EventWindow) :
  cleanup_loop cut evs total count = (w, Ok tt) ->
  count = Spec.count_amounts evs -> Spec.counted w.
Proof.
  unfold Spec.counted. revert total count.
  induction evs as [|e rest IH]; intros total count; cbn [cleanup_loop].
  - intros [= <-] ->. reflexivity.
  - destruct (event_time e) as [d|]; [|discriminate].
    destruct (at_or_after d cut).
    + intros [= <-] ->. reflexivity.
    + rewrite count_amounts_cons.
      destruct (e !! "amount"%string) as [s|] eqn:E.
      * rewrite (carries_amount_Some _ _ E).
        destruct (to_float s); [|discriminate].
        intros H ->. apply (IH _ _ H). lia.
      * rewrite (carries_amount_None _ E). intros H ->. apply (IH _ _ H). lia.
Qed.

Lemma cleanup_loop_summed (cut : Z) (evs : list event) (total : float) (count : Z)
    (w : EventWindow) :
  cleanup_loop cut evs total count = (w, Ok tt) ->
  Spec.cleanup_loop_exact cut evs total = true ->
  Spec.finite total = true /\ Spec.exact_value total = Spec.sum_amounts evs ->
  Spec.summed w.
Proof.
  unfold Spec.summed. revert total count.
  induction evs as [|e rest IH]; intros total count;
    cbn [cleanup_loop Spec.cleanup_loop_exact].
  - intros [= <-] _ H. exact H.
  - destruct (event_time e) as [d|]; [|discriminate].
    destruct (at_or_after d cut).
    + intros [= <-] _ H. exact H.
    + cbn [Spec.sum_amounts].
      destruct (e !! "amount"%string) as [s|] eqn:E.
      * destruct (to_float s) as [a|] eqn:F; [|discriminate].
        apply to_float_Ok in F. rewrite F.
        intros H X [Hf Hs]. apply andb_true_iff in X as [X1 X2].
        apply exact_sub_spec in X1 as [Xf Xv].
        apply (IH _ _ H X2). split; [exact Xf | lia].
      * intros H X Hs. apply (IH _ _ H X Hs).
Qed.

Lemma window_step_counted (c : Spec.window_call) (w w1 : EventWindow) :
  Spec.window_step c w = (w1, Ok tt) -> Spec.counted w -> Spec.counted w1.
Proof.
  destruct c as [e|secs now]; cbn [Spec.window_step].
  - apply add_event_counted.
  - unfold cleanup_old. intros H C. apply (cleanup_loop_counted _ _ _ _ _ H C).
Qed.

Lemma window_step_summed (c : Spec.window_call) (w w1 : EventWindow) :
  Spec.window_step c w = (w1, Ok tt) -> Spec.window_step_exact c w = true ->
  Spec.summed w -> Spec.summed w1.
Proof.
  destruct c as [e|secs now]; cbn [Spec.window_step Spec.window_step_exact].
  - apply add_event_summed.
  - unfold cleanup_old. intros H X S. apply (cleanup_loop_summed _ _ _ _ _ H X S).
Qed.

Lemma window_run_invariant (cs : list Spec.window_call) (w w' : EventWindow) :
  Spec.window_run cs w = (w', Ok tt) ->
  Spec.counted w ->
  Spec.counted w' /\ (Spec.window_run_exact cs w = true -> Spec.summed w -> Spec.summed w').
Proof.
  revert w. induction cs as [|c rest IH]; intros w; cbn [Spec.window_run Spec.window_run_exact].
  - intros [= <-] C. split; [exact C | auto].
  - destruct (Spec.window_step c w) as [w1 [[]|]] eqn:S; [|discriminate].
    intros H C. pose proof (window_step_counted _ _ _ S C) as C1.
    destruct (IH _ H C1) as [C' X']. split; [exact C'|].
    cbn [fst]. intros X Sm. apply andb_true_iff in X as [X1 X2].
    apply X'; [exact X2|]. apply (window_step_summed _ _ _ S X1 Sm).
Qed.

(** C3 (amended).  For every history of [add_event] and [cleanup_old]
    calls on a new window in which no call raises, [amount_count] equals
    the number of retained events that carry an [amount] field; and when
    no addition to and no subtraction from [total_amount] was rounded,
    [total_amount] is finite and its exact value is the exact sum of the
    [amount] fields of the retained events. *)
Theorem window_aggregates (cs : list Spec.window_call) (w : EventWindow) :
  Spec.window_run cs new_window = (w, Ok tt) ->
  amount_count w = Spec.count_amounts (events w) /\
  (Spec.window_run_exact cs new_window = true ->
   Spec.finite (total_amount w) = true
   /\ Spec.exact_value (total_amount w) = Spec.sum_amounts (events w)).
Proof.
  intros H.
  destruct (window_run_invariant cs new_window w H) as [C X]; [reflexivity|].
  split; [exact C|]. intros E. apply X; [exact E|].
  split; reflexivity.
Qed.

End WindowProps.

(** C3 as stated fails: an event of amount 0.1 is inserted, five days
    later an event of amount 0.2 is inserted and the first one is
    evicted; the only retained amount is 0.2 but [total_amount] is
    (0.1 + 0.2) - 0.1 = 0.20000000000000004. *)
Lemma rounding_breaks_total_amount :
  exists w,
    Spec.window_run (rt := Reference.runtime) Examples.rounding_history
      Featurizer.new_window = (w, Ok tt) /\
    Featurizer.events w = [Examples.fresh_record] /\
    Featurizer.amount_or_zero (rt := Reference.runtime) Examples.fresh_record
      = Ok 0.2%float /\
    Featurizer.total_amount w = 0.20000000000000004%float /\
    PrimFloat.eqb (Featurizer.total_amount w) 0.2 = false /\
    Spec.exact_value (Featurizer.total_amount w)
      <> Spec.sum_amounts (rt := Reference.runtime) (Featurizer.events w).
Proof.
  exists (Featurizer.mk_window [Examples.fresh_record] 0.20000000000000004%float 1).
  split; [vm_refl|]. cbn [Featurizer.events Featurizer.total_amount].
  split; [reflexivity|]. split; [vm_refl|].
  split; [reflexivity|]. split; [reflexivity|].
  intros H.
  assert (E : Z.eqb (Spec.exact_value 0.20000000000000004%float)
                (Spec.sum_amounts (rt := Reference.runtime) [Examples.fresh_record])
              = false) by vm_refl.
  rewrite H, Z.eqb_refl in E. discriminate E.
Qed.

(** [window_aggregates] applies to a history whose amounts add and
    subtract exactly. *)
Lemma window_aggregates_witness :
  Spec.window_run (rt := Reference.runtime) Examples.exact_history
    Featurizer.new_window = (Examples.exact_window, Ok tt) /\
  Spec.window_run_exact (rt := Reference.runtime) Examples.exact_history
    Featurizer.new_window = true /\
  Featurizer.amount_count Examples.exact_window
    = Spec.count_amounts (Featurizer.events Examples.exact_window) /\
  Spec.exact_value (Featurizer.total_amount Examples.exact_window)
    = Spec.sum_amounts (rt := Reference.runtime)
        (Featurizer.events Examples.exact_window).
Proof.
  assert (R : Spec.window_run (rt := Reference.runtime) Examples.exact_history
                Featurizer.new_window = (Examples.exact_window, Ok tt))
    by vm_refl.
  assert (X : Spec.window_run_exact (rt := Reference.runtime) Examples.exact_history
                Featurizer.new_window = true) by vm_refl.
  split; [exact R|]. split; [exact X|].
  destruct (window_aggregates (rt := Reference.runtime) Examples.exact_history
              Examples.exact_window R) as [C S].
  split; [exact C | exact (proj2 (S X))].
Defined.


(** ** Featurizer: the published z-score *)
Section ZscoreProps.
Context {rt : Runtime}.

Import Featurizer.

(** The eviction loop does not drop a last event that is recent
    enough. *)
Lemma cleanup_loop_keeps_recent (cut : Z) (evs : list event) (e : event)
    (total : float) (count : Z) (w : EventWindow) (t : datetime) :
  cleanup_loop cut (evs ++ [e]) total count = (w, Ok tt) ->
  event_time e = Ok t -> at_or_after t cut = true ->
  last (events w) = Some e.
Proof.
  intros H T A. revert total count H.
  induction evs as [|first rest IH]; intros total count; cbn [app cleanup_loop].
  - rewrite T, A. intros [= <-]. reflexivity.
  - destruct (event_time first) as [d|]; [|discriminate].
    destruct (at_or_after d cut).
    + intros [= <-]. cbn [events].
      change (first :: rest ++ [e]) with ((first :: rest) ++ [e]). apply last_snoc.
    + destruct (first !! "amount"%string) as [a|]; [|apply IH].
      destruct (to_float a); [apply IH | discriminate].
Qed.

(** A mean that is not a number reads as not positive. *)
Lemma zscore_nan_mean (mean current : float) :
  PrimFloat.is_nan mean = true -> zscore mean current = 0%float.
Proof.
  intros H. unfold zscore, gt.
  destruct (PrimFloat.ltb 0 mean) eqn:E; [|reflexivity].
  apply ltb_not_nan in E. destruct E. congruence.
Qed.

(** C9 (amended).  When [process_event] handles an event of user [uid]
    and returns, the window [w] of the user is the one obtained by
    adding the event and then evicting old events; the event is its last
    retained event whenever its [ts] is not older than 48 hours, and in
    any case unless the eviction emptied the window.  The
    [amount_zscore] written under [features:user:uid] is
    [(current - mean) / mean] when [mean > 0], and 0.0 when [mean <= 0]
    or [mean] is not a number, where [current] is [float] of the amount
    of the event (0.0 if it has none) and [mean] is
    [total_amount / amount_count] of [w] (0.0 when the count is not
    positive).  [amount_count] is the number of retained events that
    carry an amount if it was so before the call; [total_amount] is
    finite and exactly the sum of their amounts if it was so before the
    call and no addition to or subtraction from it was rounded during
    the call. *)
Theorem process_event_amount_zscore (env : penv) (event_data ev : gmap string string)
    (uid : string) (s s' : state) :
  decode_event event_data = Ok ev ->
  ev !! "user_id"%string = Some uid ->
  uid <> EmptyString ->
  process_event env event_data s = (s', Ok tt) ->
  exists w1 w current mean z,
    add_event ev (default new_window (user_windows s !! uid)) = (w1, Ok tt) /\
    cleanup_old 172800 (now env) w1 = (w, Ok tt) /\
    user_windows s' !! uid = Some w /\
    (events w = [] \/ last (events w) = Some ev) /\
    (forall t, event_time ev = Ok t ->
       at_or_after t (cutoff (now env) 172800) = true -> last (events w) = Some ev) /\
    match ev !! "amount"%string with
    | Some a => float_of_str a = Some current
    | None => current = 0%float
    end /\
    (Spec.counted (default new_window (user_windows s !! uid)) ->
       amount_count w = Spec.count_amounts (events w)) /\
    (Spec.summed (default new_window (user_windows s !! uid)) ->
     Spec.add_event_exact ev (default new_window (user_windows s !! uid)) = true ->
     Spec.cleanup_loop_exact (cutoff (now env) 172800) (events w1) (total_amount w1) = true ->
       Spec.finite (total_amount w) = true
       /\ Spec.exact_value (total_amount w) = Spec.sum_amounts (events w)) /\
    (0 < amount_count w ->
       mean = (total_amount w / float_of_Z (amount_count w))%float) /\
    (amount_count w <= 0 -> mean = 0%float) /\
    (hashes (store s') !! redis_key uid) ≫= (fun h => h !! "amount_zscore"%string)
      = Some (PFloat z) /\
    (gt mean 0 = true -> z = ((current - mean) / mean)%float) /\
    (PrimFloat.leb mean 0 = true -> z = 0%float) /\
    (PrimFloat.is_nan mean = true -> z = 0%float).
Proof.
  intros D U Hne. unfold process_event. rewrite D, U.
  rewrite decide_False by exact Hne.
  set (s1 := match user_windows s !! uid with
             | Some _ => s
             | None => set_window uid new_window s
             end).
  assert (W : default new_window (user_windows s1 !! uid)
              = default new_window (user_windows s !! uid)).
  { unfold s1. destruct (user_windows s !! uid) eqn:L.
    - rewrite L. reflexivity.
    - unfold set_window. cbn [user_windows]. rewrite lookup_insert_eq. reflexivity. }
  rewrite W. clear W.
  set (w0 := default new_window (user_windows s !! uid)).
  destruct (event_time ev) as [event_ts|] eqn:T; [|discriminate].
  destruct (add_event ev w0) as [w1 [[]|]] eqn:A; [|discriminate].
  destruct (cleanup_old 172800 (now env) w1) as [w [[]|]] eqn:C; [|discriminate].
  destruct (compute_features ev w (now env)) as [behavioral|] eqn:F; [|discriminate].
  cbn [bind].
  destruct (original_features feature_order ev) as [original|]; [|discriminate].
  cbn [bind].
  destruct (redis_ok env); [|discriminate].
  intros [= <-].
  destruct (compute_features_amount_zscore _ _ _ _ F) as (current & Hcur & Hz).
  exists w1, w, current, (get_user_mean_amount w),
         (zscore (get_user_mean_amount w) current).
  split; [first [exact A | reflexivity]|]. split; [exact C|].
  split. { unfold set_window. cbn [user_windows]. apply lookup_insert_eq. }
  pose proof (add_event_events _ _ _ _ A) as Ev.
  split.
  { unfold cleanup_old in C.
    apply cleanup_loop_suffix in C as [dropped E]. rewrite Ev in E.
    destruct (events w) as [|x l] using rev_ind; [left; reflexivity|right].
    rewrite last_snoc. rewrite app_assoc in E.
    apply app_inj_tail in E as [_ ->]. reflexivity. }
  split.
  { intros t [= <-] R. unfold cleanup_old in C. rewrite Ev in C.
    apply (cleanup_loop_keeps_recent _ _ _ _ _ _ event_ts C T R). }
  split.
  { unfold amount_or_zero in Hcur. destruct (ev !! "amount"%string) as [a|].
    - apply to_float_Ok, Hcur.
    - injection Hcur as <-. reflexivity. }
  split.
  { intros Cn. pose proof (add_event_counted _ _ _ A Cn) as C1.
    unfold cleanup_old in C. apply (cleanup_loop_counted _ _ _ _ _ C C1). }
  split.
  { intros Sm X1 X2. pose proof (add_event_summed _ _ _ A X1 Sm) as S1.
    unfold cleanup_old in C. apply (cleanup_loop_summed _ _ _ _ _ C X2 S1). }
  split.
  { intros Hpos. unfold get_user_mean_amount.
    apply Z.ltb_lt in Hpos. rewrite Hpos. reflexivity. }
  split.
  { intros Hle. unfold get_user_mean_amount.
    apply Z.ltb_ge in Hle. rewrite Hle. reflexivity. }
  split.
  { unfold write_features. cbn [store hashes]. rewrite lookup_insert_eq. cbn [mbind option_bind].
    apply lookup_union_Some_l.
    rewrite lookup_insert_ne by discriminate.
    rewrite lookup_insert_ne by discriminate.
    apply lookup_union_Some_l. exact Hz. }
  split; [apply zscore_positive_mean|].
  split; [apply zscore_nonpositive_mean | apply zscore_nan_mean].
Qed.

End ZscoreProps.

(** C9 as stated fails: an event of amount 0.1 is processed, five days
    later an event of amount 0.2 is processed and the first one is
    evicted.  The only retained event is the current one, so the mean
    over the retained events is 0.2 and the claimed z-score is 0; but
    [total_amount] is (0.1 + 0.2) - 0.1 = 0.20000000000000004 and the
    z-score published is not 0. *)
Lemma rounding_shifts_amount_zscore :
  exists s1 s2 w z,
    Featurizer.process_event (rt := Reference.runtime) Scenarios.env_then
      Examples.stale_record Featurizer.init = (s1, Ok tt) /\
    Featurizer.process_event (rt := Reference.runtime) Examples.env0
      Examples.fresh_record s1 = (s2, Ok tt) /\
    Featurizer.user_windows s2 !! "u1"%string = Some w /\
    Featurizer.events w = [Examples.fresh_record] /\
    Examples.fresh_record !! "amount"%string = Some "0.2"%string /\
    float_of_str (Runtime := Reference.runtime) "0.2" = Some 0.2%float /\
    Spec.count_amounts (Featurizer.events w) = 1 /\
    Spec.sum_amounts (rt := Reference.runtime) (Featurizer.events w)
      = Spec.exact_value 0.2%float /\
    PrimFloat.eqb ((0.2 - 0.2 / 1) / (0.2 / 1)) 0 = true /\
    Featurizer.total_amount w = 0.20000000000000004%float /\
    (Featurizer.hashes (Featurizer.store s2) !! Featurizer.redis_key "u1")
      ≫= (fun h => h !! "amount_zscore"%string) = Some (PFloat z) /\
    z = ((0.2 - 0.20000000000000004) / 0.20000000000000004)%float /\
    PrimFloat.eqb z 0 = false.
Proof.
  exists (fst (Featurizer.process_event (rt := Reference.runtime) Scenarios.env_then
                 Examples.stale_record Featurizer.init)),
         (fst (Featurizer.process_event (rt := Reference.runtime) Examples.env0
                 Examples.fresh_record
                 (fst (Featurizer.process_event (rt := Reference.runtime)
                         Scenarios.env_then Examples.stale_record Featurizer.init)))),
         (Featurizer.mk_window [Examples.fresh_record] 0.20000000000000004%float 1),
         ((0.2 - 0.20000000000000004) / 0.20000000000000004)%float.
  split; [vm_refl|]. split; [vm_refl|]. split; [vm_refl|].
  cbn [Featurizer.events Featurizer.total_amount].
  split; [reflexivity|]. split; [vm_refl|]. split; [vm_refl|].
  split; [vm_refl|]. split; [vm_refl|]. split; [vm_refl|].
  split; [reflexivity|]. split; [vm_refl|].
  split; [reflexivity | vm_refl].
Qed.

(** [process_event_amount_zscore] applies to an event of amount 25.5
    processed half an hour after one of amount 50.0: both are retained,
    the sum 75.5 is exact, the mean is 37.75 and the z-score written is
    (25.5 - 37.75) / 37.75. *)
Lemma process_event_amount_zscore_witness :
  Featurizer.decode_event Examples.recent_record = Ok Examples.recent_record /\
  Examples.recent_record !! "user_id"%string = Some "u1"%string /\
  Featurizer.process_event (rt := Reference.runtime) Examples.env0
    Examples.recent_record Scenarios.after_earlier = (Scenarios.after_recent, Ok tt) /\
  exists w current mean z,
    Featurizer.user_windows Scenarios.after_recent !! "u1"%string = Some w /\
    last (Featurizer.events w) = Some Examples.recent_record /\
    float_of_str (Runtime := Reference.runtime) "25.5" = Some current /\
    Featurizer.amount_count w = Spec.count_amounts (Featurizer.events w) /\
    Spec.exact_value (Featurizer.total_amount w)
      = Spec.sum_amounts (rt := Reference.runtime) (Featurizer.events w) /\
    mean = (Featurizer.total_amount w / float_of_Z (Featurizer.amount_count w))%float /\
    (Featurizer.hashes (Featurizer.store Scenarios.after_recent)
       !! Featurizer.redis_key "u1")
      ≫= (fun h => h !! "amount_zscore"%string) = Some (PFloat z) /\
    z = ((current - mean) / mean)%float.
Proof.
  assert (D : Featurizer.decode_event Examples.recent_record = Ok Examples.recent_record)
    by vm_refl.
  assert (U : Examples.recent_record !! "user_id"%string = Some "u1"%string)
    by vm_refl.
  assert (N : "u1"%string <> EmptyString) by discriminate.
  assert (P : Featurizer.process_event (rt := Reference.runtime) Examples.env0
                Examples.recent_record Scenarios.after_earlier
              = (Scenarios.after_recent, Ok tt)) by vm_refl.
  split; [exact D|]. split; [exact U|]. split; [exact P|].
  destruct (process_event_amount_zscore (rt := Reference.runtime) Examples.env0
              Examples.recent_record Examples.recent_record "u1"
              Scenarios.after_earlier Scenarios.after_recent D U N P)
    as (w1 & w & current & mean & z & A & C & Hw & _ & Hlast & Hcur & Hcount & Hsum
        & Hmean & _ & Hz & Hpos & _ & _).
  assert (W0 : default Featurizer.new_window
                 (Featurizer.user_windows Scenarios.after_earlier !! "u1"%string)
               = Scenarios.earlier_window) by vm_refl.
  rewrite W0 in A, Hcount, Hsum.
  assert (A' : Featurizer.add_event (rt := Reference.runtime) Examples.recent_record
                 Scenarios.earlier_window = (Scenarios.both_window, Ok tt)) by vm_refl.
  rewrite A' in A. injection A as <-.
  assert (C' : Featurizer.cleanup_old (rt := Reference.runtime) 172800
                 (Featurizer.now Examples.env0) Scenarios.both_window
               = (Scenarios.both_window, Ok tt)) by vm_refl.
  rewrite C' in C. injection C as <-.
  exists Scenarios.both_window, current, mean, z.
  split; [exact Hw|].
  split; [apply (Hlast (mk_datetime 2025 1 15 9 30 0 0 None)); vm_refl|].
  split; [assert (L : Examples.recent_record !! "amount"%string = Some "25.5"%string)
            by vm_refl; rewrite L in Hcur; exact Hcur|].
  split; [apply Hcount; unfold Spec.counted; vm_refl|].
  split; [apply Hsum; [split; vm_refl | vm_refl | vm_refl]|].
  assert (M : mean = (Featurizer.total_amount Scenarios.both_window
                      / float_of_Z (Featurizer.amount_count Scenarios.both_window))%float)
    by (apply Hmean; vm_compute; reflexivity).
  split; [exact M|]. split; [exact Hz|].
  apply Hpos. rewrite M. vm_refl.
Defined.

(** ** Ingest: conservation of events in the Parquet writer *)
Section WriterProps.
Context {rt : Runtime}.

Import S3Writer.

(** [add_event] puts the event at the end of the buffer and touches
    nothing else. *)
Lemma add_event_buffer (e : event) (w : ParquetWriter) :
  buffer (add_event e w) = buffer w ++ [e].
Proof. reflexivity. Qed.

(** A flush of an empty buffer returns 0 and changes nothing. *)
Lemma flush_empty (env : io) (s : state) :
  buffer (writer s) = [] -> flush env s = (s, Ok 0).
Proof. intros H. unfold flush. rewrite H. reflexivity. Qed.

(** The happy path: the whole buffer becomes the rows of one file, which
    replaces a file of the same path if there is one; the buffer is
    empty afterwards, and the call returns the number of events. *)
Lemma flush_success (env : io) (s : state) (first : event) (rest : list event)
    (d : datetime) :
  buffer (writer s) = first :: rest ->
  first_event_ts first = Ok d ->
  mkdir_ok env = true -> write_ok env = true ->
  flush env s
    = (mk_state (set_buffer (writer s) [])
         (write_table (file_path (base_path (writer s)) d (uuid8 env))
                      (first :: rest) (disk s)),
       Ok (Z.of_nat (length (first :: rest)))).
Proof.
  intros B T M W. unfold flush, complete. rewrite B, T, M, W. reflexivity.
Qed.

(** A failed write: the snapshot is put back in front of the buffer, in
    its order, no file appears, and the error is raised. *)
Lemma complete_write_failure (env : io) (s : state) (first : event)
    (rest : list event) (d : datetime) :
  first_event_ts first = Ok d ->
  mkdir_ok env = true -> write_ok env = false ->
  complete env (first :: rest) s
    = (mk_state (set_buffer (writer s) ((first :: rest) ++ buffer (writer s))) (disk s),
       Raise ArrowError).
Proof. intros T M W. unfold complete. rewrite T, M, W. reflexivity. Qed.

Lemma flush_write_failure (env : io) (s : state) (first : event) (rest : list event)
    (d : datetime) :
  buffer (writer s) = first :: rest ->
  first_event_ts first = Ok d ->
  mkdir_ok env = true -> write_ok env = false ->
  exists s',
    flush env s = (s', Raise ArrowError) /\
    buffer (writer s') = buffer (writer s) /\
    disk s' = disk s.
Proof.
  intros B T M W. unfold flush. rewrite B.
  rewrite (complete_write_failure env _ first rest d T M W).
  eexists. split; [reflexivity|]. cbn [writer buffer set_buffer disk].
  rewrite app_nil_r. auto.
Qed.

(** An error raised between the first locked region and the [try]
    (the [ts] of the first event, the partition directory) leaves the
    state as the first locked region left it: the snapshot is neither
    written nor put back. *)
Lemma complete_error_before_try (env : io) (s : state) (first : event)
    (rest : list event) :
  is_ok (first_event_ts first) = false \/ mkdir_ok env = false ->
  fst (complete env (first :: rest) s) = s
  /\ is_ok (snd (complete env (first :: rest) s)) = false.
Proof.
  unfold complete. intros [H|H].
  - destruct (first_event_ts first); [discriminate | split; reflexivity].
  - destruct (first_event_ts first); rewrite ?H; split; reflexivity.
Qed.

Lemma written_app (d1 d2 : list blob) : written (d1 ++ d2) = written d1 ++ written d2.
Proof. unfold written. apply flat_map_app. Qed.

(** *** File names *)

Lemma string_app_cons (c : ascii) (a b : string) :
  (String c a ++ b)%string = String c (a ++ b)%string.
Proof. reflexivity. Qed.

Lemma string_app_assoc (a b c : string) : ((a ++ b) ++ c = a ++ (b ++ c))%string.
Proof.
  induction a as [|x a IH]; [reflexivity|].
  rewrite !string_app_cons, IH. reflexivity.
Qed.

Lemma string_length_app (a b : string) :
  String.length (a ++ b) = (String.length a + String.length b)%nat.
Proof.
  induction a as [|x a IH]; [reflexivity|].
  rewrite string_app_cons. cbn [String.length]. rewrite IH. reflexivity.
Qed.

(** Two strings that end in parts of the same length are equal part by
    part. *)
Lemma string_app_inj_length (a1 a2 b1 b2 : string) :
  String.length b1 = String.length b2 ->
  (a1 ++ b1 = a2 ++ b2)%string -> a1 = a2 /\ b1 = b2.
Proof.
  intros L. revert a2. induction a1 as [|x a1 IH]; intros [|y a2] E.
  - split; [reflexivity | exact E].
  - exfalso. change (EmptyString ++ b1)%string with b1 in E. subst b1.
    rewrite string_length_app in L. cbn [String.length] in L. lia.
  - exfalso. change (EmptyString ++ b2)%string with b2 in E. subst b2.
    rewrite string_length_app in L. cbn [String.length] in L. lia.
  - rewrite !string_app_cons in E. injection E as -> E.
    destruct (IH a2 E) as [-> ->]. split; reflexivity.
Qed.

(** The path of a file tells the name it was given, for names of one
    length. *)
Lemma file_path_name_inj (base : string) (t1 t2 : datetime) (u1 u2 : string) :
  String.length u1 = String.length u2 ->
  file_path base t1 u1 = file_path base t2 u2 -> u1 = u2.
Proof.
  intros L E. unfold file_path in E.
  rewrite <- !string_app_assoc in E.
  apply string_app_inj_length in E as [E _]; [|reflexivity].
  apply string_app_inj_length in E as [_ E]; [exact E | exact L].
Qed.

(** A name that was not drawn before gives a path that no file has. *)
Lemma fresh_path (seen : list string) (base : string) (d : list blob)
    (t : datetime) (u : string) :
  Spec.named_by seen base d ->
  Spec.distinct_names (seen ++ [u]) ->
  Forall (fun b => blob_path b <> file_path base t u) d.
Proof.
  intros N [D L]. unfold Spec.named_by in N.
  rewrite Forall_forall in N. apply Forall_forall. intros b Hb E.
  destruct (N b Hb) as (t' & u' & Hu & P). rewrite P in E.
  apply Forall_app in L as [L Lu]. apply List.Forall_inv in Lu.
  rewrite Forall_forall in L. specialize (L u' Hu).
  cbn beta in L, Lu.
  assert (Lq : String.length u' = String.length u) by (rewrite L, Lu; reflexivity).
  apply (file_path_name_inj _ _ _ _ _ Lq) in E. subst u'.
  apply NoDup_app in D as (_ & D & _). apply (D u Hu), list_elem_of_here.
Qed.

(** Writing under a path that no file has adds a file and touches no
    other. *)
Lemma write_table_fresh (path : string) (rows : list event) (d : list blob) :
  Forall (fun b => blob_path b <> path) d ->
  write_table path rows d = d ++ [mk_blob path rows].
Proof.
  intros F. unfold write_table. f_equal.
  induction d as [|b d IH]; [reflexivity|].
  apply Forall_cons in F as [Fb F]. cbn [List.filter].
  apply String.eqb_neq in Fb. rewrite Fb. cbn [negb]. rewrite (IH F). reflexivity.
Qed.

(** After a write the file at that path holds the rows written, and
    every other path reads as before. *)
Lemma read_table_write_table (path p : string) (rows : list event) (d : list blob) :
  read_table (write_table path rows d) p
    = if String.eqb p path then Some rows else read_table d p.
Proof.
  unfold read_table, write_table.
  induction d as [|b d IH]; cbn [List.filter app List.find blob_path].
  - rewrite (String.eqb_sym path p). destruct (String.eqb p path); reflexivity.
  - destruct (String.eqb (blob_path b) path) eqn:B; cbn [negb app List.find].
    + rewrite IH. apply String.eqb_eq in B. rewrite B, (String.eqb_sym path p).
      destruct (String.eqb p path); reflexivity.
    + destruct (String.eqb (blob_path b) p) eqn:Bp.
      * apply String.eqb_eq in Bp. subst p. rewrite B. reflexivity.
      * exact IH.
Qed.

Lemma read_table_None (d : list blob) (path : string) :
  read_table d path = None -> Forall (fun b => blob_path b <> path) d.
Proof.
  unfold read_table. intros H. apply Forall_forall. intros b Hb E.
  destruct (List.find (fun b => String.eqb (blob_path b) path) d) as [x|] eqn:F;
    [discriminate|].
  apply list_elem_of_In in Hb. pose proof (find_none _ _ F b Hb) as X. cbn in X.
  apply String.eqb_neq in X. contradiction.
Qed.

Lemma named_by_more (seen seen' : list string) (base : string) (d : list blob) :
  seen ⊆ seen' -> Spec.named_by seen base d -> Spec.named_by seen' base d.
Proof.
  intros S N. unfold Spec.named_by in *. eapply Forall_impl; [exact N|].
  intros b (t & u & Hu & P). exists t, u. split; [apply S, Hu | exact P].
Qed.

Lemma distinct_names_app_l (l1 l2 : list string) :
  Spec.distinct_names (l1 ++ l2) -> Spec.distinct_names l1.
Proof.
  intros [D L]. split.
  - apply NoDup_app in D as (D & _). exact D.
  - apply Forall_app in L as [L _]. exact L.
Qed.

(** *** The rest of a flush *)

(** The rest of a flush whose snapshot has a readable first [ts], whose
    directory can be made and whose file name is new moves the snapshot
    into a file or back into the buffer, in its order. *)
Lemma complete_conserves (env : io) (snap : list event) (s : state)
    (seen : list string) :
  Forall (fun e => Spec.parseable e = true) snap ->
  mkdir_ok env = true ->
  Spec.named_by seen (base_path (writer s)) (disk s) ->
  Spec.distinct_names (seen ++ [uuid8 env]) ->
  written (disk (fst (complete env snap s))) ++ buffer (writer (fst (complete env snap s)))
    = written (disk s) ++ snap ++ buffer (writer s)
  /\ base_path (writer (fst (complete env snap s))) = base_path (writer s)
  /\ Spec.named_by (seen ++ [uuid8 env]) (base_path (writer s))
       (disk (fst (complete env snap s))).
Proof.
  intros P M N D.
  assert (N' : Spec.named_by (seen ++ [uuid8 env]) (base_path (writer s)) (disk s)).
  { apply (named_by_more seen); [|exact N]. intros x Hx. apply elem_of_app. left. exact Hx. }
  unfold complete.
  destruct snap as [|first rest]; [auto|].
  apply Forall_cons in P as [P _]. unfold Spec.parseable in P.
  destruct (first_event_ts first) as [d|]; [|discriminate].
  rewrite M. cbn [negb]. destruct (write_ok env); cbn [fst disk writer buffer set_buffer base_path].
  - rewrite (write_table_fresh _ _ _ (fresh_path seen _ _ d _ N D)).
    split; [|split; [reflexivity|]].
    + rewrite written_app. unfold written at 2. cbn [flat_map blob_rows].
      rewrite app_nil_r, <- app_assoc. reflexivity.
    + unfold Spec.named_by. apply Forall_app. split; [exact N'|].
      apply Forall_singleton. exists d, (uuid8 env). split; [|reflexivity].
      apply elem_of_app. right. apply list_elem_of_here.
  - auto.
Qed.

Lemma complete_buffer_parseable (env : io) (snap : list event) (s : state) :
  Forall (fun e => Spec.parseable e = true) snap ->
  Forall (fun e => Spec.parseable e = true) (buffer (writer s)) ->
  Forall (fun e => Spec.parseable e = true) (buffer (writer (fst (complete env snap s)))).
Proof.
  intros Ps P. unfold complete.
  destruct snap as [|first rest]; [exact P|].
  destruct (first_event_ts first) as [d|]; [|exact P].
  destruct (negb (mkdir_ok env)); [exact P|].
  destruct (write_ok env); cbn [fst writer buffer set_buffer]; [exact P|].
  apply Forall_app. split; assumption.
Qed.

(** *** Calls that run from start to end *)

Lemma flush_conserves (env : io) (s : state) (seen : list string) :
  Forall (fun e => Spec.parseable e = true) (buffer (writer s)) ->
  mkdir_ok env = true ->
  Spec.named_by seen (base_path (writer s)) (disk s) ->
  Spec.distinct_names (seen ++ [uuid8 env]) ->
  written (disk (fst (flush env s))) ++ buffer (writer (fst (flush env s)))
    = written (disk s) ++ buffer (writer s)
  /\ base_path (writer (fst (flush env s))) = base_path (writer s)
  /\ Spec.named_by (seen ++ [uuid8 env]) (base_path (writer s)) (disk (fst (flush env s))).
Proof.
  intros P M N D. unfold flush.
  destruct (buffer (writer s)) as [|first rest] eqn:B.
  - cbn [fst]. rewrite B. split; [reflexivity|]. split; [reflexivity|].
    apply (named_by_more seen); [|exact N]. intros x Hx. apply elem_of_app. left. exact Hx.
  - destruct (complete_conserves env (first :: rest)
                (mk_state (set_buffer (writer s) []) (disk s)) seen P M N D)
      as (C & Bp & Nn).
    cbn [disk writer buffer set_buffer base_path] in C, Bp, Nn.
    rewrite app_nil_r in C. auto.
Qed.

Lemma flush_buffer_parseable (env : io) (s : state) :
  Forall (fun e => Spec.parseable e = true) (buffer (writer s)) ->
  Forall (fun e => Spec.parseable e = true) (buffer (writer (fst (flush env s)))).
Proof.
  intros P. unfold flush.
  destruct (buffer (writer s)) as [|first rest] eqn:B; [cbn [fst]; rewrite B; exact P|].
  apply complete_buffer_parseable; [exact P | apply Forall_nil; exact I].
Qed.

(** Conservation over a history of safe calls whose file names are new:
    the rows of the files followed by the buffer are the events that
    were there followed by the events enqueued. *)
Lemma run_conserves (cs : list call) (s : state) (seen : list string) :
  Forall (fun c => Spec.safe_call c = true) cs ->
  Forall (fun e => Spec.parseable e = true) (buffer (writer s)) ->
  Spec.named_by seen (base_path (writer s)) (disk s) ->
  Spec.distinct_names (seen ++ names cs) ->
  written (disk (run cs s)) ++ buffer (writer (run cs s))
    = written (disk s) ++ buffer (writer s) ++ enqueued cs
  /\ Forall (fun e => Spec.parseable e = true) (buffer (writer (run cs s)))
  /\ base_path (writer (run cs s)) = base_path (writer s)
  /\ Spec.named_by (seen ++ names cs) (base_path (writer s)) (disk (run cs s)).
Proof.
  revert s seen. induction cs as [|c rest IH]; intros s seen Hs P N D;
    cbn [run fold_left enqueued names flat_map].
  - rewrite !app_nil_r. auto.
  - apply Forall_cons in Hs as [Hc Hs].
    fold (run rest (step s c)). fold (enqueued rest). fold (names rest).
    cbn [names flat_map] in D. fold (names rest) in D.
    destruct c as [e|env]; cbn [Spec.safe_call] in Hc; cbn [step app] in *.
    + destruct (IH (mk_state (add_event e (writer s)) (disk s)) seen Hs) as (C & P' & B & N');
        [cbn [writer]; rewrite add_event_buffer; apply Forall_app; split;
           [exact P | apply Forall_singleton; exact Hc]
        | exact N | exact D |].
      cbn [disk writer] in C, B, N'. rewrite add_event_buffer in C.
      rewrite C, <- !app_assoc. auto.
    + rewrite cons_middle, app_assoc in D |- *.
      pose proof (distinct_names_app_l _ _ D) as Du.
      destruct (flush_conserves env s seen P Hc N Du) as (C & B & N').
      destruct (IH (fst (flush env s)) (seen ++ [uuid8 env]) Hs) as (C2 & P2 & B2 & N2);
        [apply flush_buffer_parseable, P | rewrite B; exact N' | exact D |].
      rewrite B in B2, N2. rewrite C2, app_assoc, C, <- app_assoc.
      rewrite <- ?app_assoc in N2. cbn [app] in N2 |- *. auto.
Qed.

(** *** Interleaved locked regions *)

Lemma concat_delete (l : list (list event)) (i : nat) (x : list event) :
  l !! i = Some x -> concat l ≡ₚ x ++ concat (delete i l).
Proof.
  revert i. induction l as [|y l IH]; intros [|i]; cbn; try discriminate.
  - intros [= ->]. reflexivity.
  - intros H. rewrite (IH i H), !app_assoc, (Permutation_app_comm y x). reflexivity.
Qed.

(** What a pool holds: the rows written, the buffer, and the snapshots
    in flight. *)
Lemma act_conserves (a : action) (p : pool) (seen : list string) :
  Spec.safe_action a = true ->
  Forall (fun e => Spec.parseable e = true) (buffer (writer (shared p))) ->
  Forall (Forall (fun e => Spec.parseable e = true)) (in_flight p) ->
  Spec.named_by seen (base_path (writer (shared p))) (disk (shared p)) ->
  Spec.distinct_names (seen ++ names_by [a]) ->
  (written (disk (shared (act p a))) ++ buffer (writer (shared (act p a)))
     ++ concat (in_flight (act p a))
   ≡ₚ (written (disk (shared p)) ++ buffer (writer (shared p))
       ++ concat (in_flight p)) ++ enqueued_by [a])
  /\ Forall (fun e => Spec.parseable e = true) (buffer (writer (shared (act p a))))
  /\ Forall (Forall (fun e => Spec.parseable e = true)) (in_flight (act p a))
  /\ base_path (writer (shared (act p a))) = base_path (writer (shared p))
  /\ Spec.named_by (seen ++ names_by [a]) (base_path (writer (shared p)))
       (disk (shared (act p a))).
Proof.
  intros Ha P F N D.
  assert (E : names_by [a] = match a with Complete _ env => [uuid8 env] | _ => [] end)
    by (destruct a; reflexivity).
  rewrite E in D |- *. clear E.
  assert (N' : Spec.named_by (seen ++ match a with Complete _ env => [uuid8 env] | _ => [] end)
                 (base_path (writer (shared p))) (disk (shared p))).
  { apply (named_by_more seen); [|exact N]. intros x Hx. apply elem_of_app. left. exact Hx. }
  destruct a as [e| |i env];
    cbn [act Spec.safe_action enqueued_by flat_map] in *;
    rewrite ?app_nil_r in *.
  - cbn [shared in_flight disk writer]. rewrite add_event_buffer.
    split; [|split; [|split; [|split]]].
    + rewrite <- !app_assoc.
      apply Permutation_app_head, Permutation_app_head, Permutation_app_comm.
    + apply Forall_app. split; [exact P | apply Forall_singleton; exact Ha].
    + exact F.
    + reflexivity.
    + exact N'.
  - destruct (buffer (writer (shared p))) as [|first rest] eqn:B.
    + rewrite B. auto 6.
    + cbn [shared in_flight disk writer buffer set_buffer base_path].
      split; [|split; [|split; [|split]]].
      * rewrite concat_app. cbn [concat]. rewrite app_nil_r, app_nil_l.
        apply Permutation_app_head, Permutation_app_comm.
      * apply Forall_nil; exact I.
      * apply Forall_app. split; [exact F | apply Forall_singleton; exact P].
      * reflexivity.
      * exact N'.
  - destruct (in_flight p !! i) as [snap|] eqn:L; [|auto 6].
    cbn [shared in_flight].
    assert (Ps : Forall (fun e => Spec.parseable e = true) snap)
      by (apply (Forall_lookup_1 _ _ _ _ F L)).
    destruct (complete_conserves env snap (shared p) seen Ps Ha N D) as (C & Bp & Nn).
    split; [|split; [|split; [|split]]].
    + rewrite app_assoc, C.
      rewrite (concat_delete _ _ _ L), <- !app_assoc.
      apply Permutation_app_head.
      rewrite !app_assoc. apply Permutation_app_tail, Permutation_app_comm.
    + apply complete_buffer_parseable; assumption.
    + apply Forall_delete, F.
    + exact Bp.
    + exact Nn.
Qed.

(** Conservation for every interleaving of [add_event] calls and of the
    two parts of [flush] calls, as long as no flush fails before its
    [try] and no file name is drawn twice: at every moment the rows
    written, the buffer and the snapshots in flight hold, as a multiset,
    the events enqueued. *)
Lemma interleave_conserves (acts : list action) (base : string) (interval size : Z) :
  Forall (fun a => Spec.safe_action a = true) acts ->
  Spec.distinct_names (names_by acts) ->
  let p := interleave acts (mk_pool (init base interval size) []) in
  written (disk (shared p)) ++ buffer (writer (shared p)) ++ concat (in_flight p)
    ≡ₚ enqueued_by acts.
Proof.
  intros Hs D.
  assert (G : forall p0 seen,
    Forall (fun e => Spec.parseable e = true) (buffer (writer (shared p0))) ->
    Forall (Forall (fun e => Spec.parseable e = true)) (in_flight p0) ->
    Spec.named_by seen (base_path (writer (shared p0))) (disk (shared p0)) ->
    Spec.distinct_names (seen ++ names_by acts) ->
    written (disk (shared (interleave acts p0)))
      ++ buffer (writer (shared (interleave acts p0)))
      ++ concat (in_flight (interleave acts p0))
    ≡ₚ (written (disk (shared p0)) ++ buffer (writer (shared p0))
        ++ concat (in_flight p0)) ++ enqueued_by acts).
  { clear D. induction acts as [|a rest IH]; intros p0 seen P F N D;
      cbn [interleave fold_left enqueued_by names_by flat_map].
    - rewrite app_nil_r. reflexivity.
    - apply Forall_cons in Hs as [Ha Hs].
      fold (interleave rest (act p0 a)). fold (enqueued_by rest).
      cbn [names_by flat_map] in D. fold (names_by rest) in D.
      assert (E : names_by [a] = match a with Complete _ env => [uuid8 env] | _ => [] end)
        by (cbn [names_by flat_map]; apply app_nil_r).
      rewrite <- E, app_assoc in D.
      destruct (act_conserves a p0 seen Ha P F N (distinct_names_app_l _ _ D))
        as (C & P' & F' & Bp & N').
      rewrite <- Bp in N'.
      rewrite (IH Hs _ _ P' F' N' D), C. cbn [enqueued_by flat_map].
      rewrite app_nil_r, <- !app_assoc. reflexivity. }
  intros p. unfold p. rewrite (G _ []); [reflexivity | apply Forall_nil; exact I
    | apply Forall_nil; exact I | apply Forall_nil; exact I | exact D].
Qed.

(** A [flush] that no other task interrupts is its two parts in a row. *)
Lemma flush_uninterrupted (env : io) (s : state) :
  shared (interleave [Snapshot; Complete 0 env] (mk_pool s [])) = fst (flush env s)
  /\ in_flight (interleave [Snapshot; Complete 0 env] (mk_pool s [])) = [].
Proof.
  unfold flush. cbn [interleave fold_left act shared in_flight].
  destruct (buffer (writer s)) as [|first rest]; cbn; auto.
Qed.

End WriterProps.

(** C1 (the code departs from it).  Two events are enqueued and the
    buffer is flushed while the store accepts every write.  The first
    event carries a [ts] that the ingest schema accepts (any string) and
    [fromisoformat] rejects: the flush raises before its [try], after the
    buffer has been emptied, so both events are in no file and no longer
    in the buffer. *)
Theorem flush_loses_batch_on_unreadable_ts :
  snd (S3Writer.flush (rt := Reference.runtime) Examples.io_ok
         (S3Writer.run (rt := Reference.runtime)
            [ S3Writer.AddEvent Examples.bad_ts_event;
              S3Writer.AddEvent Examples.good_event ] Examples.writer0))
    = Raise ValueError /\
  S3Writer.enqueued Examples.poisoned_batch
    = [ Examples.bad_ts_event; Examples.good_event ] /\
  S3Writer.written
    (S3Writer.disk (S3Writer.run (rt := Reference.runtime) Examples.poisoned_batch
                      Examples.writer0))
  ++ S3Writer.buffer
       (S3Writer.writer (S3Writer.run (rt := Reference.runtime) Examples.poisoned_batch
                           Examples.writer0)) = [].
Proof.
  split; [vm_refl|]. split; [vm_refl | vm_refl].
Qed.

(* ===================================================================== *)
(** * Part III.  Further properties of the code                           *)
(* ===================================================================== *)

(** ** Ingest: what a flush returns, retries, shutdown *)
Section WriterOutcomes.
Context {rt : Runtime}.

Import S3Writer.

(** [first_event_ts] raises [KeyError], [AttributeError] or
    [ValueError], never the error of a failed write. *)
Lemma first_event_ts_not_ArrowError (e : event) :
  first_event_ts e <> Raise ArrowError.
Proof.
  unfold first_event_ts, parse_iso.
  destruct (e !! "ts"%string) as [[s|f|z]|]; try discriminate.
  destruct (fromisoformat (replace_Z s)); discriminate.
Qed.

(** X1.  When [flush] returns a number, that number is the size of the
    buffer before the call and the buffer is empty afterwards.  A return
    value of 0 means that nothing changed.  A positive one means that
    the file at the path made of the date and hour of the first buffered
    event and of the name drawn now holds the whole buffer and nothing
    else, a file that was at this path being replaced, and that every
    other path reads as before; when no file was at this path, the rows
    of the files are the old rows followed by the old buffer. *)
Theorem flush_returns_count (env : io) (s s' : state) (n : Z) :
  flush env s = (s', Ok n) ->
  n = get_buffer_size (writer s) /\
  get_buffer_size (writer s') = 0 /\
  (n = 0 -> s' = s) /\
  (0 < n ->
   exists first d,
     head (buffer (writer s)) = Some first /\
     first_event_ts first = Ok d /\
     read_table (disk s') (file_path (base_path (writer s)) d (uuid8 env))
       = Some (buffer (writer s)) /\
     (forall p, p <> file_path (base_path (writer s)) d (uuid8 env) ->
        read_table (disk s') p = read_table (disk s) p) /\
     (read_table (disk s) (file_path (base_path (writer s)) d (uuid8 env)) = None ->
        disk s' = disk s ++ [mk_blob (file_path (base_path (writer s)) d (uuid8 env))
                                     (buffer (writer s))]
        /\ written (disk s') = written (disk s) ++ buffer (writer s))).
Proof.
  unfold flush, get_buffer_size.
  destruct (buffer (writer s)) as [|first rest] eqn:B.
  - intros [= <- <-]. rewrite B. repeat split; auto. cbn [length]. lia.
  - unfold complete.
    destruct (first_event_ts first) as [d|x] eqn:T; [|discriminate].
    destruct (mkdir_ok env); cbn [negb]; [|discriminate].
    destruct (write_ok env); [|discriminate].
    intros [= <- <-]. cbn [writer disk buffer set_buffer length base_path].
    split; [reflexivity|]. split; [reflexivity|].
    split; [intros H; cbn [length] in H; lia|].
    intros _. exists first, d. split; [reflexivity|]. split; [exact T|].
    split; [|split].
    + rewrite read_table_write_table, String.eqb_refl. reflexivity.
    + intros p Hp. rewrite read_table_write_table.
      apply String.eqb_neq in Hp. rewrite Hp. reflexivity.
    + intros R. rewrite (write_table_fresh _ _ _ (read_table_None _ _ R)).
      split; [reflexivity|].
      rewrite written_app. unfold written at 2. cbn [flat_map blob_rows].
      rewrite app_nil_r. reflexivity.
Qed.

(** X2.  When [flush] raises, no file has been written.  Either the write
    failed ([ArrowError]): then the buffer is what it was before the
    call.  Or the error came before the [try] (the [ts] of the first
    event, the partition directory): then the error is not that of a
    write and the buffer is left empty. *)
Theorem flush_raises (env : io) (s s' : state) (e : exn) :
  flush env s = (s', Raise e) ->
  disk s' = disk s /\
  exists first,
    head (buffer (writer s)) = Some first /\
    ((is_ok (first_event_ts first) = true /\ mkdir_ok env = true
      /\ write_ok env = false /\ e = ArrowError
      /\ buffer (writer s') = buffer (writer s))
     \/
     ((first_event_ts first = Raise e
       \/ (is_ok (first_event_ts first) = true /\ mkdir_ok env = false /\ e = OSError))
      /\ e <> ArrowError /\ buffer (writer s') = [])).
Proof.
  unfold flush.
  destruct (buffer (writer s)) as [|first rest] eqn:B; [discriminate|].
  unfold complete.
  destruct (first_event_ts first) as [d|x] eqn:T.
  - destruct (mkdir_ok env); cbn [negb].
    + destruct (write_ok env); [discriminate|].
      intros [= <- <-]. cbn [disk writer buffer set_buffer].
      split; [reflexivity|]. exists first. split; [reflexivity|]. left.
      rewrite T, app_nil_r. repeat split; reflexivity.
    + intros [= <- <-]. cbn [disk writer buffer set_buffer].
      split; [reflexivity|]. exists first. split; [reflexivity|]. right.
      rewrite T. split; [right; repeat split; reflexivity|].
      split; [discriminate | reflexivity].
  - intros [= <- <-]. cbn [disk writer buffer set_buffer].
    split; [reflexivity|]. exists first. split; [reflexivity|]. right.
    rewrite T. split; [left; reflexivity|]. split; [|reflexivity].
    intros ->. exact (first_event_ts_not_ArrowError first T).
Qed.

(** A turn of the flusher in which the write fails leaves the buffer
    and the files as they were. *)
Lemma flusher_turn_write_failure (env : io) (s : state) (first : event)
    (rest : list event) (d : datetime) :
  buffer (writer s) = first :: rest ->
  first_event_ts first = Ok d ->
  mkdir_ok env = true -> write_ok env = false ->
  buffer (writer (flusher_turn env s)) = buffer (writer s)
  /\ disk (flusher_turn env s) = disk s
  /\ base_path (writer (flusher_turn env s)) = base_path (writer s)
  /\ flush_interval (writer (flusher_turn env s)) = flush_interval (writer s)
  /\ batch_size (writer (flusher_turn env s)) = batch_size (writer s).
Proof.
  intros B T M W. unfold flusher_turn. rewrite B. cbn [length].
  replace (0 <? Z.of_nat (S (length rest))) with true by (symmetry; apply Z.ltb_lt; lia).
  unfold flush. rewrite B, (complete_write_failure env _ first rest d T M W).
  cbn [fst writer buffer set_buffer disk base_path flush_interval batch_size].
  rewrite app_nil_r. auto.
Qed.

(** X3.  The background flusher retries: after any number of turns in
    which the write fails, the first turn in which it succeeds writes
    the whole buffer, in its order, into one file, and empties the
    buffer.  The file replaces a file of the same path if there is one;
    when there is none, the files are the old ones and the new one. *)
Theorem flusher_retries_failed_write (failed : list io) (env : io) (s : state)
    (first : event) (rest : list event) (d : datetime) :
  buffer (writer s) = first :: rest ->
  first_event_ts first = Ok d ->
  Forall (fun env => mkdir_ok env = true /\ write_ok env = false) failed ->
  mkdir_ok env = true -> write_ok env = true ->
  start_background_flusher (failed ++ [env]) s
    = mk_state (set_buffer (writer s) [])
        (write_table (file_path (base_path (writer s)) d (uuid8 env))
                     (first :: rest) (disk s))
  /\ (read_table (disk s) (file_path (base_path (writer s)) d (uuid8 env)) = None ->
      start_background_flusher (failed ++ [env]) s
        = mk_state (set_buffer (writer s) [])
            (disk s ++ [mk_blob (file_path (base_path (writer s)) d (uuid8 env))
                                (first :: rest)])).
Proof.
  intros B T F M W.
  assert (E : start_background_flusher (failed ++ [env]) s
              = mk_state (set_buffer (writer s) [])
                  (write_table (file_path (base_path (writer s)) d (uuid8 env))
                               (first :: rest) (disk s))).
  { revert s B. unfold start_background_flusher.
    induction failed as [|env1 failed IH]; intros s B.
    - cbn [app fold_left]. unfold flusher_turn. rewrite B. cbn [length].
      replace (0 <? Z.of_nat (S (length rest))) with true by (symmetry; apply Z.ltb_lt; lia).
      rewrite (flush_success env s first rest d B T M W). reflexivity.
    - apply Forall_cons in F as [[M1 W1] F]. cbn [app fold_left].
      destruct (flusher_turn_write_failure env1 s first rest d B T M1 W1)
        as (B1 & D1 & P1 & I1 & S1).
      rewrite (IH F (flusher_turn env1 s)) by (rewrite B1; exact B).
      unfold set_buffer. rewrite D1, P1, I1, S1. reflexivity. }
  split; [exact E|].
  intros R. rewrite E, (write_table_fresh _ _ _ (read_table_None _ _ R)). reflexivity.
Qed.

(** X4.  The final flush of the shutdown sequence: after any history of
    [add_event] and [flush] calls on a new writer in which every event
    has a readable [ts], every partition directory could be made and no
    file name was drawn twice, a last [flush] with a working store and a
    new name returns, leaves the buffer empty, and the files then hold
    exactly the events that were enqueued (as a multiset). *)
Theorem final_flush_writes_everything (cs : list call) (env : io) (base : string)
    (interval size : Z) :
  Forall (fun c => Spec.safe_call c = true) cs ->
  Spec.distinct_names (names cs ++ [uuid8 env]) ->
  mkdir_ok env = true -> write_ok env = true ->
  is_ok (snd (flush env (run cs (init base interval size)))) = true /\
  buffer (writer (fst (flush env (run cs (init base interval size))))) = [] /\
  written (disk (fst (flush env (run cs (init base interval size))))) ≡ₚ enqueued cs.
Proof.
  intros Hs D M W.
  assert (P0 : Forall (fun e => Spec.parseable e = true)
                 (buffer (writer (init base interval size))))
    by (apply Forall_nil; exact I).
  assert (N0 : Spec.named_by [] (base_path (writer (init base interval size)))
                 (disk (init base interval size)))
    by (apply Forall_nil; exact I).
  destruct (run_conserves cs _ [] Hs P0 N0 (distinct_names_app_l _ _ D))
    as (C & P & Bp & N).
  cbn [init disk writer buffer new_writer written flat_map app base_path] in C, Bp, N.
  set (r := run cs (init base interval size)) in *.
  destruct (buffer (writer r)) as [|first rest] eqn:B.
  - rewrite (flush_empty env r B). cbn [fst snd is_ok].
    rewrite B. rewrite app_nil_r in C. rewrite C. auto.
  - apply Forall_cons in P as [P _]. unfold Spec.parseable in P.
    destruct (first_event_ts first) as [d|] eqn:T; [|discriminate].
    rewrite (flush_success env r first rest d B T M W).
    cbn [fst snd is_ok writer buffer set_buffer disk].
    split; [reflexivity|]. split; [reflexivity|].
    rewrite Bp.
    rewrite (write_table_fresh _ _ _ (fresh_path (names cs) base (disk r) d _ N D)).
    rewrite written_app. unfold written at 2. cbn [flat_map blob_rows].
    rewrite app_nil_r, C. reflexivity.
Qed.

(** X5.  Conservation under interleaving: however [add_event] calls and
    the two locked regions of concurrent [flush] calls are interleaved
    on a new writer, as long as every event has a readable [ts], every
    partition directory can be made and no file name is drawn twice, the
    rows written, the buffer and the snapshots of the flushes in flight
    hold, as a multiset, exactly the events enqueued; once no flush is
    in flight, files and buffer hold them all. *)
Theorem interleaved_flushes_conserve_events (acts : list action) (base : string)
    (interval size : Z) :
  Forall (fun a => Spec.safe_action a = true) acts ->
  Spec.distinct_names (names_by acts) ->
  written (disk (shared (interleave acts (mk_pool (init base interval size) []))))
    ++ buffer (writer (shared (interleave acts (mk_pool (init base interval size) []))))
    ++ concat (in_flight (interleave acts (mk_pool (init base interval size) [])))
    ≡ₚ enqueued_by acts /\
  (in_flight (interleave acts (mk_pool (init base interval size) [])) = [] ->
   written (disk (shared (interleave acts (mk_pool (init base interval size) []))))
     ++ buffer (writer (shared (interleave acts (mk_pool (init base interval size) []))))
     ≡ₚ enqueued_by acts).
Proof.
  intros Hs D. pose proof (interleave_conserves acts base interval size Hs D) as C.
  cbv zeta in C. split; [exact C|].
  intros E. rewrite E in C. cbn [concat] in C. rewrite app_nil_r in C. exact C.
Qed.

End WriterOutcomes.

(** ** Ingest: the handler of [POST /events] *)
Section IngestProps.
Context {rt : Runtime}.
Variable float_repr : float -> string.

Import S3Writer Ingest Invariants.

(** The dump of an event carries its [ts]. *)
Lemma model_dump_ts (ev : TransactionEvent) :
  model_dump ev !! "ts"%string = Some (PStr (ts ev)).
Proof. vm_refl. Qed.

Lemma model_dump_parseable (ev : TransactionEvent) :
  Spec.parseable (model_dump ev) = is_ok (parse_iso (ts ev)).
Proof. unfold Spec.parseable, first_event_ts. rewrite model_dump_ts. reflexivity. Qed.

(** A turn of the background flusher is a [flush] whose error is
    dropped. *)
Lemma flusher_turn_flush (env : io) (s : state) :
  flusher_turn env s = fst (flush env s).
Proof.
  unfold flusher_turn, flush.
  destruct (buffer (writer s)) as [|first rest]; reflexivity.
Qed.

Lemma record_of_more (A A' : list TransactionEvent) (r : gmap string string) :
  A ⊆ A' -> record_of float_repr A r -> record_of float_repr A' r.
Proof. intros S (e & He & Hr). exists e. split; [apply S, He | exact Hr]. Qed.

Lemma tracks_more (A A' : list TransactionEvent) (sv : service) :
  A ⊆ A' -> tracks float_repr A sv -> tracks float_repr A' sv.
Proof.
  intros S (T1 & T2 & T3). split; [|split].
  - eapply Forall_impl; [exact T1|]. intros e He. apply S, He.
  - eapply Forall_impl; [exact T2|]. intros r Hr. apply S, Hr.
  - eapply Forall_impl; [exact T3|]. intros r. apply record_of_more, S.
Qed.

(** One step keeps the waiting handlers and the log about events that
    arrived, and an answer it sends is about one of them. *)
Lemma take_step_tracks (st : Ingest.step) (A : list TransactionEvent) (sv : service) :
  tracks float_repr A sv ->
  tracks float_repr (A ++ arrived [st]) (fst (take_step float_repr st sv))
  /\ Forall (answer_of (A ++ arrived [st])) (snd (take_step float_repr st sv)).
Proof.
  intros T.
  assert (S : A ⊆ A ++ arrived [st]) by (intros x Hx; apply elem_of_app; left; exact Hx).
  pose proof (tracks_more _ _ sv S T) as T'.
  destruct T as (T1 & T2 & T3).
  destruct st as [ev|i ok trimmed|i|env|env]; cbn [take_step fst snd].
  - split; [|apply Forall_nil; exact I].
    destruct T' as (T1' & T2' & T3'). split; [|split]; cbn [buffer_event sent replied stream].
    + apply Forall_app. split; [exact T1'|]. apply Forall_singleton.
      apply elem_of_app. right. apply list_elem_of_here.
    + exact T2'.
    + exact T3'.
  - split; [|apply Forall_nil; exact I]. unfold xadd.
    destruct (sent sv !! i) as [ev|] eqn:L; [|exact T'].
    assert (He : ev ∈ A).
    { rewrite Forall_forall in T1. apply T1, (list_elem_of_lookup_2 _ _ _ L). }
    destruct T' as (T1' & T2' & T3'). split; [|split]; cbn [sent replied stream].
    + apply Forall_delete, T1'.
    + apply Forall_app. split; [exact T2'|]. apply Forall_singleton. apply S, He.
    + destruct ok; [|exact T3']. apply Forall_drop, Forall_app. split; [exact T3'|].
      apply Forall_singleton. exists ev. split; [apply S, He | reflexivity].
  - unfold resume. destruct (replied sv !! i) as [[ok ev]|] eqn:L;
      [|split; [exact T' | apply Forall_nil; exact I]].
    assert (He : ev ∈ A).
    { rewrite Forall_forall in T2. apply (T2 (ok, ev)), (list_elem_of_lookup_2 _ _ _ L). }
    destruct T' as (T1' & T2' & T3'). cbn [fst snd].
    destruct ok; cbn [fst snd]; (split; [split; [|split]|]);
      cbn [sent replied stream]; try assumption; try (apply Forall_delete, T2');
      apply Forall_singleton; (split; [apply S, He|]); cbn [fst snd]; auto.
  - destruct (flush_tasks sv); cbn [fst snd];
      (split; [exact T' | apply Forall_nil; exact I]).
  - split; [exact T' | apply Forall_nil; exact I].
Qed.

Lemma serve_tracks (steps : list Ingest.step) (A : list TransactionEvent) (sv : service) :
  tracks float_repr A sv ->
  tracks float_repr (A ++ arrived steps) (fst (serve float_repr steps sv))
  /\ Forall (answer_of (A ++ arrived steps)) (snd (serve float_repr steps sv)).
Proof.
  revert A sv. induction steps as [|st rest IH]; intros A sv T.
  - cbn [serve arrived flat_map fst snd]. rewrite app_nil_r.
    split; [exact T | apply Forall_nil; exact I].
  - cbn [serve].
    destruct (take_step_tracks st A sv T) as [T1 A1].
    destruct (take_step float_repr st sv) as [sv1 now]. cbn [fst snd] in T1, A1.
    destruct (IH _ _ T1) as [T2 A2].
    destruct (serve float_repr rest sv1) as [sv2 answers]. cbn [fst snd] in T2, A2 |- *.
    assert (E : (A ++ arrived [st]) ++ arrived rest = A ++ arrived (st :: rest)).
    { rewrite <- app_assoc. f_equal. unfold arrived. cbn [flat_map].
      rewrite app_nil_r. reflexivity. }
    rewrite E in T2, A2. split; [exact T2|].
    apply Forall_app. split; [|exact A2].
    eapply Forall_impl; [exact A1|]. intros a [H1 H2]. split; [|exact H2].
    rewrite <- E. apply elem_of_app. left. exact H1.
Qed.

(** The rows of the writer depend on the requests that arrived only, as
    long as no flush fails before its [try] and no file name is drawn
    twice. *)
Lemma serve_rows (steps : list Ingest.step) (sv : service) (seen : list string) :
  Forall (fun st => safe_step st = true) steps ->
  Forall (fun e => Spec.parseable e = true) (buffer (writer (parquet_writer sv))) ->
  Spec.named_by seen (base_path (writer (parquet_writer sv))) (disk (parquet_writer sv)) ->
  Spec.distinct_names (seen ++ Ingest.names steps) ->
  written (disk (parquet_writer (fst (serve float_repr steps sv))))
    ++ buffer (writer (parquet_writer (fst (serve float_repr steps sv))))
    = (written (disk (parquet_writer sv)) ++ buffer (writer (parquet_writer sv)))
      ++ (model_dump <$> arrived steps).
Proof.
  revert sv seen. induction steps as [|st rest IH]; intros sv seen Hs P N D.
  - cbn. rewrite app_nil_r. reflexivity.
  - apply Forall_cons in Hs as [Hst Hs].
    assert (G : forall sv1 now,
              take_step float_repr st sv = (sv1, now) ->
              written (disk (parquet_writer sv1)) ++ buffer (writer (parquet_writer sv1))
                = (written (disk (parquet_writer sv)) ++ buffer (writer (parquet_writer sv)))
                  ++ (model_dump <$> arrived [st])
              /\ Forall (fun e => Spec.parseable e = true) (buffer (writer (parquet_writer sv1)))
              /\ Spec.named_by (seen ++ Ingest.names [st])
                   (base_path (writer (parquet_writer sv1))) (disk (parquet_writer sv1))).
    { assert (Dst : Spec.distinct_names (seen ++ Ingest.names [st])).
      { apply (distinct_names_app_l _ (Ingest.names rest)).
        rewrite <- app_assoc. unfold Ingest.names in *. cbn [flat_map] in *.
        rewrite app_nil_r. exact D. }
      assert (N' : Spec.named_by (seen ++ Ingest.names [st])
                     (base_path (writer (parquet_writer sv))) (disk (parquet_writer sv))).
      { apply (named_by_more seen); [|exact N].
        intros x Hx. apply elem_of_app. left. exact Hx. }
      assert (F : forall env, mkdir_ok env = true ->
                Spec.distinct_names (seen ++ [uuid8 env]) ->
                Spec.named_by (seen ++ [uuid8 env])
                  (base_path (writer (parquet_writer sv))) (disk (parquet_writer sv)) ->
                written (disk (fst (flush env (parquet_writer sv))))
                  ++ buffer (writer (fst (flush env (parquet_writer sv))))
                  = (written (disk (parquet_writer sv)) ++ buffer (writer (parquet_writer sv)))
                    ++ []
                /\ Forall (fun e => Spec.parseable e = true)
                     (buffer (writer (fst (flush env (parquet_writer sv)))))
                /\ Spec.named_by (seen ++ [uuid8 env])
                     (base_path (writer (fst (flush env (parquet_writer sv)))))
                     (disk (fst (flush env (parquet_writer sv))))).
      { intros env M De _.
        destruct (flush_conserves env (parquet_writer sv) seen P M N De) as (C & Bp & Nn).
        rewrite app_nil_r, Bp. split; [exact C|].
        split; [apply flush_buffer_parseable, P | exact Nn]. }
      intros sv1 now E.
      destruct st as [ev|i ok trimmed|i|env|env];
        cbn [take_step safe_step arrived Ingest.names flat_map fmap list_fmap app] in *.
      - injection E as <- <-. cbn [buffer_event parquet_writer disk writer].
        rewrite add_event_buffer, <- !app_assoc. split; [reflexivity|]. split; [|exact N'].
        apply Forall_app. split; [exact P|]. apply Forall_singleton.
        rewrite model_dump_parseable. exact Hst.
      - injection E as <- <-. unfold xadd.
        destruct (sent sv !! i); cbn [parquet_writer]; rewrite app_nil_r; auto.
      - unfold resume in E. destruct (replied sv !! i) as [[[] ev]|]; cbn in E;
          injection E as <- <-; cbn [parquet_writer]; rewrite app_nil_r; auto.
      - destruct (flush_tasks sv); injection E as <- <-; cbn [parquet_writer].
        + rewrite app_nil_r. auto.
        + apply (F env Hst Dst N').
      - injection E as <- <-. cbn [parquet_writer]. rewrite flusher_turn_flush.
        apply (F env Hst Dst N'). }
    cbn [serve].
    destruct (take_step float_repr st sv) as [sv1 now] eqn:E.
    destruct (G sv1 now eq_refl) as (C1 & P1 & N1).
    assert (D1 : Spec.distinct_names ((seen ++ Ingest.names [st]) ++ Ingest.names rest)).
    { rewrite <- app_assoc. unfold Ingest.names in *. cbn [flat_map] in *.
      rewrite app_nil_r. exact D. }
    specialize (IH sv1 _ Hs P1 N1 D1).
    destruct (serve float_repr rest sv1) as [sv2 answers]. cbn [fst] in IH |- *.
    rewrite IH, C1, <- !app_assoc. f_equal. f_equal.
    rewrite <- fmap_app. f_equal. unfold arrived. cbn [flat_map].
    rewrite app_nil_r. reflexivity.
Qed.

(** X6.  The ingest service, for every history in which handlers of
    [POST /events] run up to their [xadd] (the event is buffered, the
    command sent), the event log runs the commands in any order,
    accepting or refusing each and trimming old records, the handlers
    resume in any order, and flushes run as tasks made by a handler or
    as turns of the background flusher.  Each record of the log is the
    stringified dump of an event that arrived, and each answer, ok or
    500, is about an event that arrived.  As long as every [ts] is
    readable, every partition directory can be made and no file name is
    drawn twice, the files and the buffer hold, as a multiset, the dump
    of every event that arrived; so the log holds nothing that the
    files and the buffer lack, and the event of every answered request
    is kept for the files whether the log accepted it or not. *)
Theorem ingest_buffers_before_publishing (steps : list Ingest.step) (base : string)
    (interval size : Z) :
  Forall (record_of float_repr (arrived steps))
         (stream (fst (serve float_repr steps (new_service base interval size)))) /\
  Forall (answer_of (arrived steps))
         (snd (serve float_repr steps (new_service base interval size))) /\
  (Forall (fun st => safe_step st = true) steps ->
   Spec.distinct_names (Ingest.names steps) ->
   written (disk (parquet_writer (fst (serve float_repr steps (new_service base interval size)))))
     ++ buffer (writer (parquet_writer
                  (fst (serve float_repr steps (new_service base interval size)))))
     ≡ₚ model_dump <$> arrived steps /\
   Forall (fun r => exists e,
             r = py_str float_repr <$> model_dump e /\
             model_dump e
               ∈ written (disk (parquet_writer
                            (fst (serve float_repr steps (new_service base interval size)))))
                 ++ buffer (writer (parquet_writer
                              (fst (serve float_repr steps (new_service base interval size))))))
          (stream (fst (serve float_repr steps (new_service base interval size)))) /\
   Forall (fun a : TransactionEvent * answer =>
             model_dump a.1
               ∈ written (disk (parquet_writer
                            (fst (serve float_repr steps (new_service base interval size)))))
                 ++ buffer (writer (parquet_writer
                              (fst (serve float_repr steps (new_service base interval size))))))
          (snd (serve float_repr steps (new_service base interval size)))).
Proof.
  destruct (serve_tracks steps [] (new_service base interval size)) as [(_ & _ & T) A].
  { split; [|split]; apply Forall_nil; exact I. }
  cbn [app] in T, A.
  split; [exact T|]. split; [exact A|].
  intros Hs D.
  assert (R : written (disk (parquet_writer
                (fst (serve float_repr steps (new_service base interval size)))))
              ++ buffer (writer (parquet_writer
                   (fst (serve float_repr steps (new_service base interval size)))))
              = model_dump <$> arrived steps).
  { rewrite (serve_rows steps _ [] Hs); [reflexivity | | | exact D];
      apply Forall_nil; exact I. }
  rewrite R. split; [reflexivity|]. split.
  - eapply Forall_impl; [exact T|]. intros r (e & He & Hr).
    exists e. split; [exact Hr|]. apply list_elem_of_fmap. exists e. auto.
  - eapply Forall_impl; [exact A|]. intros a [Ha _].
    apply list_elem_of_fmap. exists a.1. auto.
Qed.

End IngestProps.

(** ** More on the order of binary64 values *)

Lemma SFleb_trans a b c :
  SFleb a b = true -> SFleb b c = true -> SFleb a c = true.
Proof.
  unfold SFleb.
  destruct a as [sa|sa| |sa ma ea], b as [sb|sb| |sb mb eb], c as [sc|sc| |sc mc ec];
    repeat match goal with s : bool |- _ => destruct s end; simpl; try congruence;
    rewrite ?Pos.compare_cont_spec; simpl;
    repeat match goal with
    | |- context [(?x ?= ?y)%Z] => destruct (Z.compare_spec x y)
    | |- context [(?x ?= ?y)%positive] => destruct (Pos.compare_spec x y)
    end; simpl; try congruence; try lia.
Qed.

Lemma SFle_lt_trans a b c :
  SFleb a b = true -> SFltb b c = true -> SFltb a c = true.
Proof.
  unfold SFltb, SFleb.
  destruct a as [sa|sa| |sa ma ea], b as [sb|sb| |sb mb eb], c as [sc|sc| |sc mc ec];
    repeat match goal with s : bool |- _ => destruct s end; simpl; try congruence;
    rewrite ?Pos.compare_cont_spec; simpl;
    repeat match goal with
    | |- context [(?x ?= ?y)%Z] => destruct (Z.compare_spec x y)
    | |- context [(?x ?= ?y)%positive] => destruct (Pos.compare_spec x y)
    end; simpl; try congruence; try lia.
Qed.

Lemma leb_trans x y z :
  PrimFloat.leb x y = true -> PrimFloat.leb y z = true -> PrimFloat.leb x z = true.
Proof. rewrite !FloatAxioms.leb_spec. apply SFleb_trans. Qed.

Lemma leb_ltb_trans x y z :
  PrimFloat.leb x y = true -> PrimFloat.ltb y z = true -> PrimFloat.ltb x z = true.
Proof. rewrite !FloatAxioms.ltb_spec, FloatAxioms.leb_spec. apply SFle_lt_trans. Qed.

Lemma ltb_leb_incl x y : PrimFloat.ltb x y = true -> PrimFloat.leb x y = true.
Proof.
  rewrite FloatAxioms.ltb_spec, FloatAxioms.leb_spec. unfold SFltb, SFleb.
  destruct (SFcompare (Prim2SF x) (Prim2SF y)) as [[]|]; congruence.
Qed.

Lemma leb_refl x : PrimFloat.is_nan x = false -> PrimFloat.leb x x = true.
Proof.
  rewrite is_nan_false, FloatAxioms.leb_spec. unfold SFleb. intros H.
  rewrite SFcompare_refl by exact H. reflexivity.
Qed.

(** ** [max] on floats *)

Lemma fold_max_in (rest : list float) (m : float) :
  fold_left (fun m y => if gt y m then y else m) rest m ∈ m :: rest.
Proof.
  revert m. induction rest as [|y rest IH]; intros m; cbn [fold_left].
  - apply list_elem_of_here.
  - specialize (IH (if gt y m then y else m)).
    apply elem_of_cons in IH as [IH|IH].
    + rewrite IH. destruct (gt y m).
      * apply list_elem_of_further, list_elem_of_here.
      * apply list_elem_of_here.
    + apply list_elem_of_further, list_elem_of_further, IH.
Qed.

Lemma fold_max_ge (rest : list float) (m : float) :
  Forall (fun a => PrimFloat.is_nan a = false) (m :: rest) ->
  Forall (fun a => PrimFloat.leb a (fold_left (fun m y => if gt y m then y else m) rest m)
                   = true) (m :: rest).
Proof.
  revert m. induction rest as [|y rest IH]; intros m H; cbn [fold_left].
  - apply Forall_cons in H as [H _]. apply Forall_singleton, leb_refl, H.
  - apply Forall_cons in H as [Hm H]. pose proof H as H'.
    apply Forall_cons in H' as [Hy Hr].
    destruct (gt y m) eqn:G.
    + specialize (IH y H). apply Forall_cons in IH as [IHy IHr].
      apply Forall_cons. split; [|apply Forall_cons; split; assumption].
      apply (leb_trans m y); [apply ltb_leb_incl, G | exact IHy].
    + specialize (IH m (proj2 (Forall_cons _ _ _) (conj Hm Hr))).
      apply Forall_cons in IH as [IHm IHr].
      apply Forall_cons. split; [exact IHm|]. apply Forall_cons. split; [|exact IHr].
      apply (leb_trans y m); [|exact IHm].
      apply ltb_false_leb; assumption.
Qed.

(** ** Featurizer: the windows of [compute_features] *)
Section RecentProps.
Context {rt : Runtime}.

Import Featurizer Invariants.

Lemma recent_Ok (cut : Z) (evs l : list event) :
  recent cut evs = Ok l ->
  Forall (fun e => ts_parses e = true) evs /\ l = List.filter (within cut) evs.
Proof.
  revert l. induction evs as [|e rest IH]; intros l; cbn [recent List.filter].
  - intros [= <-]. split; [apply Forall_nil; exact I | reflexivity].
  - unfold within at 1, ts_parses.
    destruct (event_time e) as [t|x] eqn:T; cbn [bind]; [|discriminate].
    destruct (recent cut rest) as [l'|x]; cbn [bind]; [|discriminate].
    destruct (IH l' eq_refl) as [F ->]. intros [= <-].
    split; [|reflexivity].
    apply Forall_cons. split; [rewrite T; reflexivity | exact F].
Qed.

Lemma recent_Raise (cut : Z) (evs : list event) (x : exn) :
  recent cut evs = Raise x ->
  exists pre e post,
    evs = pre ++ e :: post /\ Forall (fun e => ts_parses e = true) pre /\
    event_time e = Raise x.
Proof.
  induction evs as [|e rest IH]; cbn [recent]; [discriminate|].
  destruct (event_time e) as [t|y] eqn:T; cbn [bind].
  - destruct (recent cut rest) as [l'|y]; cbn [bind]; [discriminate|].
    intros [= ->]. destruct (IH eq_refl) as (pre & e' & post & -> & F & T').
    exists (e :: pre), e', post. split; [reflexivity|]. split; [|exact T'].
    apply Forall_cons. split; [unfold ts_parses; rewrite T; reflexivity | exact F].
  - intros [= ->]. exists [], e, rest. split; [reflexivity|].
    split; [apply Forall_nil; exact I | exact T].
Qed.

Lemma recent_parses (cut : Z) (evs : list event) :
  Forall (fun e => ts_parses e = true) evs ->
  recent cut evs = Ok (List.filter (within cut) evs).
Proof.
  induction evs as [|e rest IH]; intros F; cbn [recent List.filter]; [reflexivity|].
  apply Forall_cons in F as [Fe F]. unfold ts_parses in Fe. unfold within at 1.
  destruct (event_time e) as [t|x]; [|discriminate]. cbn [bind].
  rewrite (IH F). reflexivity.
Qed.

(** X7.  [get_recent] returns, in the order of the window, exactly the
    events stamped at or after [now - seconds]; there is no upper bound,
    so an event stamped after [now] is in every window.  It raises when
    some event of the window, recent or not, has no [ts] or one that
    [fromisoformat] rejects, and the error is that of the first such
    event. *)
Theorem get_recent_spec (seconds : Z) (now : datetime) (w : EventWindow) :
  match get_recent seconds now w with
  | Ok l =>
      Forall (fun e => ts_parses e = true) (events w) /\
      l = List.filter (within (to_micros now - seconds * 1000000)) (events w)
  | Raise x =>
      exists pre e post,
        events w = pre ++ e :: post /\ Forall (fun e => ts_parses e = true) pre /\
        event_time e = Raise x
  end.
Proof.
  unfold get_recent. destruct (recent (cutoff now seconds) (events w)) as [l|x] eqn:R.
  - apply recent_Ok in R. exact R.
  - apply recent_Raise in R. exact R.
Qed.

Lemma filter_length_mono {A} (f g : A -> bool) (l : list A) :
  (forall x, f x = true -> g x = true) ->
  (length (List.filter f l) <= length (List.filter g l))%nat.
Proof.
  intros H. induction l as [|x l IH]; cbn [List.filter]; [lia|].
  destruct (f x) eqn:F.
  - rewrite (H x F). cbn [length]. lia.
  - destruct (g x); cbn [length]; lia.
Qed.

Lemma filter_length_le {A} (f : A -> bool) (l : list A) :
  (length (List.filter f l) <= length l)%nat.
Proof.
  induction l as [|x l IH]; cbn [List.filter]; [lia|].
  destruct (f x); cbn [length]; lia.
Qed.

Lemma within_mono (cut1 cut2 : Z) (e : event) :
  cut1 <= cut2 -> within cut2 e = true -> within cut1 e = true.
Proof.
  unfold within, at_or_after. destruct (event_time e); [|discriminate].
  rewrite !Z.leb_le. lia.
Qed.

Lemma changes_bounds (l : list string) :
  0 <= changes l /\ changes l <= Z.max 0 (Z.of_nat (length l) - 1).
Proof.
  induction l as [|a [|b rest] IH]; cbn [changes length] in *; try lia.
  destruct (decide (b = a)); lia.
Qed.

Lemma size_add_le (a : string) (X : gset string) :
  (size ({[a]} ∪ X) <= S (size X))%nat.
Proof.
  rewrite size_union_alt, size_singleton.
  assert (D : (size (X ∖ {[a]}) <= size X)%nat).
  { apply subseteq_size. intros x Hx. apply elem_of_difference in Hx. tauto. }
  lia.
Qed.

Lemma size_add_pos (a : string) (X : gset string) : (1 <= size ({[a]} ∪ X))%nat.
Proof.
  rewrite size_union_alt, size_singleton. lia.
Qed.

Lemma count_unique_le_length (l : list string) :
  count_unique l <= Z.of_nat (length l).
Proof.
  unfold count_unique. induction l as [|a l IH]; cbn [length].
  - rewrite list_to_set_nil, size_empty. lia.
  - rewrite list_to_set_cons. pose proof (size_add_le a (list_to_set l)). lia.
Qed.

Lemma count_unique_pos (l : list string) :
  l <> [] -> 1 <= count_unique l.
Proof.
  unfold count_unique. destruct l as [|a l]; [congruence|]. intros _.
  rewrite list_to_set_cons. pose proof (size_add_pos a (list_to_set l)). lia.
Qed.

(** Every value but the first is either the one before it or a change. *)
Lemma count_unique_le_changes (l : list string) :
  count_unique l <= changes l + 1.
Proof.
  unfold count_unique. induction l as [|a l IH].
  - rewrite list_to_set_nil, size_empty. cbn. lia.
  - destruct l as [|b rest].
    + rewrite list_to_set_cons, list_to_set_nil, union_empty_r_L, size_singleton.
      cbn. lia.
    + change (changes (a :: b :: rest))
        with ((if decide (b = a) then 0 else 1) + changes (b :: rest)).
      destruct (decide (b = a)) as [->|Hne].
      * assert (E : forall X : gset string, {[a]} ∪ ({[a]} ∪ X) = {[a]} ∪ X).
        { intros X. apply leibniz_equiv. intros x.
          rewrite !elem_of_union. tauto. }
        rewrite list_to_set_cons. rewrite list_to_set_cons in IH |- *.
        rewrite E. lia.
      * rewrite list_to_set_cons.
        pose proof (size_add_le a (list_to_set (b :: rest))). lia.
Qed.

(** What [compute_features] returns, entry by entry. *)
Lemma compute_features_Ok (ev : event) (w : EventWindow) (now : datetime)
    (fs : gmap string pyval) :
  compute_features ev w now = Ok fs ->
  exists events_5m events_1h events_24h amounts_1h amounts_24h current_amount,
    get_recent 300 now w = Ok events_5m /\
    get_recent 3600 now w = Ok events_1h /\
    get_recent 86400 now w = Ok events_24h /\
    amounts events_1h = Ok amounts_1h /\
    amounts events_24h = Ok amounts_24h /\
    amount_or_zero ev = Ok current_amount /\
    fs !! "txns_last_5m"%string = Some (PInt (Z.of_nat (length events_5m))) /\
    fs !! "txns_last_1h"%string = Some (PInt (Z.of_nat (length events_1h))) /\
    fs !! "txns_last_24h"%string = Some (PInt (Z.of_nat (length events_24h))) /\
    fs !! "avg_amount_1h"%string
      = Some (PFloat (match amounts_1h with
                      | [] => 0%float
                      | _ => (py_sum amounts_1h
                              / float_of_Z (Z.of_nat (length amounts_1h)))%float
                      end)) /\
    fs !! "max_amount_24h"%string = Some (PFloat (py_max 0%float amounts_24h)) /\
    fs !! "unique_devices_24h"%string
      = Some (PInt (count_unique (get_str "device_id" <$> events_24h))) /\
    fs !! "unique_ips_24h"%string
      = Some (PInt (count_unique (get_str "ip" <$> events_24h))) /\
    fs !! "merchant_velocity_1h"%string
      = Some (PInt (Z.of_nat (length
           (filter (fun e => e !! "merchant_id"%string = Some (get_str "merchant_id" ev))
                   events_1h)))) /\
    fs !! "device_churn_24h"%string
      = Some (PInt (changes (get_str "device_id" <$> events_24h))) /\
    fs !! "ip_changes_24h"%string
      = Some (PInt (changes (get_str "ip" <$> events_24h))).
Proof.
  unfold compute_features.
  destruct (get_recent 300 now w) as [e5|]; [|discriminate].
  destruct (get_recent 3600 now w) as [e1|]; [|discriminate].
  destruct (get_recent 86400 now w) as [e24|]; [|discriminate].
  cbn [bind].
  destruct (amounts e1) as [a1|] eqn:A1; [|discriminate].
  destruct (amounts e24) as [a24|] eqn:A24; [|discriminate].
  cbn [bind].
  destruct (amount_or_zero ev) as [current|]; [|discriminate].
  cbn [bind]. intros [= <-].
  exists e5, e1, e24, a1, a24, current.
  repeat (split; [reflexivity|]).
  split; [exact A1|]. split; [exact A24|]. split; [reflexivity|].
  repeat (split; [repeat (rewrite lookup_insert_ne by discriminate);
                  apply lookup_insert_eq|]).
  repeat (rewrite lookup_insert_ne by discriminate). apply lookup_insert_eq.
Qed.

(** X8.  The counts [compute_features] publishes are consistent with one
    another: the 5-minute, 1-hour and 24-hour transaction counts are
    nested and bounded by the size of the window; the merchant velocity
    is at most the 1-hour count; the numbers of distinct devices and IPs
    are at most the 24-hour count and at least 1 when that count is
    positive; the numbers of device and IP changes are at most the
    24-hour count minus one, and at least the number of distinct values
    minus one. *)
Theorem compute_features_counts (ev : event) (w : EventWindow) (now : datetime)
    (fs : gmap string pyval) :
  compute_features ev w now = Ok fs ->
  exists n5 n1 n24 mv ud ui dc ic : Z,
    fs !! "txns_last_5m"%string = Some (PInt n5) /\
    fs !! "txns_last_1h"%string = Some (PInt n1) /\
    fs !! "txns_last_24h"%string = Some (PInt n24) /\
    fs !! "merchant_velocity_1h"%string = Some (PInt mv) /\
    fs !! "unique_devices_24h"%string = Some (PInt ud) /\
    fs !! "unique_ips_24h"%string = Some (PInt ui) /\
    fs !! "device_churn_24h"%string = Some (PInt dc) /\
    fs !! "ip_changes_24h"%string = Some (PInt ic) /\
    0 <= n5 /\ n5 <= n1 /\ n1 <= n24 /\ n24 <= Z.of_nat (length (events w)) /\
    0 <= mv /\ mv <= n1 /\
    ud <= n24 /\ ui <= n24 /\ (0 < n24 -> 1 <= ud /\ 1 <= ui) /\
    0 <= dc /\ dc <= Z.max 0 (n24 - 1) /\ ud <= dc + 1 /\
    0 <= ic /\ ic <= Z.max 0 (n24 - 1) /\ ui <= ic + 1.
Proof.
  intros H. apply compute_features_Ok in H
    as (e5 & e1 & e24 & a1 & a24 & cur & R5 & R1 & R24 & _ & _ & _
        & F5 & F1 & F24 & _ & _ & Fud & Fui & Fmv & Fdc & Fic).
  unfold get_recent in R5, R1, R24.
  apply recent_Ok in R5 as [_ R5], R1 as [_ R1], R24 as [_ R24].
  eexists _, _, _, _, _, _, _, _.
  repeat (split; [eassumption|]).
  assert (L51 : (length e5 <= length e1)%nat).
  { rewrite R5, R1. apply filter_length_mono. intros x.
    apply within_mono. unfold cutoff. lia. }
  assert (L124 : (length e1 <= length e24)%nat).
  { rewrite R1, R24. apply filter_length_mono. intros x.
    apply within_mono. unfold cutoff. lia. }
  assert (L24 : (length e24 <= length (events w))%nat).
  { rewrite R24. apply filter_length_le. }
  assert (Lmv : (length (filter (fun e => e !! "merchant_id"%string
                                          = Some (get_str "merchant_id" ev)) e1)
                 <= length e1)%nat) by apply length_filter.
  pose proof (changes_bounds (get_str "device_id" <$> e24)) as Cd.
  pose proof (changes_bounds (get_str "ip" <$> e24)) as Ci.
  pose proof (count_unique_le_length (get_str "device_id" <$> e24)) as Ud.
  pose proof (count_unique_le_length (get_str "ip" <$> e24)) as Ui.
  pose proof (count_unique_le_changes (get_str "device_id" <$> e24)) as Vd.
  pose proof (count_unique_le_changes (get_str "ip" <$> e24)) as Vi.
  rewrite length_fmap in Cd, Ci, Ud, Ui.
  repeat (split; [lia|]).
  split.
  { intros P. split; apply count_unique_pos; destruct e24; cbn in P |- *; try lia;
      discriminate. }
  repeat (split; [lia|]). lia.
Qed.

(** X9.  [max_amount_24h] is 0.0 when no event lies in the 24-hour
    window; otherwise it is one of the amounts of that window (an event
    without amount counting as 0), and when none of them is NaN it is
    greater than or equal to each of them. *)
Theorem compute_features_max_amount (ev : event) (w : EventWindow) (now : datetime)
    (fs : gmap string pyval) :
  compute_features ev w now = Ok fs ->
  exists events_24h amounts_24h m,
    get_recent 86400 now w = Ok events_24h /\
    amounts events_24h = Ok amounts_24h /\
    length amounts_24h = length events_24h /\
    fs !! "max_amount_24h"%string = Some (PFloat m) /\
    (events_24h = [] -> m = 0%float) /\
    (events_24h <> [] -> m ∈ amounts_24h) /\
    (Forall (fun a => PrimFloat.is_nan a = false) amounts_24h ->
     Forall (fun a => PrimFloat.leb a m = true) amounts_24h).
Proof.
  intros H. apply compute_features_Ok in H
    as (e5 & e1 & e24 & a1 & a24 & cur & _ & _ & R24 & _ & A24 & _
        & _ & _ & _ & _ & Fmax & _).
  exists e24, a24, (py_max 0%float a24).
  split; [exact R24|]. split; [exact A24|].
  assert (L : length a24 = length e24).
  { clear R24 Fmax. revert a24 A24. induction e24 as [|e rest IH]; intros a24; cbn [amounts].
    - intros [= <-]. reflexivity.
    - destruct (amount_or_zero e); cbn [bind]; [|discriminate].
      destruct (amounts rest) as [l|]; cbn [bind]; [|discriminate].
      intros [= <-]. cbn [length]. rewrite (IH l eq_refl). reflexivity. }
  split; [exact L|]. split; [exact Fmax|].
  split; [|split].
  - intros ->. destruct a24; [reflexivity | discriminate L].
  - intros Hne. destruct a24 as [|x rest]; [destruct e24; [congruence | discriminate L]|].
    cbn [py_max]. apply fold_max_in.
  - intros N. destruct a24 as [|x rest]; [apply Forall_nil; exact I|].
    cbn [py_max]. apply fold_max_ge, N.
Qed.

End RecentProps.

(** ** Featurizer: what [process_event] changes *)
Section ProcessEventEffect.
Context {rt : Runtime}.

Import Featurizer Invariants.

Lemma decode_event_Ok (event_data ev : gmap string string) :
  decode_event event_data = Ok ev -> ev = event_data.
Proof.
  unfold decode_event.
  destruct (forallb _ _); [intros [= <-]; reflexivity | discriminate].
Qed.

(** The effect of one call of [process_event].  Either the state is
    untouched, or the call was about one user: then the only window that
    may differ is that user's, and it is the window before the call,
    that window with the event added, or that window with the event
    added and old events evicted; the store is untouched unless the call
    returned, and then only the user's hash and time to live were
    written. *)
Lemma process_event_effect (env : penv) (event_data : gmap string string) (s : state) :
  process_event env event_data s = (s, Raise UnicodeDecodeError)
  \/ process_event env event_data s = (s, Ok tt)
  \/ exists uid w',
       event_data !! "user_id"%string = Some uid /\ uid <> EmptyString /\
       user_windows (fst (process_event env event_data s))
         = <[uid := w']> (user_windows s) /\
       (w' = window_before s uid
        \/ (ts_parses event_data = true
            /\ (w' = fst (add_event event_data (window_before s uid))
                \/ (is_ok (snd (add_event event_data (window_before s uid))) = true
                    /\ w' = fst (cleanup_old 172800 (now env)
                             (fst (add_event event_data (window_before s uid)))))))) /\
       ((store (fst (process_event env event_data s)) = store s
         /\ is_ok (snd (process_event env event_data s)) = false)
        \/ (snd (process_event env event_data s) = Ok tt
            /\ redis_ok env = true
            /\ exists all_features,
                 store (fst (process_event env event_data s))
                   = write_features (redis_key uid) all_features (store s))).
Proof.
  unfold process_event.
  destruct (decode_event event_data) as [ev|x] eqn:D.
  2:{ left. unfold decode_event in D.
      destruct (forallb _ _); [discriminate|]. injection D as <-. reflexivity. }
  apply decode_event_Ok in D. subst ev.
  destruct (event_data !! "user_id"%string) as [uid|] eqn:U; [|right; left; reflexivity].
  destruct (decide (uid = EmptyString)) as [->|Hne]; [right; left; reflexivity|].
  right. right. exists uid.
  set (s1 := match user_windows s !! uid with
             | Some _ => s
             | None => set_window uid new_window s
             end).
  assert (W1 : default new_window (user_windows s1 !! uid) = window_before s uid).
  { unfold s1, window_before. destruct (user_windows s !! uid) eqn:L.
    - rewrite L. reflexivity.
    - unfold set_window. cbn [user_windows]. rewrite lookup_insert_eq. reflexivity. }
  assert (M1 : user_windows s1 = <[uid := window_before s uid]> (user_windows s)).
  { unfold s1, window_before. destruct (user_windows s !! uid) eqn:L.
    - cbn [default]. symmetry. apply insert_id, L.
    - reflexivity. }
  assert (S1 : store s1 = store s).
  { unfold s1. destruct (user_windows s !! uid); reflexivity. }
  rewrite W1. clearbody s1.
  unfold ts_parses.
  destruct (event_time event_data) as [event_ts|x] eqn:T.
  2:{ exists (window_before s uid). cbn [fst snd is_ok].
      split; [reflexivity|]. split; [exact Hne|]. split; [exact M1|].
      split; [left; reflexivity|]. left. split; [exact S1 | reflexivity]. }
  destruct (add_event event_data (window_before s uid)) as [w1 r1] eqn:A.
  cbn [fst snd].
  assert (M2 : forall w, <[uid := w]> (user_windows s1) = <[uid := w]> (user_windows s)).
  { intros w. rewrite M1. apply insert_insert_eq. }
  destruct r1 as [[]|x].
  2:{ exists w1. cbn [fst snd is_ok set_window user_windows store].
      split; [reflexivity|]. split; [exact Hne|]. split; [apply M2|].
      split; [right; split; [reflexivity|]; left; reflexivity|].
      left. split; [exact S1 | reflexivity]. }
  destruct (cleanup_old 172800 (now env) w1) as [w2 r2] eqn:C.
  assert (M3 : <[uid := w2]> (user_windows (set_window uid w1 s1))
               = <[uid := w2]> (user_windows s)).
  { unfold set_window. cbn [user_windows]. rewrite insert_insert_eq. apply M2. }
  exists w2.
  split; [reflexivity|]. split; [exact Hne|].
  assert (K : w2 = window_before s uid
              \/ (is_ok (Ok event_ts) = true
                  /\ (w2 = w1 \/ (is_ok (Ok tt) = true /\ w2 = w2)))).
  { right. split; [reflexivity|]. right. split; reflexivity. }
  destruct r2 as [[]|x].
  2:{ cbn [fst snd is_ok set_window user_windows store].
      split; [rewrite <- M3; reflexivity|]. split; [exact K|].
      left. split; [exact S1 | reflexivity]. }
  destruct (bind (compute_features event_data w2 (now env)) _) as [all_features|x].
  2:{ cbn [fst snd is_ok set_window user_windows store].
      split; [rewrite <- M3; reflexivity|]. split; [exact K|].
      left. split; [exact S1 | reflexivity]. }
  destruct (redis_ok env).
  - cbn [fst snd is_ok set_window user_windows store].
    split; [rewrite <- M3; reflexivity|]. split; [exact K|].
    right. split; [reflexivity|]. split; [reflexivity|].
    exists all_features. rewrite S1. reflexivity.
  - cbn [fst snd is_ok set_window user_windows store].
    split; [rewrite <- M3; reflexivity|]. split; [exact K|].
    left. split; [exact S1 | reflexivity].
Qed.


(** *** The invariant of the windows *)

Lemma new_window_ok (uid : string) : window_ok uid new_window.
Proof. split; [apply Forall_nil; exact I | reflexivity]. Qed.

Lemma filter_snoc {A} (f : A -> bool) (l : list A) (x : A) :
  List.filter f (l ++ [x]) = List.filter f l ++ (if f x then [x] else []).
Proof. rewrite List.filter_app. cbn [List.filter]. destruct (f x); reflexivity. Qed.

Lemma add_event_window_ok (uid : string) (e : event) (w : EventWindow) :
  ts_parses e = true -> e !! "user_id"%string = Some uid ->
  window_ok uid w -> window_ok uid (fst (add_event e w)).
Proof.
  intros T U [F C]. unfold window_ok, add_event.
  assert (F' : Forall (fun e => ts_parses e = true /\ e !! "user_id"%string = Some uid)
                 (events w ++ [e])).
  { apply Forall_app. split; [exact F|]. apply Forall_singleton. auto. }
  pose proof (filter_snoc amount_parses (events w) e) as S.
  unfold amount_parses at 3 in S.
  destruct (e !! "amount"%string) as [a|].
  - destruct (to_float a) as [f|x]; cbn [fst events amount_count is_ok] in *;
      (split; [exact F'|]); rewrite S, length_app; cbn [length]; lia.
  - cbn [fst events amount_count] in *. split; [exact F'|].
    rewrite S, app_nil_r. exact C.
Qed.

Lemma cleanup_loop_window_ok (uid : string) (cut : Z) (evs : list event)
    (total : float) (count : Z) :
  Forall (fun e => ts_parses e = true /\ e !! "user_id"%string = Some uid) evs ->
  count = Z.of_nat (length (List.filter amount_parses evs)) ->
  window_ok uid (fst (cleanup_loop cut evs total count)).
Proof.
  revert total count. induction evs as [|e rest IH]; intros total count F C;
    cbn [cleanup_loop].
  - split; [exact F | exact C].
  - destruct (event_time e) as [d|x]; [|split; [exact F | exact C]].
    destruct (at_or_after d cut); [split; [exact F | exact C]|].
    apply Forall_cons in F as [_ F].
    cbn [List.filter] in C. unfold amount_parses at 1 in C.
    destruct (e !! "amount"%string) as [a|].
    + destruct (to_float a) as [f|x]; cbn [is_ok] in C.
      * apply IH; [exact F|]. cbn [length] in C. lia.
      * split; [exact F | exact C].
    + apply IH; [exact F | exact C].
Qed.

Lemma cleanup_old_window_ok (uid : string) (secs : Z) (now : datetime) (w : EventWindow) :
  window_ok uid w -> window_ok uid (fst (cleanup_old secs now w)).
Proof. intros [F C]. apply cleanup_loop_window_ok; assumption. Qed.

Lemma process_event_state_ok (env : penv) (event_data : gmap string string) (s : state) :
  state_ok s -> state_ok (fst (process_event env event_data s)).
Proof.
  intros H.
  destruct (process_event_effect env event_data s)
    as [E|[E|(uid & w' & U & Hne & M & W & _)]]; try (rewrite E; exact H).
  assert (W0 : window_ok uid (window_before s uid)).
  { unfold window_before. destruct (user_windows s !! uid) as [w|] eqn:L.
    - apply (H uid w L).
    - apply new_window_ok. }
  intros u w L. rewrite M in L.
  destruct (decide (u = uid)) as [->|Hu].
  - rewrite lookup_insert_eq in L. injection L as <-.
    destruct W as [->|[T [->|[_ ->]]]].
    + exact W0.
    + apply add_event_window_ok; assumption.
    + apply cleanup_old_window_ok, add_event_window_ok; assumption.
  - rewrite lookup_insert_ne in L by congruence. apply (H u w L).
Qed.

Lemma process_messages_state_ok (env_at : nat -> penv) (i : nat) (msgs : list message)
    (last_id : stream_id) (s : state) :
  state_ok s -> state_ok (snd (process_messages env_at i msgs last_id s)).
Proof.
  revert i last_id s. induction msgs as [|[msg_id event_data] rest IH];
    intros i last_id s H; cbn [process_messages]; [exact H|].
  pose proof (process_event_state_ok (env_at i) event_data s H) as H1.
  destruct (process_event (env_at i) event_data s) as [s1 [u|x]]; apply IH, H1.
Qed.

Lemma consume_events_state_ok (ticks : list tick) (last_id : stream_id) (s : state) :
  state_ok s -> state_ok (snd (consume_events ticks last_id s)).
Proof.
  revert last_id s. induction ticks as [|t rest IH]; intros last_id s H;
    cbn [consume_events]; [exact H|].
  assert (H1 : state_ok (snd (consume_once t last_id s))).
  { unfold consume_once. destruct (xread_ok t); [|exact H].
    destruct (xread (log t) last_id 10) as [|m l] eqn:X; [exact H|].
    apply process_messages_state_ok, H. }
  destruct (consume_once t last_id s) as [c s1]. apply IH, H1.
Qed.

(** X10.  The invariant of the consumer loop: in every state reached
    from the start, after any number of turns, whatever the records of
    the log and whichever calls failed, every window holds only events
    of its own user whose [ts] is readable, and its [amount_count] is
    the number of retained events whose amount [float] reads; so the
    count is never negative and never above the number of retained
    events. *)
Theorem consumer_invariant (ticks : list tick) (uid : string) (w : EventWindow) :
  user_windows (snd (consume_events ticks (0%N, 0%N) init)) !! uid = Some w ->
  Forall (fun e => ts_parses e = true /\ e !! "user_id"%string = Some uid) (events w) /\
  amount_count w = Z.of_nat (length (List.filter amount_parses (events w))) /\
  0 <= amount_count w <= Z.of_nat (length (events w)).
Proof.
  intros L.
  assert (H0 : state_ok init).
  { intros u w0 L0. cbn [init user_windows] in L0. rewrite lookup_empty in L0.
    discriminate. }
  destruct (consume_events_state_ok ticks (0%N, 0%N) init H0 uid w L) as [F C].
  split; [exact F|]. split; [exact C|].
  pose proof (List.filter_length_le amount_parses (events w)). lia.
Qed.

(** X11.  A call of [process_event] about the user [uid] touches nothing
    that belongs to another user: the window, the hash and the time to
    live of every other user are what they were; and a call that raises
    leaves the whole store as it was. *)
Theorem process_event_frame (env : penv) (event_data : gmap string string) (s : state)
    (other : string) :
  event_data !! "user_id"%string <> Some other ->
  user_windows (fst (process_event env event_data s)) !! other
    = user_windows s !! other /\
  hashes (store (fst (process_event env event_data s))) !! redis_key other
    = hashes (store s) !! redis_key other /\
  ttl (store (fst (process_event env event_data s))) !! redis_key other
    = ttl (store s) !! redis_key other /\
  (is_ok (snd (process_event env event_data s)) = false ->
   store (fst (process_event env event_data s)) = store s).
Proof.
  intros Ho.
  destruct (process_event_effect env event_data s)
    as [E|[E|(uid & w' & U & Hne & M & _ & St)]]; try (rewrite E; cbn; auto).
  assert (Hu : other <> uid) by (intros ->; exact (Ho U)).
  assert (Hk : redis_key uid <> redis_key other).
  { unfold redis_key. intros K. apply Hu. symmetry. exact (String.app_inj _ _ _ K). }
  split; [rewrite M; apply lookup_insert_ne; intros E; exact (Hu (eq_sym E))|].
  destruct St as [[St R]|(R & _ & fs & St)]; rewrite St.
  - auto.
  - unfold write_features. cbn [hashes ttl].
    rewrite !lookup_insert_ne by exact Hk.
    split; [reflexivity|]. split; [reflexivity|].
    rewrite R. discriminate.
Qed.

End ProcessEventEffect.

(** ** Featurizer: records on which nothing can fail *)
Section WellFormedRecords.
Context {rt : Runtime}.

Import Featurizer Invariants.

Lemma amount_or_zero_Ok (e : event) :
  field_ok e "amount" = true -> exists a, amount_or_zero e = Ok a.
Proof.
  unfold field_ok, amount_or_zero. destruct (e !! "amount"%string) as [s|].
  - destruct (to_float s) as [a|]; [exists a; reflexivity | discriminate].
  - intros _. exists 0%float. reflexivity.
Qed.

Lemma amounts_Ok (evs : list event) :
  Forall (fun e => field_ok e "amount" = true) evs -> exists l, amounts evs = Ok l.
Proof.
  induction evs as [|e rest IH]; intros F; cbn [amounts].
  - exists []. reflexivity.
  - apply Forall_cons in F as [Fe F].
    destruct (amount_or_zero_Ok e Fe) as [a ->]. destruct (IH F) as [l ->].
    exists (a :: l). reflexivity.
Qed.

Lemma original_features_Ok (keys : list string) (ev : event) :
  forallb (field_ok ev) keys = true -> exists m, original_features keys ev = Ok m.
Proof.
  induction keys as [|k rest IH]; cbn [forallb original_features].
  - intros _. exists ∅. reflexivity.
  - intros H. apply andb_true_iff in H as [Hk H]. destruct (IH H) as [m Hm].
    unfold field_ok in Hk. destruct (ev !! k) as [s|]; [|exists m; exact Hm].
    destruct (to_float s) as [f|]; [|discriminate]. rewrite Hm.
    exists (<[k := PFloat f]> m). reflexivity.
Qed.

Lemma add_event_Ok (e : event) (w : EventWindow) :
  field_ok e "amount" = true ->
  snd (add_event e w) = Ok tt /\ events (fst (add_event e w)) = events w ++ [e].
Proof.
  unfold field_ok, add_event. destruct (e !! "amount"%string) as [s|].
  - destruct (to_float s); [split; reflexivity | discriminate].
  - split; reflexivity.
Qed.

Lemma cleanup_loop_Ok (cut : Z) (evs : list event) (total : float) (count : Z) :
  Forall (fun e => ts_parses e = true /\ field_ok e "amount" = true) evs ->
  snd (cleanup_loop cut evs total count) = Ok tt /\
  Forall (fun e => ts_parses e = true /\ field_ok e "amount" = true)
         (events (fst (cleanup_loop cut evs total count))).
Proof.
  revert total count. induction evs as [|e rest IH]; intros total count F;
    cbn [cleanup_loop].
  - split; [reflexivity | exact F].
  - pose proof F as F'. apply Forall_cons in F' as [[Te Ae] Fr].
    unfold ts_parses in Te. destruct (event_time e) as [d|]; [|discriminate].
    destruct (at_or_after d cut); [split; [reflexivity | exact F]|].
    unfold field_ok in Ae. destruct (e !! "amount"%string) as [s|].
    + destruct (to_float s); [apply IH, Fr | discriminate].
    + apply IH, Fr.
Qed.

Lemma Forall_filter_bool {A} (P : A -> Prop) (f : A -> bool) (l : list A) :
  Forall P l -> Forall P (List.filter f l).
Proof.
  induction l as [|x l IH]; intros F; cbn [List.filter]; [exact F|].
  apply Forall_cons in F as [Fx F]. destruct (f x); [apply Forall_cons; split|]; auto.
Qed.

Lemma compute_features_succeeds (ev : event) (w : EventWindow) (now : datetime) :
  Forall (fun e => ts_parses e = true /\ field_ok e "amount" = true) (events w) ->
  field_ok ev "amount" = true ->
  exists fs, compute_features ev w now = Ok fs.
Proof.
  intros F A.
  assert (Ft : Forall (fun e => ts_parses e = true) (events w))
    by (eapply Forall_impl; [exact F | intros e [T _]; exact T]).
  assert (Fa : Forall (fun e => field_ok e "amount" = true) (events w))
    by (eapply Forall_impl; [exact F | intros e [_ T]; exact T]).
  unfold compute_features, get_recent. rewrite !(recent_parses _ _ Ft). cbn [bind].
  destruct (amounts_Ok (List.filter (within (cutoff now 3600)) (events w))) as [a1 ->];
    [apply Forall_filter_bool, Fa|].
  destruct (amounts_Ok (List.filter (within (cutoff now 86400)) (events w))) as [a24 ->];
    [apply Forall_filter_bool, Fa|].
  cbn [bind]. destruct (amount_or_zero_Ok ev A) as [cur ->]. cbn [bind].
  eexists. reflexivity.
Qed.

(** The windows stay free of unreadable amounts as long as the records
    processed have a readable amount. *)
Lemma process_event_clean (env : penv) (event_data : gmap string string) (s : state) :
  field_ok event_data "amount" = true ->
  clean s -> clean (fst (process_event env event_data s)).
Proof.
  intros A H.
  destruct (process_event_effect env event_data s)
    as [E|[E|(uid & w' & U & Hne & M & W & _)]]; try (rewrite E; exact H).
  assert (W0 : Forall (fun e => ts_parses e = true /\ field_ok e "amount" = true)
                 (events (window_before s uid))).
  { unfold window_before. destruct (user_windows s !! uid) as [w|] eqn:L.
    - apply (H uid w L).
    - apply Forall_nil; exact I. }
  assert (W1 : ts_parses event_data = true ->
               Forall (fun e => ts_parses e = true /\ field_ok e "amount" = true)
                 (events (fst (add_event event_data (window_before s uid))))).
  { intros T. rewrite (proj2 (add_event_Ok event_data (window_before s uid) A)).
    apply Forall_app. split; [exact W0|]. apply Forall_singleton. auto. }
  intros u w L. rewrite M in L.
  destruct (decide (u = uid)) as [->|Hu].
  - rewrite lookup_insert_eq in L. injection L as <-.
    destruct W as [->|[T [->|[_ ->]]]].
    + exact W0.
    + apply W1, T.
    + unfold cleanup_old. apply cleanup_loop_Ok, W1, T.
  - rewrite lookup_insert_ne in L by (intros E; exact (Hu (eq_sym E))).
    apply (H u w L).
Qed.

(** A well formed record, readable windows and a store that accepts
    the write: no step of [process_event] raises. *)
Lemma process_event_returns (env : penv) (event_data : gmap string string) (s : state) :
  well_formed event_data = true ->
  clean s ->
  redis_ok env = true ->
  snd (process_event env event_data s) = Ok tt.
Proof.
  intros WF H R. unfold well_formed in WF.
  apply andb_true_iff in WF as [WF Fv]. apply andb_true_iff in WF as [WF Fa].
  apply andb_true_iff in WF as [Fd Ft].
  unfold process_event.
  destruct (decode_event event_data) as [ev|] eqn:D; [|discriminate].
  apply decode_event_Ok in D. subst ev.
  destruct (event_data !! "user_id"%string) as [uid|] eqn:U; [|reflexivity].
  destruct (decide (uid = EmptyString)) as [->|Hne]; [reflexivity|].
  set (s1 := match user_windows s !! uid with
             | Some _ => s
             | None => set_window uid new_window s
             end).
  assert (W1 : default new_window (user_windows s1 !! uid) = window_before s uid).
  { unfold s1, window_before. destruct (user_windows s !! uid) eqn:L.
    - rewrite L. reflexivity.
    - unfold set_window. cbn [user_windows]. rewrite lookup_insert_eq. reflexivity. }
  rewrite W1. clearbody s1.
  assert (W0 : Forall (fun e => ts_parses e = true /\ field_ok e "amount" = true)
                 (events (window_before s uid))).
  { unfold window_before. destruct (user_windows s !! uid) as [w|] eqn:L.
    - apply (H uid w L).
    - apply Forall_nil; exact I. }
  unfold ts_parses in Ft.
  destruct (event_time event_data) as [event_ts|] eqn:T; [|discriminate].
  destruct (add_event_Ok event_data (window_before s uid) Fa) as [A1 A2].
  destruct (add_event event_data (window_before s uid)) as [w1 r1].
  cbn [fst snd] in A1, A2. subst r1.
  assert (F1 : Forall (fun e => ts_parses e = true /\ field_ok e "amount" = true)
                 (events w1)).
  { rewrite A2. apply Forall_app. split; [exact W0|]. apply Forall_singleton.
    split; [unfold ts_parses; rewrite T; reflexivity | exact Fa]. }
  unfold cleanup_old.
  destruct (cleanup_loop_Ok (cutoff (now env) 172800) (events w1) (total_amount w1)
              (amount_count w1) F1) as [C1 C2].
  destruct (cleanup_loop (cutoff (now env) 172800) (events w1) (total_amount w1)
              (amount_count w1)) as [w2 r2].
  cbn [fst snd] in C1, C2. subst r2.
  destruct (compute_features_succeeds event_data w2 (now env) C2 Fa) as [fs ->].
  destruct (original_features_Ok feature_order event_data Fv) as [m ->].
  cbn [bind]. rewrite R. reflexivity.
Qed.

(** A well formed record has an amount that [float] reads, if it has
    one. *)
Lemma well_formed_amount (ev : event) :
  well_formed ev = true -> field_ok ev "amount" = true.
Proof.
  unfold well_formed. intros WF.
  apply andb_true_iff in WF as [WF _]. apply andb_true_iff in WF as [_ Fa]. exact Fa.
Qed.

(** X12.  A record on which no conversion can fail is processed without
    error: when the fields of the record decode, its [ts] is readable,
    [float] reads its amount and the model features it carries, every
    event retained in the windows has a readable [ts] and amount, and
    the store accepts the write, [process_event] returns; and the
    windows are again free of unreadable events. *)
Theorem process_event_succeeds (env : penv) (event_data : gmap string string) (s : state) :
  well_formed event_data = true ->
  clean s ->
  redis_ok env = true ->
  snd (process_event env event_data s) = Ok tt /\
  clean (fst (process_event env event_data s)).
Proof.
  intros WF H R. split.
  - apply process_event_returns; assumption.
  - apply process_event_clean; [apply well_formed_amount, WF | exact H].
Qed.

(** X13.  A failed write to the store is not rolled back.  When a well
    formed record of the user [uid] is processed and the store refuses
    the write, [process_event] raises the error of the store and leaves
    the store as it was, but the window of the user has already taken
    the event: it is the window before the call with the event appended
    and old events evicted.  A record that is delivered again is
    appended again. *)
Theorem failed_write_keeps_the_event (env : penv) (event_data : gmap string string)
    (uid : string) (s : state) :
  well_formed event_data = true ->
  clean s ->
  event_data !! "user_id"%string = Some uid ->
  uid <> EmptyString ->
  redis_ok env = false ->
  snd (process_event env event_data s) = Raise RedisError /\
  store (fst (process_event env event_data s)) = store s /\
  user_windows (fst (process_event env event_data s)) !! uid
    = Some (fst (cleanup_old 172800 (now env)
                   (fst (add_event event_data (window_before s uid))))) /\
  events (fst (add_event event_data (window_before s uid)))
    = events (window_before s uid) ++ [event_data].
Proof.
  intros WF H U Hne R. unfold well_formed in WF.
  apply andb_true_iff in WF as [WF Fv]. apply andb_true_iff in WF as [WF Fa].
  apply andb_true_iff in WF as [Fd Ft].
  unfold process_event.
  destruct (decode_event event_data) as [ev|] eqn:D; [|discriminate].
  apply decode_event_Ok in D. subst ev. rewrite U.
  rewrite decide_False by exact Hne.
  set (s1 := match user_windows s !! uid with
             | Some _ => s
             | None => set_window uid new_window s
             end).
  assert (W1 : default new_window (user_windows s1 !! uid) = window_before s uid).
  { unfold s1, window_before. destruct (user_windows s !! uid) eqn:L.
    - rewrite L. reflexivity.
    - unfold set_window. cbn [user_windows]. rewrite lookup_insert_eq. reflexivity. }
  assert (S1 : store s1 = store s).
  { unfold s1. destruct (user_windows s !! uid); reflexivity. }
  rewrite W1. clearbody s1.
  assert (W0 : Forall (fun e => ts_parses e = true /\ field_ok e "amount" = true)
                 (events (window_before s uid))).
  { unfold window_before. destruct (user_windows s !! uid) as [w|] eqn:L.
    - apply (H uid w L).
    - apply Forall_nil; exact I. }
  unfold ts_parses in Ft.
  destruct (event_time event_data) as [event_ts|] eqn:T; [|discriminate].
  destruct (add_event_Ok event_data (window_before s uid) Fa) as [A1 A2].
  destruct (add_event event_data (window_before s uid)) as [w1 r1].
  cbn [fst snd] in A1, A2 |- *. subst r1.
  assert (F1 : Forall (fun e => ts_parses e = true /\ field_ok e "amount" = true)
                 (events w1)).
  { rewrite A2. apply Forall_app. split; [exact W0|]. apply Forall_singleton.
    split; [unfold ts_parses; rewrite T; reflexivity | exact Fa]. }
  unfold cleanup_old.
  destruct (cleanup_loop_Ok (cutoff (now env) 172800) (events w1) (total_amount w1)
              (amount_count w1) F1) as [C1 C2].
  destruct (cleanup_loop (cutoff (now env) 172800) (events w1) (total_amount w1)
              (amount_count w1)) as [w2 r2].
  cbn [fst snd] in C1, C2 |- *. subst r2.
  destruct (compute_features_succeeds event_data w2 (now env) C2 Fa) as [fs ->].
  destruct (original_features_Ok feature_order event_data Fv) as [m ->].
  cbn [bind]. rewrite R. cbn [fst snd set_window store user_windows].
  split; [reflexivity|]. split; [exact S1|].
  split; [apply lookup_insert_eq | exact A2].
Qed.

End WellFormedRecords.

(** ** Featurizer: the cursor of the consumer loop *)
Section CursorProps.
Context {rt : Runtime}.

Import Featurizer Invariants.

Lemma id_lt_spec (a b : stream_id) :
  id_lt a b = true <-> (a.1 < b.1 \/ (a.1 = b.1 /\ a.2 < b.2))%N.
Proof.
  unfold id_lt. rewrite orb_true_iff, andb_true_iff, !N.ltb_lt, N.eqb_eq. tauto.
Qed.

Lemma id_lt_false (a b : stream_id) :
  id_lt a b = false <-> (b.1 < a.1 \/ (b.1 = a.1 /\ b.2 <= a.2))%N.
Proof.
  destruct (id_lt a b) eqn:E.
  - apply id_lt_spec in E. split; [discriminate | lia].
  - split; [intros _ | reflexivity].
    destruct (N.lt_total a.1 b.1) as [H|[H|H]]; [| |lia].
    + assert (X : id_lt a b = true) by (apply id_lt_spec; lia). congruence.
    + destruct (N.lt_ge_cases a.2 b.2) as [H2|H2]; [|lia].
      assert (X : id_lt a b = true) by (apply id_lt_spec; lia). congruence.
Qed.

Lemma id_lt_trans (a b c : stream_id) :
  id_lt a b = true -> id_lt b c = true -> id_lt a c = true.
Proof. rewrite !id_lt_spec. lia. Qed.

Lemma id_lt_irrefl (a : stream_id) : id_lt a a = false.
Proof. apply id_lt_false. lia. Qed.

Lemma id_lt_asym (a b : stream_id) : id_lt a b = true -> id_lt b a = false.
Proof. rewrite id_lt_spec, id_lt_false. lia. Qed.

Lemma id_le_trans (a b c : stream_id) :
  id_lt b a = false -> id_lt c b = false -> id_lt c a = false.
Proof. rewrite !id_lt_false. lia. Qed.

(** After a batch the cursor is where it was or at a record of the
    batch. *)
Lemma process_messages_cursor (env_at : nat -> penv) (i : nat) (msgs : list message)
    (last_id : stream_id) (s : state) :
  fst (process_messages env_at i msgs last_id s) = last_id
  \/ fst (process_messages env_at i msgs last_id s) ∈ (fst <$> msgs).
Proof.
  revert i last_id s. induction msgs as [|[msg_id event_data] rest IH];
    intros i last_id s; cbn [process_messages]; [left; reflexivity|].
  destruct (process_event (env_at i) event_data s) as [s1 [u|x]].
  - right. destruct (IH (S i) msg_id s1) as [->|H].
    + apply list_elem_of_here.
    + apply list_elem_of_further, H.
  - destruct (IH (S i) last_id s1) as [H|H]; [left; exact H|].
    right. apply list_elem_of_further, H.
Qed.

Lemma process_messages_app (env_at : nat -> penv) (i : nat) (l1 l2 : list message)
    (last_id : stream_id) (s : state) :
  process_messages env_at i (l1 ++ l2) last_id s
    = process_messages env_at (i + length l1) l2
        (fst (process_messages env_at i l1 last_id s))
        (snd (process_messages env_at i l1 last_id s)).
Proof.
  revert i last_id s. induction l1 as [|[msg_id event_data] rest IH];
    intros i last_id s; cbn [app process_messages length fst snd].
  - rewrite Nat.add_0_r. reflexivity.
  - destruct (process_event (env_at i) event_data s) as [s1 [u|x]];
      rewrite IH; replace (S i + length rest)%nat with (i + S (length rest))%nat by lia;
      reflexivity.
Qed.

(** [xread] returns records above the cursor only. *)
Lemma xread_above (log : list message) (last_id : stream_id) (count : nat) (m : message) :
  m ∈ xread log last_id count -> id_lt last_id m.1 = true.
Proof.
  unfold xread. intros H. apply elem_of_take in H as (i & H & _).
  apply list_elem_of_lookup_2 in H. apply list_elem_of_filter in H as [H _]. exact H.
Qed.

(** A turn whose read succeeds is the batch loop on what was read. *)
Lemma consume_once_read (t : tick) (last_id : stream_id) (s : state) :
  xread_ok t = true ->
  consume_once t last_id s
    = process_messages (env_at t) 0 (xread (log t) last_id 10) last_id s.
Proof.
  intros H. unfold consume_once. rewrite H.
  destruct (xread (log t) last_id 10); reflexivity.
Qed.

Lemma consume_once_cursor (t : tick) (last_id : stream_id) (s : state) :
  id_lt (fst (consume_once t last_id s)) last_id = false.
Proof.
  unfold consume_once. destruct (xread_ok t); [|apply id_lt_irrefl].
  destruct (xread (log t) last_id 10) as [|m l] eqn:X; [apply id_lt_irrefl|].
  destruct (process_messages_cursor (env_at t) 0 (m :: l) last_id s) as [->|H].
  - apply id_lt_irrefl.
  - apply list_elem_of_fmap in H as (m' & -> & H). rewrite <- X in H.
    apply id_lt_asym, (xread_above _ _ _ _ H).
Qed.

(** X14.  The cursor of the consumer loop never moves back: after any
    number of turns, whatever the log holds and whichever records fail,
    [last_id] is not below the identifier the loop started from. *)
Theorem cursor_never_moves_back (ticks : list tick) (last_id : stream_id) (s : state) :
  id_lt (fst (consume_events ticks last_id s)) last_id = false.
Proof.
  revert last_id s. induction ticks as [|t rest IH]; intros last_id s;
    cbn [consume_events]; [apply id_lt_irrefl|].
  pose proof (consume_once_cursor t last_id s) as H.
  destruct (consume_once t last_id s) as [c s1]. cbn [fst] in H.
  apply (id_le_trans last_id c); [exact H | apply IH].
Qed.

(** *** Logs whose identifiers grow *)

Lemma increasing_weaken (c c' : stream_id) (l : list message) :
  id_lt c' c = true -> increasing c l = true -> increasing c' l = true.
Proof.
  destruct l as [|m rest]; cbn [increasing]; [reflexivity|].
  intros H I. apply andb_true_iff in I as [I1 I2].
  rewrite (id_lt_trans c' c m.1 H I1), I2. reflexivity.
Qed.

Lemma increasing_above (c : stream_id) (l : list message) :
  increasing c l = true -> Forall (fun m => id_lt c m.1 = true) l.
Proof.
  revert c. induction l as [|m rest IH]; intros c; cbn [increasing].
  - intros _. apply Forall_nil; exact I.
  - intros H. apply andb_true_iff in H as [H1 H2].
    apply Forall_cons. split; [exact H1|].
    apply IH, (increasing_weaken m.1 c); assumption.
Qed.

Lemma increasing_app (c : stream_id) (pre post : list message) (m : message) :
  increasing c (pre ++ m :: post) = true ->
  Forall (fun x => id_lt x.1 m.1 = true) pre /\ id_lt c m.1 = true
  /\ increasing m.1 post = true.
Proof.
  revert c. induction pre as [|x pre IH]; intros c; cbn [app increasing].
  - intros H. apply andb_true_iff in H as [H1 H2].
    split; [apply Forall_nil; exact I | auto].
  - intros H. apply andb_true_iff in H as [H1 H2].
    destruct (IH x.1 H2) as (F & L & P).
    split; [apply Forall_cons; auto|].
    split; [apply (id_lt_trans c x.1); assumption | exact P].
Qed.

Lemma increasing_take (c : stream_id) (n : nat) (l : list message) :
  increasing c l = true -> increasing c (take n l) = true.
Proof.
  revert c n. induction l as [|m rest IH]; intros c [|n]; cbn [take increasing]; auto.
  intros H. apply andb_true_iff in H as [H1 H2]. rewrite H1, (IH _ _ H2). reflexivity.
Qed.

Lemma increasing_filter (c : stream_id) (P : message -> Prop)
    `{forall m, Decision (P m)} (l : list message) :
  increasing c l = true -> increasing c (filter P l) = true.
Proof.
  revert c. induction l as [|m rest IH]; intros c; [reflexivity|].
  cbn [increasing]. intros I. apply andb_true_iff in I as [I1 I2].
  rewrite filter_cons. destruct (decide (P m)).
  - cbn [increasing]. rewrite I1, (IH _ I2). reflexivity.
  - apply (increasing_weaken m.1 c); [exact I1 | apply IH, I2].
Qed.

Lemma filter_all (c : stream_id) (l : list message) :
  Forall (fun m => id_lt c m.1 = true) l ->
  filter (fun m : message => id_lt c m.1 = true) l = l.
Proof.
  induction l as [|m rest IH]; intros F; [reflexivity|].
  apply Forall_cons in F as [Fm F]. rewrite filter_cons_True by exact Fm.
  rewrite (IH F). reflexivity.
Qed.

Lemma filter_none (c : stream_id) (l : list message) :
  Forall (fun m => id_lt c m.1 = false) l ->
  filter (fun m : message => id_lt c m.1 = true) l = [].
Proof.
  induction l as [|m rest IH]; intros F; [reflexivity|].
  apply Forall_cons in F as [Fm F]. rewrite filter_cons_False by congruence.
  apply IH, F.
Qed.

(** In a log whose identifiers grow, the records above the identifier
    of a record are the records after it. *)
Lemma filter_after (c : stream_id) (pre post : list message) (m : message) :
  increasing c (pre ++ m :: post) = true ->
  filter (fun x : message => id_lt m.1 x.1 = true) (pre ++ m :: post) = post.
Proof.
  intros H. apply increasing_app in H as (F & _ & P).
  rewrite filter_app, filter_cons_False by (rewrite id_lt_irrefl; discriminate).
  rewrite filter_none, filter_all; [reflexivity | apply increasing_above, P |].
  eapply Forall_impl; [exact F|]. intros x. apply id_lt_asym.
Qed.

(** X15.  A record that was processed without error is not delivered
    again.  In a log whose identifiers grow, when the record [msg_id] of
    the batch was processed without error, the cursor after the turn is
    not below [msg_id], so no later read, of any log, returns a record
    with that identifier. *)
Theorem processed_record_not_redelivered (t : tick) (last_id : stream_id) (s : state)
    (pre post : list message) (msg_id : stream_id) (event_data : gmap string string) :
  xread_ok t = true ->
  increasing (0%N, 0%N) (log t) = true ->
  xread (log t) last_id 10 = pre ++ (msg_id, event_data) :: post ->
  is_ok (snd (process_event (env_at t (length pre)) event_data
                (snd (process_messages (env_at t) 0 pre last_id s)))) = true ->
  id_lt (fst (consume_once t last_id s)) msg_id = false /\
  forall (log' : list message) (count : nat) (data' : gmap string string),
    (msg_id, data') ∉ xread log' (fst (consume_once t last_id s)) count.
Proof.
  intros Hx Hinc X Hok.
  assert (C : id_lt (fst (consume_once t last_id s)) msg_id = false).
  { assert (B : increasing (0%N, 0%N) (pre ++ (msg_id, event_data) :: post) = true).
    { rewrite <- X. unfold xread. apply increasing_take, increasing_filter, Hinc. }
    apply increasing_app in B as (_ & _ & P). cbn [fst] in P.
    rewrite (consume_once_read t last_id s Hx), X.
    rewrite process_messages_app. cbn [process_messages]. cbn [Nat.add].
    destruct (process_event (env_at t (length pre)) event_data
                (snd (process_messages (env_at t) 0 pre last_id s))) as [s1 [u|x]];
      [|discriminate Hok].
    destruct (process_messages_cursor (env_at t) (S (length pre)) post msg_id s1)
      as [->|H].
    - apply id_lt_irrefl.
    - apply list_elem_of_fmap in H as (m' & -> & H).
      apply increasing_above in P. rewrite Forall_forall in P.
      apply id_lt_asym, P, H. }
  split; [exact C|].
  intros log' count data' H. apply xread_above in H. cbn [fst] in H. congruence.
Qed.

(** A batch in which every record is well formed, processed in a clean
    state with a working store: the cursor ends at the last record. *)
Lemma process_messages_all_ok (env_at : nat -> penv) (i : nat) (msgs : list message)
    (last_id : stream_id) (s : state) :
  Forall (fun m : message => well_formed m.2 = true) msgs ->
  (forall j, redis_ok (env_at j) = true) ->
  clean s ->
  fst (process_messages env_at i msgs last_id s)
    = default last_id (fst <$> last msgs)
  /\ clean (snd (process_messages env_at i msgs last_id s)).
Proof.
  intros F R. revert i last_id s. induction msgs as [|[msg_id event_data] rest IH];
    intros i last_id s H; cbn [process_messages]; [split; [reflexivity | exact H]|].
  apply Forall_cons in F as [Fm F]. cbn [snd] in Fm.
  pose proof (process_event_returns (env_at i) event_data s Fm H (R i)) as E1.
  pose proof (process_event_clean (env_at i) event_data s (well_formed_amount _ Fm) H) as E2.
  destruct (process_event (env_at i) event_data s) as [s1 r]. cbn [fst snd] in E1, E2.
  subst r. destruct (IH F (S i) msg_id s1 E2) as [C1 C2].
  split; [|exact C2]. rewrite C1.
  destruct rest as [|m rest']; [reflexivity|].
  change (last ((msg_id, event_data) :: m :: rest')) with (last (m :: rest')).
  destruct (last (m :: rest')) eqn:L; [reflexivity|].
  apply last_None in L. discriminate L.
Qed.

Lemma consume_once_in_order (t : tick) (l : list message) (c0 c : stream_id) (p : nat)
    (s : state) :
  xread_ok t = true -> log t = l ->
  (forall j, redis_ok (env_at t j) = true) ->
  increasing c0 l = true ->
  Forall (fun m : message => well_formed m.2 = true) l ->
  clean s ->
  filter (fun m : message => id_lt c m.1 = true) l = drop p l ->
  filter (fun m : message => id_lt (fst (consume_once t c s)) m.1 = true) l
    = drop (10 + p) l
  /\ clean (snd (consume_once t c s)).
Proof.
  intros Hx Hl R Hinc F H Hp. rewrite (consume_once_read t c s Hx).
  unfold xread. rewrite Hl, Hp.
  destruct (take 10 (drop p l)) as [|m0 b0] eqn:B.
  - cbn [process_messages fst snd]. split; [|exact H]. rewrite Hp.
    assert (D : drop p l = []).
    { destruct (drop p l); [reflexivity | discriminate B]. }
    rewrite Nat.add_comm, <- drop_drop, D. symmetry. apply drop_nil.
  - rewrite <- B.
    assert (Fb : Forall (fun m : message => well_formed m.2 = true) (take 10 (drop p l))).
    { apply Forall_take, Forall_drop, F. }
    destruct (process_messages_all_ok (env_at t) 0 (take 10 (drop p l)) c s Fb R H)
      as [C1 C2].
    split; [|exact C2]. rewrite C1.
    destruct (last (take 10 (drop p l))) as [m|] eqn:L;
      [|apply last_None in L; rewrite L in B; discriminate B].
    apply last_Some in L as [pre L]. cbn [fmap option_fmap option_map default].
    assert (E : l = (take p l ++ pre) ++ m :: drop (10 + p) l).
    { rewrite <- (take_drop p l) at 1. rewrite <- (take_drop 10 (drop p l)) at 1.
      rewrite L, drop_drop, (Nat.add_comm p 10), <- !app_assoc. reflexivity. }
    rewrite E at 1. rewrite E in Hinc.
    apply (filter_after c0), Hinc.
Qed.

(** X16.  On a log whose identifiers grow and whose records are all
    well formed, read with a working store from a state free of
    unreadable events, the consumer takes the records in order, ten at a
    time, each exactly once: after [k] turns the next read returns the
    records number [10 k + 1] to [10 k + 10] of the log. *)
Theorem consumer_reads_log_in_order (ticks : list tick) (l : list message) (s : state) :
  increasing (0%N, 0%N) l = true ->
  Forall (fun m : message => well_formed m.2 = true) l ->
  clean s ->
  Forall (fun t => xread_ok t = true /\ log t = l
                   /\ forall j, redis_ok (env_at t j) = true) ticks ->
  xread l (fst (consume_events ticks (0%N, 0%N) s)) 10
    = take 10 (drop (10 * length ticks) l).
Proof.
  intros Hinc F H Ht. unfold xread. f_equal.
  assert (G : forall c p s,
    clean s ->
    filter (fun m : message => id_lt c m.1 = true) l = drop p l ->
    filter (fun m : message => id_lt (fst (consume_events ticks c s)) m.1 = true) l
      = drop (10 * length ticks + p) l).
  { clear H s. induction ticks as [|t rest IH]; intros c p s H Hp;
      cbn [consume_events length]; [exact Hp|].
    apply Forall_cons in Ht as [(Hx & Hl & R) Ht].
    destruct (consume_once_in_order t l (0%N, 0%N) c p s Hx Hl R Hinc F H Hp)
      as [Q1 Q2].
    destruct (consume_once t c s) as [c1 s1]. cbn [fst snd] in Q1, Q2.
    rewrite (IH Ht c1 (10 + p)%nat s1 Q2 Q1). f_equal. lia. }
  rewrite (G (0%N, 0%N) 0%nat s H).
  - rewrite Nat.add_0_r. reflexivity.
  - cbn [drop]. apply filter_all, increasing_above, Hinc.
Qed.

End CursorProps.

(** ** Featurizer: what a successful call writes to the store *)
Section PublishedFeatures.
Context {rt : Runtime}.

Import Featurizer Invariants.

(** The model features are not behavioural features, nor the two
    timestamps of the hash. *)
Lemma feature_order_apart :
  Forall (fun k => (k ∉ behavioural) /\ k <> "last_event_ts"%string
                   /\ k <> "last_feature_update_ts"%string) feature_order.
Proof. apply (bool_decide_unpack _). vm_compute. exact I. Qed.

Lemma behavioural_apart :
  Forall (fun k => k <> "last_event_ts"%string
                   /\ k <> "last_feature_update_ts"%string) behavioural.
Proof. apply (bool_decide_unpack _). vm_compute. exact I. Qed.

(** The model features copied from the event: each field that is there,
    converted by [float], and nothing else. *)
Lemma original_features_lookup (keys : list string) (ev : event) (m : gmap string pyval) :
  original_features keys ev = Ok m ->
  forall k,
    (k ∈ keys -> forall v, ev !! k = Some v ->
       exists f, float_of_str v = Some f /\ m !! k = Some (PFloat f)) /\
    (k ∉ keys \/ ev !! k = None -> m !! k = None).
Proof.
  revert m. induction keys as [|k0 rest IH]; intros m; cbn [original_features].
  - intros [= <-] k. split.
    + intros H. apply elem_of_nil in H. contradiction.
    + intros _. apply lookup_empty.
  - destruct (ev !! k0) as [s|] eqn:E0.
    + destruct (to_float s) as [f|] eqn:Fs; cbn [bind]; [|discriminate].
      destruct (original_features rest ev) as [m'|]; cbn [bind]; [|discriminate].
      intros [= <-] k. specialize (IH m' eq_refl k) as [IH1 IH2].
      destruct (decide (k = k0)) as [->|Hk].
      * split.
        -- intros _ v Hv. rewrite E0 in Hv. injection Hv as <-.
           exists f. split; [apply to_float_Ok, Fs | apply lookup_insert_eq].
        -- intros [H|H]; [exfalso; apply H, list_elem_of_here | congruence].
      * rewrite lookup_insert_ne by (intros E; exact (Hk (eq_sym E))). split.
        -- intros H. apply elem_of_cons in H as [H|H]; [contradiction | exact (IH1 H)].
        -- intros [H|H]; apply IH2; [left | right; exact H].
           intros X. apply H, list_elem_of_further, X.
    + intros Hm k. specialize (IH m Hm k) as [IH1 IH2]. split.
      * intros H v Hv. apply elem_of_cons in H as [->|H]; [congruence | exact (IH1 H v Hv)].
      * intros [H|H]; apply IH2; [left | right; exact H].
        intros X. apply H, list_elem_of_further, X.
Qed.

(** The dictionary of [compute_features] has the eleven behavioural
    names and no other. *)
Lemma compute_features_keys (ev : event) (w : EventWindow) (now : datetime)
    (fs : gmap string pyval) :
  compute_features ev w now = Ok fs ->
  Forall (fun k => is_Some (fs !! k)) behavioural /\
  forall k, k ∉ behavioural -> fs !! k = None.
Proof.
  unfold compute_features.
  destruct (get_recent 300 now w) as [e5|]; [|discriminate].
  destruct (get_recent 3600 now w) as [e1|]; [|discriminate].
  destruct (get_recent 86400 now w) as [e24|]; [|discriminate].
  cbn [bind].
  destruct (amounts e1) as [a1|]; [|discriminate].
  destruct (amounts e24) as [a24|]; [|discriminate].
  cbn [bind].
  destruct (amount_or_zero ev) as [current|]; [|discriminate].
  cbn [bind]. intros [= <-]. split.
  - unfold behavioural.
    repeat (apply Forall_cons; split;
            [repeat (rewrite lookup_insert_ne by discriminate);
             rewrite lookup_insert_eq; eexists; reflexivity|]).
    apply Forall_nil. exact I.
  - intros k Hk. unfold behavioural in Hk.
    repeat (apply not_elem_of_cons in Hk as [? Hk]).
    cbn [list_to_map foldr uncurry fst snd].
    repeat (rewrite lookup_insert_ne by congruence). apply lookup_empty.
Qed.

(** A call that returns for the user [uid] has sent one dictionary to
    the store: the behavioural features, the model features of the
    event, and the two timestamps. *)
Lemma process_event_store (env : penv) (event_data : gmap string string)
    (uid : string) (s s' : state) :
  event_data !! "user_id"%string = Some uid ->
  uid <> EmptyString ->
  process_event env event_data s = (s', Ok tt) ->
  exists ts w fs m,
    event_data !! "ts"%string = Some ts /\
    compute_features event_data w (now env) = Ok fs /\
    original_features feature_order event_data = Ok m /\
    store s'
      = write_features (redis_key uid)
          (<["last_feature_update_ts"%string := PStr (isoformat (now env) ++ "Z")]>
             (<["last_event_ts"%string := PStr ts]> (fs ∪ m)))
          (store s).
Proof.
  intros U Hne. unfold process_event.
  destruct (decode_event event_data) as [ev|] eqn:D; [|discriminate].
  apply decode_event_Ok in D. subst ev. rewrite U.
  rewrite decide_False by exact Hne.
  set (s1 := match user_windows s !! uid with
             | Some _ => s
             | None => set_window uid new_window s
             end).
  assert (S1 : store s1 = store s).
  { unfold s1. destruct (user_windows s !! uid); reflexivity. }
  clearbody s1.
  destruct (event_time event_data) as [event_ts|] eqn:T; [|discriminate].
  assert (Hts : exists ts, event_data !! "ts"%string = Some ts).
  { unfold event_time in T. destruct (event_data !! "ts"%string) as [ts|];
      [exists ts; reflexivity | discriminate]. }
  destruct Hts as [ts Hts].
  destruct (add_event event_data (default new_window (user_windows s1 !! uid)))
    as [w1 [[]|]]; [|discriminate].
  destruct (cleanup_old 172800 (now env) w1) as [w2 [[]|]]; [|discriminate].
  destruct (compute_features event_data w2 (now env)) as [fs|] eqn:F; [|discriminate].
  cbn [bind].
  destruct (original_features feature_order event_data) as [m|] eqn:O; [|discriminate].
  cbn [bind].
  destruct (redis_ok env); [|discriminate].
  intros [= <-].
  exists ts, w2, fs, m. split; [exact Hts|]. split; [exact F|]. split; [reflexivity|].
  unfold get_str. rewrite Hts. cbn [default store set_window]. rewrite S1. reflexivity.
Qed.

(** A model feature of the hash written: the one of the event if the
    event carries it, the one the hash had if not. *)
Lemma written_model_feature (key k : string) (now_s ts : string)
    (fs m : gmap string pyval) (r : Redis) :
  (forall k, k ∉ behavioural -> fs !! k = None) ->
  k ∈ feature_order ->
  hashes (write_features key
            (<["last_feature_update_ts"%string := PStr now_s]>
               (<["last_event_ts"%string := PStr ts]> (fs ∪ m))) r) !! key
    = Some (<["last_feature_update_ts"%string := PStr now_s]>
              (<["last_event_ts"%string := PStr ts]> (fs ∪ m))
            ∪ default ∅ (hashes r !! key)) /\
  (<["last_feature_update_ts"%string := PStr now_s]>
     (<["last_event_ts"%string := PStr ts]> (fs ∪ m))
   ∪ default ∅ (hashes r !! key)) !! k
    = match m !! k with
      | Some v => Some v
      | None => (hashes r !! key) ≫= (fun old => old !! k)
      end.
Proof.
  intros Kout Hk.
  pose proof feature_order_apart as Fa. rewrite Forall_forall in Fa.
  destruct (Fa k Hk) as (A1 & A2 & A3).
  split; [unfold write_features; cbn [hashes]; apply lookup_insert_eq|].
  destruct (m !! k) as [v|] eqn:L.
  - apply lookup_union_Some_l.
    rewrite lookup_insert_ne by (intros E; exact (A3 (eq_sym E))).
    rewrite lookup_insert_ne by (intros E; exact (A2 (eq_sym E))).
    rewrite lookup_union_r by (apply Kout, A1). exact L.
  - rewrite lookup_union_r.
    + destruct (hashes r !! key) as [old|]; cbn [default mbind option_bind];
        [reflexivity | apply lookup_empty].
    + rewrite lookup_insert_ne by (intros E; exact (A3 (eq_sym E))).
      rewrite lookup_insert_ne by (intros E; exact (A2 (eq_sym E))).
      rewrite lookup_union_r by (apply Kout, A1). exact L.
Qed.

(** X17.  What a call of [process_event] that returns has written for
    the user: the hash [features:user:uid] holds the [ts] of the event as
    [last_event_ts], the clock reading followed by [Z] as
    [last_feature_update_ts], a value for each of the eleven behavioural
    features, and for each model feature the event carries its [float]
    value; a model feature the event does not carry keeps the value the
    hash had; and the key expires after 172800 seconds. *)
Theorem process_event_publishes (env : penv) (event_data : gmap string string)
    (uid : string) (s s' : state) :
  event_data !! "user_id"%string = Some uid ->
  uid <> EmptyString ->
  process_event env event_data s = (s', Ok tt) ->
  exists h ts,
    event_data !! "ts"%string = Some ts /\
    hashes (store s') !! redis_key uid = Some h /\
    ttl (store s') !! redis_key uid = Some 172800 /\
    h !! "last_event_ts"%string = Some (PStr ts) /\
    h !! "last_feature_update_ts"%string
      = Some (PStr (isoformat (now env) ++ "Z")) /\
    Forall (fun k => is_Some (h !! k)) behavioural /\
    (forall k v, k ∈ feature_order -> event_data !! k = Some v ->
       exists f, float_of_str v = Some f /\ h !! k = Some (PFloat f)) /\
    (forall k, k ∈ feature_order -> event_data !! k = None ->
       h !! k = (hashes (store s) !! redis_key uid) ≫= (fun old => old !! k)).
Proof.
  intros U Hne P.
  destruct (process_event_store env event_data uid s s' U Hne P)
    as (ts & w & fs & m & Hts & F & O & ->).
  destruct (compute_features_keys _ _ _ _ F) as [Kin Kout].
  pose proof (original_features_lookup _ _ _ O) as Ko.
  pose proof behavioural_apart as Ba. rewrite Forall_forall in Ba.
  eexists _, ts. split; [exact Hts|].
  split; [unfold write_features; cbn [hashes]; apply lookup_insert_eq|].
  split; [unfold write_features; cbn [ttl]; apply lookup_insert_eq|].
  split.
  { apply lookup_union_Some_l. rewrite lookup_insert_ne by discriminate.
    apply lookup_insert_eq. }
  split.
  { apply lookup_union_Some_l. apply lookup_insert_eq. }
  split.
  { rewrite Forall_forall. intros k Hk.
    rewrite Forall_forall in Kin. destruct (Kin k Hk) as [v Hv].
    destruct (Ba k Hk) as [B1 B2].
    exists v. apply lookup_union_Some_l.
    rewrite lookup_insert_ne by (intros E; exact (B2 (eq_sym E))).
    rewrite lookup_insert_ne by (intros E; exact (B1 (eq_sym E))).
    apply lookup_union_Some_l, Hv. }
  split.
  { intros k v Hk Hv.
    destruct (proj1 (Ko k) Hk v Hv) as (f & Hf & Hm).
    exists f. split; [exact Hf|].
    rewrite (proj2 (written_model_feature _ k _ ts fs m (store s) Kout Hk)), Hm.
    reflexivity. }
  intros k Hk Hv.
  rewrite (proj2 (written_model_feature _ k _ ts fs m (store s) Kout Hk)).
  rewrite (proj2 (Ko k) (or_intror Hv)). reflexivity.
Qed.

End PublishedFeatures.

(** ** Inference: what the answer depends on, its shape, the debug endpoint *)
Section InferAnswers.
Context {rt : Runtime}.

Import Reasons FeatureVector Infer Invariants.

(** The vector is a function of the 29 model features alone. *)
Lemma build_feature_vector_ext (m1 m2 : gmap string pyval) :
  (forall k, k ∈ feature_order -> m1 !! k = m2 !! k) ->
  build_feature_vector m1 = build_feature_vector m2.
Proof.
  intros H. unfold build_feature_vector.
  assert (E : map (entry m1) feature_order = map (entry m2) feature_order).
  { apply map_ext_in. intros k Hk. unfold entry.
    rewrite (H k) by (apply list_elem_of_In, Hk). reflexivity. }
  rewrite E. reflexivity.
Qed.

(** X18.  The score and the decision of [predict] depend on the stored
    hash through the 29 model features only: two stores that both hold
    a hash for the user, with the same values for V1..V28 and
    Amount_normalized, and the same model, give the same risk score and
    the same decision, or the same error; the behavioural features only
    bear on the reasons. *)
Theorem predict_uses_only_model_features (cfg : config) (e1 e2 : env) (uid : string)
    (f1 f2 : gmap string string) :
  hgetall e1 (redis_key uid) = Ok f1 ->
  hgetall e2 (redis_key uid) = Ok f2 ->
  f1 <> ∅ -> f2 <> ∅ ->
  (forall k, k ∈ feature_order -> f1 !! k = f2 !! k) ->
  model e1 = model e2 ->
  match predict cfg e1 uid, predict cfg e2 uid with
  | Http200 b1, Http200 b2 =>
      risk_score b1 = risk_score b2 /\ decision b1 = decision b2
  | Http500 x1, Http500 x2 => x1 = x2
  | _, _ => False
  end.
Proof.
  intros G1 G2 N1 N2 H M. unfold predict, predict_body. rewrite G1, G2. cbn [bind].
  rewrite !decide_False by assumption.
  assert (V : build_feature_vector (PStr <$> f1) = build_feature_vector (PStr <$> f2)).
  { apply build_feature_vector_ext. intros k Hk. rewrite !lookup_fmap, (H k Hk).
    reflexivity. }
  rewrite V, M.
  destruct (model e2 (build_feature_vector (PStr <$> f2))) as [score|x]; cbn [bind].
  - split; reflexivity.
  - reflexivity.
Qed.

(** The list [generate_reasons] returns: one to three codes, all
    different, all from the known codes. *)
Lemma generate_reasons_shape (m : gmap string pyval) (score : float) :
  (1 <= length (generate_reasons m score) <= 3)%nat /\
  NoDup (generate_reasons m score) /\
  Forall (fun r => r ∈ reason_codes) (generate_reasons m score) /\
  ("no_significant_indicators"%string ∈ generate_reasons m score ->
   generate_reasons m score = ["no_significant_indicators"%string]).
Proof.
  unfold generate_reasons.
  destruct (gt (get_float m "txns_last_5m") 5),
           (gt (get_float m "txns_last_1h") 20),
           (gt (get_float m "avg_amount_1h") 0),
           (gt (get_float m "amount_zscore") 3),
           (gt (get_float m "device_churn_24h") 2),
           (gt (get_float m "ip_changes_24h") 3),
           (gt (get_float m "merchant_velocity_1h") 5);
    apply (bool_decide_unpack _); vm_compute; exact I.
Qed.

(** "missing_features" is not a code of [generate_reasons]. *)
Lemma generate_reasons_not_missing (m : gmap string pyval) (score : float) :
  "missing_features"%string ∉ generate_reasons m score.
Proof.
  destruct (generate_reasons_shape m score) as (_ & _ & F & _).
  rewrite Forall_forall in F. intros H. specialize (F _ H). revert F.
  apply (bool_decide_unpack _). vm_compute. exact I.
Qed.

(** X19.  The shape of what [predict] answers.  A 200 answer carries the
    user id of the request, a decision among allow, step_up and block,
    and one to three reasons, all different, each either
    "missing_features" or a code of [generate_reasons];
    "missing_features" is there exactly when the store holds no hash for
    the user, and then it is the only reason.  A 500 answer carries the
    error of the store read or of the model; no other status is
    answered. *)
Theorem predict_answer_shape (cfg : config) (e : env) (uid : string) :
  match predict cfg e uid with
  | Http200 body =>
      user_id body = uid /\
      (decision body = "allow"%string \/ decision body = "step_up"%string
       \/ decision body = "block"%string) /\
      (1 <= length (reasons body) <= 3)%nat /\
      NoDup (reasons body) /\
      (forall r, r ∈ reasons body ->
         r = "missing_features"%string \/ r ∈ reason_codes) /\
      ("missing_features"%string ∈ reasons body
         <-> hgetall e (redis_key uid) = Ok ∅) /\
      ("missing_features"%string ∈ reasons body ->
         reasons body = ["missing_features"%string])
  | Http500 x =>
      hgetall e (redis_key uid) = Raise x \/ exists t, model e t = Raise x
  end.
Proof.
  unfold predict, predict_body.
  destruct (hgetall e (redis_key uid)) as [fetched|x]; cbn [bind]; [|left; reflexivity].
  assert (D : forall score, decide_risk cfg score = "allow"%string
                \/ decide_risk cfg score = "step_up"%string
                \/ decide_risk cfg score = "block"%string).
  { intros score. unfold decide_risk.
    destruct (PrimFloat.ltb score (threshold_allow cfg)); [auto|].
    destruct (PrimFloat.ltb score (threshold_block cfg)); auto. }
  destruct (decide (fetched = ∅)) as [->|Hne].
  - destruct (model e (build_feature_vector get_default_features)) as [score|x] eqn:M;
      cbn [bind]; [|right; eexists; exact M].
    cbn [user_id decision reasons length].
    split; [reflexivity|]. split; [apply D|]. split; [lia|].
    split; [apply NoDup_singleton|].
    split; [intros r Hr; apply list_elem_of_singleton in Hr; left; exact Hr|].
    split; [split; [reflexivity | intros _; apply list_elem_of_here]|].
    reflexivity.
  - destruct (model e (build_feature_vector (PStr <$> fetched))) as [score|x] eqn:M;
      cbn [bind]; [|right; eexists; exact M].
    cbn [user_id decision reasons].
    destruct (generate_reasons_shape (PStr <$> fetched) score) as (L & N & F & _).
    rewrite Forall_forall in F.
    pose proof (generate_reasons_not_missing (PStr <$> fetched) score) as X.
    split; [reflexivity|]. split; [apply D|]. split; [exact L|]. split; [exact N|].
    split; [intros r Hr; right; apply F, Hr|].
    split; [split; [intros H; contradiction | intros [= E]; contradiction]|].
    intros H. contradiction.
Qed.

(** X20.  The debug endpoint agrees with [predict].  It answers 500 with
    the error of the store exactly when [predict] does for that reason;
    it answers 404 exactly when the store holds no hash for the user,
    which is when [predict] falls back to "missing_features"; otherwise
    it shows every stored field, as a number where [float] reads it and
    as the stored string where it does not, and the vector [predict]
    hands to the model is, entry by entry, the float32 rounding of the
    number shown for that model feature, 0.0 where no number is
    shown. *)
Theorem get_features_agrees_with_predict (cfg : config) (e : env) (uid : string) :
  match get_features e uid with
  | Features500 x =>
      hgetall e (redis_key uid) = Raise x /\ predict cfg e uid = Http500 x
  | Features404 detail =>
      hgetall e (redis_key uid) = Ok ∅ /\
      detail = ("No features found for user " ++ uid)%string /\
      forall body, predict cfg e uid = Http200 body ->
        reasons body = ["missing_features"%string]
  | Features200 u shown =>
      u = uid /\
      exists fetched,
        hgetall e (redis_key uid) = Ok fetched /\ fetched <> ∅ /\
        dom shown = dom fetched /\
        (forall k s, fetched !! k = Some s ->
           shown !! k = Some (match float_of_str s with
                              | Some f => PFloat f
                              | None => PStr s
                              end)) /\
        data (build_feature_vector (PStr <$> fetched))
          = map (fun k => to_float32 (match shown !! k with
                                      | Some (PFloat f) => f
                                      | _ => 0%float
                                      end)) feature_order /\
        forall body, predict cfg e uid = Http200 body ->
          "missing_features"%string ∉ reasons body
  end.
Proof.
  unfold get_features. unfold predict, predict_body in *.
  destruct (hgetall e (redis_key uid)) as [fetched|x]; cbn [bind] in *;
    [|split; reflexivity].
  destruct (decide (fetched = ∅)) as [->|Hne].
  - split; [reflexivity|]. split; [reflexivity|].
    intros body H.
    destruct (model e (build_feature_vector get_default_features)); cbn [bind] in H;
      [|discriminate]. injection H as <-. reflexivity.
  - split; [reflexivity|]. exists fetched.
    split; [reflexivity|]. split; [exact Hne|].
    split; [apply dom_fmap_L|].
    assert (C : forall k s, fetched !! k = Some s ->
              (convert <$> fetched) !! k
                = Some (match float_of_str s with
                        | Some f => PFloat f
                        | None => PStr s
                        end)).
    { intros k s H. rewrite lookup_fmap, H. cbn [fmap option_fmap option_map].
      unfold convert, py_float. destruct (float_of_str s); reflexivity. }
    split; [exact C|]. split.
    + unfold build_feature_vector. cbn [data]. rewrite map_map.
      apply map_ext. intros k. unfold entry. rewrite lookup_fmap.
      destruct (fetched !! k) as [s|] eqn:L.
      * rewrite (C k s L). cbn [fmap option_fmap option_map py_float].
        destruct (float_of_str s); reflexivity.
      * rewrite lookup_fmap, L. reflexivity.
    + intros body H.
      destruct (model e (build_feature_vector (PStr <$> fetched))); cbn [bind] in *;
        [|discriminate]. injection H as <-.
      cbn [reasons]. apply generate_reasons_not_missing.
Qed.

Lemma severity_allow : severity "allow" = 0.
Proof. reflexivity. Qed.
Lemma severity_step_up : severity "step_up" = 1.
Proof. reflexivity. Qed.
Lemma severity_block : severity "block" = 2.
Proof. reflexivity. Qed.

(** X21.  The decision is monotone in the score: for any thresholds, a
    score that is greater than or equal to another never gets a milder
    decision. *)
Theorem decide_risk_monotone (cfg : config) (s1 s2 : float) :
  PrimFloat.leb s1 s2 = true ->
  severity (decide_risk cfg s1) <= severity (decide_risk cfg s2).
Proof.
  intros H. unfold decide_risk.
  destruct (PrimFloat.ltb s2 (threshold_allow cfg)) eqn:A2.
  - rewrite (leb_ltb_trans _ _ _ H A2). lia.
  - destruct (PrimFloat.ltb s2 (threshold_block cfg)) eqn:B2.
    + rewrite (leb_ltb_trans _ _ _ H B2).
      destruct (PrimFloat.ltb s1 (threshold_allow cfg));
        rewrite ?severity_allow, ?severity_step_up; lia.
    + rewrite severity_block.
      destruct (PrimFloat.ltb s1 (threshold_allow cfg));
        [|destruct (PrimFloat.ltb s1 (threshold_block cfg))];
        rewrite ?severity_allow, ?severity_step_up, ?severity_block; lia.
Qed.

(** X22.  The thresholds are read from the environment without a check
    of their order: when [threshold_block <= threshold_allow], no score
    is ever answered with step_up. *)
Theorem decide_risk_without_step_up (cfg : config) (score : float) :
  PrimFloat.leb (threshold_block cfg) (threshold_allow cfg) = true ->
  decide_risk cfg score <> "step_up"%string.
Proof.
  intros H. unfold decide_risk.
  destruct (PrimFloat.ltb score (threshold_allow cfg)) eqn:A; [discriminate|].
  destruct (PrimFloat.ltb score (threshold_block cfg)) eqn:B; [|discriminate].
  rewrite (ltb_leb_trans _ _ _ B H) in A. discriminate A.
Qed.

End InferAnswers.

(** ** From the ingest handler to the vector of [predict] *)
Section Pipeline.
Context {rt : Runtime}.
Variable float_repr : float -> string.

Import Ingest Featurizer Invariants.

(** The record the handler publishes for an event: its [ts], its
    [user_id], [str] of its amount and of its model features. *)
Lemma stream_data_fields (e : TransactionEvent) :
  (py_str float_repr <$> model_dump e) !! "ts"%string = Some (ts e) /\
  (py_str float_repr <$> model_dump e) !! "user_id"%string = Some (Ingest.user_id e) /\
  (py_str float_repr <$> model_dump e) !! "amount"%string
    = Some (float_repr (amount e)) /\
  Forall2 (fun k f => (py_str float_repr <$> model_dump e) !! k = Some (float_repr f))
          feature_order (model_features e).
Proof.
  split; [vm_refl|]. split; [vm_refl|]. split; [vm_refl|].
  unfold feature_order, model_features. cbn [seq fmap list_fmap app].
  repeat (apply List.Forall2_cons; [vm_refl|]). apply List.Forall2_nil.
Qed.

Lemma fields_ok (record : event) (ks : list string) (fs : list float) :
  Forall2 (fun k f => record !! k = Some (float_repr f)) ks fs ->
  Forall (fun f => float_of_str (float_repr f) = Some f) fs ->
  forallb (field_ok record) ks = true.
Proof.
  induction 1 as [|k f ks fs Hk _ IH]; intros F; [reflexivity|].
  apply Forall_cons in F as [Ff F]. cbn [forallb].
  rewrite (IH F), andb_true_r. unfold field_ok, to_float, py_float.
  rewrite Hk, Ff. reflexivity.
Qed.

Lemma map_Forall2 {A B : Type} (g : A -> B) (P : A -> B -> Prop) (ks : list A)
    (fs : list B) :
  Forall2 P ks fs ->
  (forall k f, k ∈ ks -> f ∈ fs -> P k f -> g k = f) ->
  map g ks = fs.
Proof.
  induction 1 as [|k f ks fs Hk _ IH]; intros G; [reflexivity|].
  cbn [map]. rewrite (G k f (list_elem_of_here _ _) (list_elem_of_here _ _) Hk). f_equal.
  apply IH. intros k' f' Hin Hin'. apply G; apply list_elem_of_further; assumption.
Qed.

(** X23.  From the ingest handler to the model.  Take the record the
    handler publishes for an event with a non-empty [user_id] and a
    readable [ts], such that [float] reads back what [str] writes for
    the amount and the model features of the event, and whose fields
    decode.  Processed by the featurizer with readable windows and a
    working store, it raises nothing, and from the hash then stored for
    the user, each value read back as the string [str] made of it,
    [build_feature_vector] builds the tensor of shape (1, 29) whose
    entries are the float32 roundings of [V1..V28] and
    [Amount_normalized] of that event, in this order. *)
Theorem ingested_event_reaches_model (e : TransactionEvent) (env : penv) (s : state) :
  Forall (fun f => float_of_str (float_repr f) = Some f) (amount e :: model_features e) ->
  is_ok (parse_iso (ts e)) = true ->
  is_ok (decode_event (py_str float_repr <$> model_dump e)) = true ->
  Ingest.user_id e <> EmptyString ->
  clean s ->
  redis_ok env = true ->
  snd (process_event env (py_str float_repr <$> model_dump e) s) = Ok tt /\
  exists h,
    hashes (store (fst (process_event env (py_str float_repr <$> model_dump e) s)))
      !! redis_key (Ingest.user_id e) = Some h /\
    FeatureVector.build_feature_vector (PStr <$> (py_str float_repr <$> h))
      = FeatureVector.mk_tensor [1; 29]%nat (to_float32 <$> model_features e).
Proof.
  intros RT TS D U C R.
  destruct (stream_data_fields e) as (Fts & Fu & Fa & Fv).
  set (record := py_str float_repr <$> model_dump e) in *.
  apply Forall_cons in RT as [Ra Rv].
  assert (WF : well_formed record = true).
  { unfold well_formed. rewrite D, (fields_ok record _ _ Fv Rv), andb_true_r.
    cbn [andb]. apply andb_true_iff. split.
    - unfold ts_parses, event_time. rewrite Fts.
      destruct (parse_iso (ts e)); [reflexivity | discriminate TS].
    - unfold field_ok, to_float, py_float. rewrite Fa, Ra. reflexivity. }
  pose proof (process_event_returns env record s WF C R) as E.
  split; [exact E|].
  destruct (process_event env record s) as [s' r] eqn:P. cbn [fst snd] in E |- *. subst r.
  destruct (process_event_store env record (Ingest.user_id e) s s' Fu U P)
    as (ts0 & w & fs & m & _ & F & O & ->).
  destruct (compute_features_keys _ _ _ _ F) as [_ Kout].
  pose proof (original_features_lookup _ _ _ O) as Ko.
  set (h := <["last_feature_update_ts"%string := PStr (isoformat (now env) ++ "Z")]>
              (<["last_event_ts"%string := PStr ts0]> (fs ∪ m))
            ∪ default ∅ (hashes (store s) !! redis_key (Ingest.user_id e))).
  exists h. split; [unfold write_features; cbn [hashes]; apply lookup_insert_eq|].
  assert (Hm : forall k v, k ∈ feature_order -> record !! k = Some v ->
             exists f, float_of_str v = Some f /\ h !! k = Some (PFloat f)).
  { intros k v Hk Hv. destruct (proj1 (Ko k) Hk v Hv) as (f & Hf & Hl).
    exists f. split; [exact Hf|]. unfold h.
    rewrite (proj2 (written_model_feature (redis_key (Ingest.user_id e)) k _ ts0 fs m
                      (store s) Kout Hk)), Hl. reflexivity. }
  unfold FeatureVector.build_feature_vector.
  assert (V : map (FeatureVector.entry (PStr <$> (py_str float_repr <$> h)))
                  FeatureVector.feature_order = model_features e).
  { apply (map_Forall2 _ _ _ _ Fv). intros k f Hin Hf0 Hk.
    destruct (Hm k _ Hin Hk) as (f' & Hf & Hl).
    rewrite Forall_forall in Rv. specialize (Rv f Hf0).
    assert (f' = f) by congruence.
    subst f'. unfold FeatureVector.entry.
    rewrite !lookup_fmap, Hl. cbn [fmap option_fmap option_map py_str py_float].
    rewrite Hf. reflexivity. }
  rewrite V. cbn [length]. reflexivity.
Qed.

End Pipeline.

(** ** The properties above at concrete inputs *)

(** [flush_returns_count] applies to a writer that holds one event. *)
Lemma flush_returns_count_witness :
  S3Writer.flush (rt := Reference.runtime) Examples.io_ok Scenarios.one_buffered
    = (Scenarios.one_flushed, Ok 1) /\
  1 = S3Writer.get_buffer_size (S3Writer.writer Scenarios.one_buffered) /\
  S3Writer.get_buffer_size (S3Writer.writer Scenarios.one_flushed) = 0 /\
  exists first d,
    head (S3Writer.buffer (S3Writer.writer Scenarios.one_buffered)) = Some first /\
    S3Writer.first_event_ts (rt := Reference.runtime) first = Ok d /\
    S3Writer.read_table (S3Writer.disk Scenarios.one_flushed)
      (S3Writer.file_path
         (S3Writer.base_path (S3Writer.writer Scenarios.one_buffered)) d
         (S3Writer.uuid8 Examples.io_ok))
      = Some (S3Writer.buffer (S3Writer.writer Scenarios.one_buffered)).
Proof.
  assert (F : S3Writer.flush (rt := Reference.runtime) Examples.io_ok
                Scenarios.one_buffered = (Scenarios.one_flushed, Ok 1)) by vm_refl.
  split; [exact F|].
  destruct (flush_returns_count (rt := Reference.runtime) _ _ _ _ F) as (A & B & _ & C).
  split; [exact A|]. split; [exact B|].
  destruct (C ltac:(lia)) as (first & d & H1 & H2 & H3 & _).
  exists first, d. split; [exact H1|]. split; [exact H2 | exact H3].
Defined.

(** [flush_raises] applies to a writer whose first buffered event has an
    unreadable [ts]. *)
Lemma flush_raises_witness :
  S3Writer.flush (rt := Reference.runtime) Examples.io_ok Scenarios.two_buffered
    = (Scenarios.two_lost, Raise ValueError) /\
  S3Writer.disk Scenarios.two_lost = S3Writer.disk Scenarios.two_buffered.
Proof.
  assert (F : S3Writer.flush (rt := Reference.runtime) Examples.io_ok
                Scenarios.two_buffered = (Scenarios.two_lost, Raise ValueError))
    by vm_refl.
  split; [exact F|].
  exact (proj1 (flush_raises (rt := Reference.runtime) _ _ _ _ F)).
Defined.

(** [flusher_retries_failed_write] applies to two failed turns followed
    by a turn with a working store. *)
Lemma flusher_retries_failed_write_witness :
  S3Writer.start_background_flusher (rt := Reference.runtime)
    ([Scenarios.io_write_fails; Scenarios.io_write_fails] ++ [Examples.io_ok])
    Scenarios.one_buffered
  = S3Writer.mk_state
      (S3Writer.set_buffer (S3Writer.writer Scenarios.one_buffered) [])
      (S3Writer.disk Scenarios.one_buffered
       ++ [S3Writer.mk_blob
             (S3Writer.file_path
                (S3Writer.base_path (S3Writer.writer Scenarios.one_buffered))
                (mk_datetime 2025 1 15 9 59 0 0 (Some 0))
                (S3Writer.uuid8 Examples.io_ok))
             [Examples.good_event]]).
Proof.
  apply (flusher_retries_failed_write (rt := Reference.runtime)
           [Scenarios.io_write_fails; Scenarios.io_write_fails] Examples.io_ok
           Scenarios.one_buffered Examples.good_event []
           (mk_datetime 2025 1 15 9 59 0 0 (Some 0))).
  - vm_refl.
  - vm_refl.
  - repeat (apply Forall_cons; split; [split; reflexivity|]). apply Forall_nil. exact I.
  - reflexivity.
  - reflexivity.
  - vm_refl.
Defined.

(** [final_flush_writes_everything] applies to a writer that was flushed
    once and then received one more event. *)
Lemma final_flush_writes_everything_witness :
  Forall (fun c => Spec.safe_call (rt := Reference.runtime) c = true)
         Scenarios.before_shutdown /\
  Spec.distinct_names (S3Writer.names Scenarios.before_shutdown
                       ++ [S3Writer.uuid8 Scenarios.io_later]) /\
  S3Writer.buffer
    (S3Writer.writer
       (fst (S3Writer.flush (rt := Reference.runtime) Scenarios.io_later
               (S3Writer.run (rt := Reference.runtime) Scenarios.before_shutdown
                  (S3Writer.init "data/local-s3" 10 100))))) = [] /\
  S3Writer.written
    (S3Writer.disk
       (fst (S3Writer.flush (rt := Reference.runtime) Scenarios.io_later
               (S3Writer.run (rt := Reference.runtime) Scenarios.before_shutdown
                  (S3Writer.init "data/local-s3" 10 100)))))
    ≡ₚ S3Writer.enqueued Scenarios.before_shutdown.
Proof.
  assert (S : Forall (fun c => Spec.safe_call (rt := Reference.runtime) c = true)
                Scenarios.before_shutdown).
  { repeat (apply Forall_cons; split; [vm_refl|]). apply Forall_nil. exact I. }
  assert (D : Spec.distinct_names (S3Writer.names Scenarios.before_shutdown
                                   ++ [S3Writer.uuid8 Scenarios.io_later])).
  { split; apply (bool_decide_unpack _); vm_compute; exact I. }
  split; [exact S|]. split; [exact D|].
  exact (proj2 (final_flush_writes_everything (rt := Reference.runtime)
                  Scenarios.before_shutdown Scenarios.io_later "data/local-s3" 10 100
                  S D eq_refl eq_refl)).
Defined.

(** [interleaved_flushes_conserve_events] applies to an event that
    arrives while a flush is between its two locked regions. *)
Lemma interleaved_flushes_conserve_events_witness :
  Forall (fun a => Spec.safe_action (rt := Reference.runtime) a = true)
         Scenarios.overlapping /\
  Spec.distinct_names (S3Writer.names_by Scenarios.overlapping) /\
  S3Writer.written
    (S3Writer.disk (S3Writer.shared
       (S3Writer.interleave (rt := Reference.runtime) Scenarios.overlapping
          (S3Writer.mk_pool (S3Writer.init "data/local-s3" 10 100) []))))
  ++ S3Writer.buffer (S3Writer.writer (S3Writer.shared
       (S3Writer.interleave (rt := Reference.runtime) Scenarios.overlapping
          (S3Writer.mk_pool (S3Writer.init "data/local-s3" 10 100) []))))
  ++ concat (S3Writer.in_flight
       (S3Writer.interleave (rt := Reference.runtime) Scenarios.overlapping
          (S3Writer.mk_pool (S3Writer.init "data/local-s3" 10 100) [])))
  ≡ₚ S3Writer.enqueued_by Scenarios.overlapping.
Proof.
  assert (S : Forall (fun a => Spec.safe_action (rt := Reference.runtime) a = true)
                Scenarios.overlapping).
  { repeat (apply Forall_cons; split; [vm_refl|]). apply Forall_nil. exact I. }
  assert (D : Spec.distinct_names (S3Writer.names_by Scenarios.overlapping)).
  { split; apply (bool_decide_unpack _); vm_compute; exact I. }
  split; [exact S|]. split; [exact D|].
  exact (proj1 (interleaved_flushes_conserve_events (rt := Reference.runtime)
                  Scenarios.overlapping "data/local-s3" 10 100 S D)).
Defined.

(** [ingest_buffers_before_publishing] applies to a history in which the
    event log refuses the first of two requests. *)
Lemma ingest_buffers_before_publishing_witness :
  Forall (fun st => Invariants.safe_step (rt := Reference.runtime) st = true)
         Scenarios.busy_service /\
  Spec.distinct_names (Ingest.names Scenarios.busy_service) /\
  snd (Ingest.serve (rt := Reference.runtime) Scenarios.float_repr0
         Scenarios.busy_service (Ingest.new_service "data/local-s3" 10 100))
    = [ (Scenarios.request "e1" "2025-01-15T09:58:00Z", Ingest.Http500 RedisError);
        (Scenarios.request "e2" "2025-01-15T09:59:00Z", Ingest.Accepted "e2") ] /\
  Forall (Invariants.answer_of (Ingest.arrived Scenarios.busy_service))
    (snd (Ingest.serve (rt := Reference.runtime) Scenarios.float_repr0
            Scenarios.busy_service (Ingest.new_service "data/local-s3" 10 100))) /\
  S3Writer.written
    (S3Writer.disk (Ingest.parquet_writer
       (fst (Ingest.serve (rt := Reference.runtime) Scenarios.float_repr0
               Scenarios.busy_service (Ingest.new_service "data/local-s3" 10 100)))))
  ++ S3Writer.buffer
       (S3Writer.writer (Ingest.parquet_writer
          (fst (Ingest.serve (rt := Reference.runtime) Scenarios.float_repr0
                  Scenarios.busy_service (Ingest.new_service "data/local-s3" 10 100)))))
  ≡ₚ [ Ingest.model_dump (Scenarios.request "e1" "2025-01-15T09:58:00Z");
       Ingest.model_dump (Scenarios.request "e2" "2025-01-15T09:59:00Z") ].
Proof.
  assert (S : Forall (fun st => Invariants.safe_step (rt := Reference.runtime) st = true)
                Scenarios.busy_service).
  { repeat (apply Forall_cons; split; [vm_refl|]). apply Forall_nil. exact I. }
  assert (D : Spec.distinct_names (Ingest.names Scenarios.busy_service)).
  { split; apply (bool_decide_unpack _); vm_compute; exact I. }
  split; [exact S|]. split; [exact D|]. split; [vm_refl|].
  destruct (ingest_buffers_before_publishing (rt := Reference.runtime)
              Scenarios.float_repr0 Scenarios.busy_service "data/local-s3" 10 100)
    as (_ & A & R).
  split; [exact A | exact (proj1 (R S D))].
Defined.

(** [compute_features_counts] applies to the window that holds
    [fresh_record], one hour old. *)
Lemma compute_features_counts_witness :
  Featurizer.compute_features (rt := Reference.runtime) Examples.fresh_record
    Examples.fresh_window Examples.now0 = Ok Scenarios.fresh_features /\
  exists n5 n1 n24 : Z,
    Scenarios.fresh_features !! "txns_last_5m"%string = Some (PInt n5) /\
    Scenarios.fresh_features !! "txns_last_1h"%string = Some (PInt n1) /\
    Scenarios.fresh_features !! "txns_last_24h"%string = Some (PInt n24) /\
    0 <= n5 /\ n5 <= n1 /\ n1 <= n24.
Proof.
  assert (C : Featurizer.compute_features (rt := Reference.runtime)
                Examples.fresh_record Examples.fresh_window Examples.now0
              = Ok Scenarios.fresh_features) by vm_refl.
  split; [exact C|].
  destruct (compute_features_counts (rt := Reference.runtime) _ _ _ _ C)
    as (n5 & n1 & n24 & mv & ud & ui & dc & ic & F5 & F1 & F24 & _ & _ & _ & _ & _
        & L0 & L1 & L2 & _).
  exists n5, n1, n24. repeat (split; [assumption|]). assumption.
Defined.

(** [compute_features_max_amount] applies to the same window. *)
Lemma compute_features_max_amount_witness :
  Featurizer.compute_features (rt := Reference.runtime) Examples.fresh_record
    Examples.fresh_window Examples.now0 = Ok Scenarios.fresh_features /\
  exists events_24h amounts_24h m,
    Featurizer.get_recent (rt := Reference.runtime) 86400 Examples.now0
      Examples.fresh_window = Ok events_24h /\
    Featurizer.amounts (rt := Reference.runtime) events_24h = Ok amounts_24h /\
    Scenarios.fresh_features !! "max_amount_24h"%string = Some (PFloat m) /\
    (events_24h <> [] -> m ∈ amounts_24h).
Proof.
  assert (C : Featurizer.compute_features (rt := Reference.runtime)
                Examples.fresh_record Examples.fresh_window Examples.now0
              = Ok Scenarios.fresh_features) by vm_refl.
  split; [exact C|].
  destruct (compute_features_max_amount (rt := Reference.runtime) _ _ _ _ C)
    as (e24 & a24 & m & R & A & _ & F & _ & I & _).
  exists e24, a24, m. repeat (split; [assumption|]). assumption.
Defined.

(** [consumer_invariant] applies to the state after one turn on a log
    that holds [fresh_record]. *)
Lemma consumer_invariant_witness :
  Featurizer.user_windows
    (snd (Featurizer.consume_events (rt := Reference.runtime) [Scenarios.fresh_tick]
            (0%N, 0%N) Featurizer.init)) !! "u1"%string
    = Some Examples.fresh_window /\
  Featurizer.amount_count Examples.fresh_window
    = Z.of_nat (length (List.filter (Invariants.amount_parses (rt := Reference.runtime))
                          (Featurizer.events Examples.fresh_window))) /\
  0 <= Featurizer.amount_count Examples.fresh_window
    <= Z.of_nat (length (Featurizer.events Examples.fresh_window)).
Proof.
  assert (L : Featurizer.user_windows
                (snd (Featurizer.consume_events (rt := Reference.runtime)
                        [Scenarios.fresh_tick] (0%N, 0%N) Featurizer.init))
                !! "u1"%string = Some Examples.fresh_window) by vm_refl.
  split; [exact L|].
  exact (proj2 (consumer_invariant (rt := Reference.runtime) [Scenarios.fresh_tick]
                  "u1" Examples.fresh_window L)).
Defined.

(** [process_event_frame] applies to a record of [u1] and the user
    [u2]. *)
Lemma process_event_frame_witness :
  Examples.fresh_record !! "user_id"%string <> Some "u2"%string /\
  Featurizer.user_windows
    (fst (Featurizer.process_event (rt := Reference.runtime) Examples.env0
            Examples.fresh_record Featurizer.init)) !! "u2"%string
    = Featurizer.user_windows Featurizer.init !! "u2"%string /\
  Featurizer.hashes
    (Featurizer.store
       (fst (Featurizer.process_event (rt := Reference.runtime) Examples.env0
               Examples.fresh_record Featurizer.init)))
    !! Featurizer.redis_key "u2"
    = Featurizer.hashes (Featurizer.store Featurizer.init) !! Featurizer.redis_key "u2".
Proof.
  assert (U : Examples.fresh_record !! "user_id"%string = Some "u1"%string) by vm_refl.
  assert (N : Examples.fresh_record !! "user_id"%string <> Some "u2"%string)
    by (rewrite U; discriminate).
  split; [exact N|].
  destruct (process_event_frame (rt := Reference.runtime) Examples.env0
              Examples.fresh_record Featurizer.init "u2" N) as (A & B & _).
  split; [exact A | exact B].
Defined.

Lemma init_clean : Invariants.clean (rt := Reference.runtime) Featurizer.init.
Proof.
  intros uid w L. cbn [Featurizer.init Featurizer.user_windows] in L.
  rewrite lookup_empty in L. discriminate L.
Defined.

(** [process_event_succeeds] applies to [fresh_record] in the initial
    state. *)
Lemma process_event_succeeds_witness :
  Invariants.well_formed (rt := Reference.runtime) Examples.fresh_record = true /\
  Featurizer.redis_ok Examples.env0 = true /\
  snd (Featurizer.process_event (rt := Reference.runtime) Examples.env0
         Examples.fresh_record Featurizer.init) = Ok tt.
Proof.
  assert (W : Invariants.well_formed (rt := Reference.runtime) Examples.fresh_record
              = true) by vm_refl.
  split; [exact W|]. split; [reflexivity|].
  exact (proj1 (process_event_succeeds (rt := Reference.runtime) Examples.env0
                  Examples.fresh_record Featurizer.init W init_clean eq_refl)).
Defined.

(** [failed_write_keeps_the_event] applies to [fresh_record] when the
    store is down: the event is in the window of [u1] although nothing
    was written. *)
Lemma failed_write_keeps_the_event_witness :
  Invariants.well_formed (rt := Reference.runtime) Examples.fresh_record = true /\
  Featurizer.redis_ok Scenarios.env_store_down = false /\
  snd (Featurizer.process_event (rt := Reference.runtime) Scenarios.env_store_down
         Examples.fresh_record Featurizer.init) = Raise RedisError /\
  Featurizer.process_event (rt := Reference.runtime) Scenarios.env_store_down
    Examples.fresh_record Featurizer.init
    = (Scenarios.after_failed_write, Raise RedisError).
Proof.
  assert (W : Invariants.well_formed (rt := Reference.runtime) Examples.fresh_record
              = true) by vm_refl.
  assert (U : Examples.fresh_record !! "user_id"%string = Some "u1"%string) by vm_refl.
  split; [exact W|]. split; [reflexivity|].
  split; [|vm_refl].
  assert (N : "u1"%string <> EmptyString) by discriminate.
  exact (proj1 (failed_write_keeps_the_event (rt := Reference.runtime)
                  Scenarios.env_store_down Examples.fresh_record "u1" Featurizer.init
                  W init_clean U N eq_refl)).
Defined.

(** [processed_record_not_redelivered] applies to the turn that reads
    [fresh_record]. *)
Lemma processed_record_not_redelivered_witness :
  Invariants.increasing (0%N, 0%N) (Featurizer.log Scenarios.fresh_tick) = true /\
  Featurizer.xread (Featurizer.log Scenarios.fresh_tick) (0%N, 0%N) 10
    = [] ++ ((1%N, 0%N), Examples.fresh_record) :: [] /\
  Featurizer.id_lt
    (fst (Featurizer.consume_once (rt := Reference.runtime) Scenarios.fresh_tick
            (0%N, 0%N) Featurizer.init)) (1%N, 0%N) = false.
Proof.
  assert (I1 : Invariants.increasing (0%N, 0%N) (Featurizer.log Scenarios.fresh_tick)
               = true) by vm_refl.
  assert (X : Featurizer.xread (Featurizer.log Scenarios.fresh_tick) (0%N, 0%N) 10
              = [] ++ ((1%N, 0%N), Examples.fresh_record) :: []) by vm_refl.
  assert (K : is_ok (snd (Featurizer.process_event (rt := Reference.runtime)
                            (Featurizer.env_at Scenarios.fresh_tick (length (@nil Featurizer.message)))
                            Examples.fresh_record
                            (snd (Featurizer.process_messages (rt := Reference.runtime)
                                    (Featurizer.env_at Scenarios.fresh_tick) 0 []
                                    (0%N, 0%N) Featurizer.init)))) = true) by vm_refl.
  split; [exact I1|]. split; [exact X|].
  exact (proj1 (processed_record_not_redelivered (rt := Reference.runtime)
                  Scenarios.fresh_tick (0%N, 0%N) Featurizer.init [] []
                  (1%N, 0%N) Examples.fresh_record eq_refl I1 X K)).
Defined.

(** [consumer_reads_log_in_order] applies to one turn on the log that
    holds [fresh_record]: the next read returns nothing. *)
Lemma consumer_reads_log_in_order_witness :
  Invariants.increasing (0%N, 0%N) Scenarios.fresh_log = true /\
  Featurizer.xread Scenarios.fresh_log
    (fst (Featurizer.consume_events (rt := Reference.runtime) [Scenarios.fresh_tick]
            (0%N, 0%N) Featurizer.init)) 10
    = take 10 (drop (10 * length [Scenarios.fresh_tick]) Scenarios.fresh_log).
Proof.
  assert (I1 : Invariants.increasing (0%N, 0%N) Scenarios.fresh_log = true) by vm_refl.
  split; [exact I1|].
  apply (consumer_reads_log_in_order (rt := Reference.runtime) [Scenarios.fresh_tick]
           Scenarios.fresh_log Featurizer.init I1).
  - apply Forall_cons. split; [vm_refl|]. apply Forall_nil. exact I.
  - exact init_clean.
  - apply Forall_cons. split; [|apply Forall_nil; exact I].
    split; [reflexivity|]. split; [reflexivity|]. intros j. reflexivity.
Defined.

(** [process_event_publishes] applies to [fresh_record] in the initial
    state. *)
Lemma process_event_publishes_witness :
  Featurizer.process_event (rt := Reference.runtime) Examples.env0
    Examples.fresh_record Featurizer.init = (Examples.after_fresh, Ok tt) /\
  exists h,
    Featurizer.hashes (Featurizer.store Examples.after_fresh)
      !! Featurizer.redis_key "u1" = Some h /\
    Featurizer.ttl (Featurizer.store Examples.after_fresh)
      !! Featurizer.redis_key "u1" = Some 172800 /\
    h !! "last_feature_update_ts"%string
      = Some (PStr (isoformat (Featurizer.now Examples.env0) ++ "Z")).
Proof.
  assert (U : Examples.fresh_record !! "user_id"%string = Some "u1"%string) by vm_refl.
  assert (N : "u1"%string <> EmptyString) by discriminate.
  assert (P : Featurizer.process_event (rt := Reference.runtime) Examples.env0
                Examples.fresh_record Featurizer.init = (Examples.after_fresh, Ok tt))
    by vm_refl.
  split; [exact P|].
  destruct (process_event_publishes (rt := Reference.runtime) Examples.env0
              Examples.fresh_record "u1" Featurizer.init Examples.after_fresh U N P)
    as (h & ts & _ & H1 & H2 & _ & H3 & _).
  exists h. split; [exact H1|]. split; [exact H2 | exact H3].
Defined.

Lemma model_features_agree :
  forall k, k ∈ FeatureVector.feature_order ->
    Scenarios.model_features_only !! k = Scenarios.with_behaviour !! k.
Proof.
  apply Forall_forall. apply (bool_decide_unpack _). vm_compute. exact I.
Defined.

(** [predict_uses_only_model_features] applies to two hashes that differ
    in a behavioural feature only. *)
Lemma predict_uses_only_model_features_witness :
  Infer.hgetall (Scenarios.store_of Scenarios.model_features_only) (Infer.redis_key "u1")
    = Ok Scenarios.model_features_only /\
  Infer.hgetall (Scenarios.store_of Scenarios.with_behaviour) (Infer.redis_key "u1")
    = Ok Scenarios.with_behaviour /\
  match Infer.predict (rt := Reference.runtime) Infer.default_config
          (Scenarios.store_of Scenarios.model_features_only) "u1",
        Infer.predict (rt := Reference.runtime) Infer.default_config
          (Scenarios.store_of Scenarios.with_behaviour) "u1" with
  | Infer.Http200 b1, Infer.Http200 b2 =>
      Infer.risk_score b1 = Infer.risk_score b2
      /\ Infer.decision b1 = Infer.decision b2
  | Infer.Http500 x1, Infer.Http500 x2 => x1 = x2
  | _, _ => False
  end.
Proof.
  assert (G1 : Infer.hgetall (Scenarios.store_of Scenarios.model_features_only)
                 (Infer.redis_key "u1") = Ok Scenarios.model_features_only) by vm_refl.
  assert (G2 : Infer.hgetall (Scenarios.store_of Scenarios.with_behaviour)
                 (Infer.redis_key "u1") = Ok Scenarios.with_behaviour) by vm_refl.
  assert (N1 : Scenarios.model_features_only <> ∅).
  { intros E. apply (f_equal (fun m => m !! "V1"%string)) in E. discriminate E. }
  assert (N2 : Scenarios.with_behaviour <> ∅).
  { intros E. apply (f_equal (fun m => m !! "V1"%string)) in E. discriminate E. }
  split; [exact G1|]. split; [exact G2|].
  exact (predict_uses_only_model_features (rt := Reference.runtime)
           Infer.default_config _ _ "u1" _ _ G1 G2 N1 N2 model_features_agree eq_refl).
Defined.

(** [decide_risk_monotone] applies to the scores 0.2 and 0.5. *)
Lemma decide_risk_monotone_witness :
  PrimFloat.leb 0.2 0.5 = true /\
  Invariants.severity (Infer.decide_risk Infer.default_config 0.2)
    <= Invariants.severity (Infer.decide_risk Infer.default_config 0.5).
Proof.
  split; [reflexivity|].
  exact (decide_risk_monotone Infer.default_config 0.2 0.5 eq_refl).
Defined.

(** [decide_risk_without_step_up] applies to thresholds 0.7 and 0.3 in
    the wrong order and a score between them. *)
Lemma decide_risk_without_step_up_witness :
  PrimFloat.leb (Infer.threshold_block Scenarios.swapped_thresholds)
                (Infer.threshold_allow Scenarios.swapped_thresholds) = true /\
  Infer.decide_risk Scenarios.swapped_thresholds 0.5 <> "step_up"%string.
Proof.
  split; [reflexivity|].
  exact (decide_risk_without_step_up Scenarios.swapped_thresholds 0.5 eq_refl).
Defined.

(** [ingested_event_reaches_model] applies to the second request of
    [busy_service], processed in the initial state. *)
Lemma ingested_event_reaches_model_witness :
  snd (Featurizer.process_event (rt := Reference.runtime) Examples.env0
         (Ingest.py_str Scenarios.float_repr0
            <$> Ingest.model_dump (Scenarios.request "e2" "2025-01-15T09:59:00Z"))
         Featurizer.init) = Ok tt /\
  exists h,
    Featurizer.hashes
      (Featurizer.store
         (fst (Featurizer.process_event (rt := Reference.runtime) Examples.env0
                 (Ingest.py_str Scenarios.float_repr0
                    <$> Ingest.model_dump (Scenarios.request "e2" "2025-01-15T09:59:00Z"))
                 Featurizer.init)))
      !! Featurizer.redis_key "u1" = Some h /\
    FeatureVector.build_feature_vector (rt := Reference.runtime)
      (PStr <$> (Ingest.py_str Scenarios.float_repr0 <$> h))
      = FeatureVector.mk_tensor [1; 29]%nat
          (to_float32
             <$> Ingest.model_features (Scenarios.request "e2" "2025-01-15T09:59:00Z")).
Proof.
  apply (ingested_event_reaches_model (rt := Reference.runtime) Scenarios.float_repr0
           (Scenarios.request "e2" "2025-01-15T09:59:00Z") Examples.env0 Featurizer.init).
  - repeat (apply Forall_cons; split; [vm_refl|]). apply Forall_nil. exact I.
  - vm_refl.
  - vm_refl.
  - discriminate.
  - exact init_clean.
  - reflexivity.
Defined.
